(** * Kohonen self-organising map (kohonen.py): model and verified properties

    The development embeds the classes [Neuron] and [SOM] of [kohonen.py].

    Numbers.  Python and numpy floats are modelled by the real numbers [R]:
    rounding, infinities and nan are not modelled.  Where the program
    divides by zero no real number is produced (Python raises
    [ZeroDivisionError] for its own numbers, numpy scalars give [inf] or
    [nan] with a warning); the model records this as the exception
    [ZeroDivisionError].  Python integers are [Z], loop counters produced by
    [range] are [nat].

    Exceptions.  A computation that may raise returns a value of type [res],
    and sequencing is the bind of that monad.

    Arrays.  A one-dimensional numpy array is a [list R]; the two-dimensional
    grids ([self.map], [self.activitymap]) are lists of rows.  The attribute
    [self.weightsmap], which only aliases the neurons' weight arrays for the
    plotting code, is left out. *)

From Stdlib Require Import Reals List ZArith Lia Lra Bool Arith.
From Stdlib Require Import Sorting.Sorted Sorting.Permutation.
Import ListNotations.

Open Scope R_scope.

(** ** Exceptions *)

Inductive exn : Type :=
| IndexError
| ValueError
| ZeroDivisionError.

Inductive res (A : Type) : Type :=
| Ok (a : A)
| Raise (e : exn).

Arguments Ok {A} a.
Arguments Raise {A} e.

Definition bind {A B : Type} (m : res A) (f : A -> res B) : res B :=
  match m with
  | Ok a => f a
  | Raise e => Raise e
  end.

Notation "x <- m ;; k" := (bind m (fun x => k))
  (at level 61, m at next level, right associativity).
Notation "' p <- m ;; k" := (bind m (fun p => k))
  (at level 61, p pattern, m at next level, right associativity).

(** [for x in xs: s = body x s], stopping at the first exception. *)
Fixpoint for_each {X S : Type} (xs : list X) (body : X -> S -> res S) (s : S)
  : res S :=
  match xs with
  | [] => Ok s
  | x :: xs' => s' <- body x s ;; for_each xs' body s'
  end.

(** [[f(x) for x in xs]], stopping at the first exception. *)
Fixpoint map_res {X Y : Type} (f : X -> res Y) (xs : list X) : res (list Y) :=
  match xs with
  | [] => Ok []
  | x :: xs' => y <- f x ;; ys <- map_res f xs' ;; Ok (y :: ys)
  end.

(** ** Python and numpy primitives *)

Module Py.

(** [range(n)] for a non-negative count. *)
Definition range (n : nat) : list nat := seq 0 n.

(** [range(n)] for a Python integer: empty when [n <= 0]. *)
Definition rangeZ (n : Z) : list nat := seq 0 (Z.to_nat n).

(** [l[i]] for a loop counter [i >= 0]. *)
Definition get {A : Type} (l : list A) (i : nat) : res A :=
  match nth_error l i with
  | Some a => Ok a
  | None => Raise IndexError
  end.

Fixpoint replace {A : Type} (l : list A) (i : nat) (v : A) : list A :=
  match l, i with
  | [], _ => []
  | _ :: l', O => v :: l'
  | a :: l', S i' => a :: replace l' i' v
  end.

(** [l[i] = v] for a loop counter [i >= 0]. *)
Definition set {A : Type} (l : list A) (i : nat) (v : A) : res (list A) :=
  if (i <? length l)%nat then Ok (replace l i v) else Raise IndexError.

(** Index normalisation of Python sequences: a negative index counts from
    the end, and an index outside the sequence raises [IndexError]. *)
Definition norm_index (len : nat) (i : Z) : res nat :=
  let j := (if i <? 0 then i + Z.of_nat len else i)%Z in
  if ((0 <=? j) && (j <? Z.of_nat len))%Z then Ok (Z.to_nat j)
  else Raise IndexError.

(** [l[i]] for an arbitrary Python integer [i]. *)
Definition getZ {A : Type} (l : list A) (i : Z) : res A :=
  j <- norm_index (length l) i ;; get l j.

(** [l[i] = v] for an arbitrary Python integer [i]. *)
Definition setZ {A : Type} (l : list A) (i : Z) (v : A) : res (list A) :=
  j <- norm_index (length l) i ;; set l j v.

(** [m[i][j]] and [m[i][j] = v] on a grid. *)
Definition get2 {A : Type} (m : list (list A)) (i j : nat) : res A :=
  row <- get m i ;; get row j.

Definition set2 {A : Type} (m : list (list A)) (i j : nat) (v : A)
  : res (list (list A)) :=
  row <- get m i ;; row' <- set row j v ;; set m i row'.

(** [a / b].  A zero divisor yields no real number.  Python raises
    [ZeroDivisionError] when both operands are Python numbers (the mean of
    [SOM.MSE], the mean of [find_hand_position_v2]); where an operand is a
    numpy scalar (the weights of [find_hand_position_v3], the exponent of
    [Neuron.learn] when it is called by [SOM.learn]) numpy gives nan or inf
    and the program goes on.  The model stops with [ZeroDivisionError] in
    both cases: in the second it only says that no real-valued result
    exists, and the statements about those functions assume non-zero
    divisors. *)
Definition div (a b : R) : res R :=
  if Req_dec_T b 0 then Raise ZeroDivisionError else Ok (a / b).

(** Element-wise binary operation of numpy on one-dimensional arrays, with
    broadcasting of an array of length one. *)
Fixpoint zip_with (f : R -> R -> R) (a b : list R) : list R :=
  match a, b with
  | x :: a', y :: b' => f x y :: zip_with f a' b'
  | _, _ => []
  end.

Definition broadcast (f : R -> R -> R) (a b : list R) : res (list R) :=
  if (length a =? length b)%nat then Ok (zip_with f a b)
  else match a, b with
       | [x], _ => Ok (List.map (fun y => f x y) b)
       | _, [y] => Ok (List.map (fun x => f x y) a)
       | _, _ => Raise ValueError
       end.

(** [w[:] += d]: the result keeps the shape of [w]. *)
Definition iadd (w d : list R) : res (list R) :=
  if (length w =? length d)%nat then Ok (zip_with Rplus w d)
  else match d with
       | [y] => Ok (List.map (fun x => x + y) w)
       | _ => Raise ValueError
       end.

Definition sum_sq (v : list R) : R :=
  fold_right (fun a acc => a ^ 2 + acc) 0 v.

(** [numpy.linalg.norm(v)] on a one-dimensional array: the 2-norm. *)
Definition norm (v : list R) : R := sqrt (sum_sq v).

End Py.

(** ** class Neuron *)

Record Neuron : Type := mkNeuron {
  weights : list R;
  posx : Z;
  posy : Z;
  y : R
}.

Module NeuronM.

(** [Neuron.compute(self, x)] *)
Definition compute (self : Neuron) (x : list R) : res Neuron :=
  d <- Py.broadcast Rminus x (weights self) ;;
  Ok (mkNeuron (weights self) (posx self) (posy self) (Py.norm d)).

(** The integer [(abs(self.posx - posxbmu) + abs(self.posy - posybmu)) ** 2]. *)
Definition grid_term (self : Neuron) (posxbmu posybmu : Z) : Z :=
  ((Z.abs (posx self - posxbmu) + Z.abs (posy self - posybmu)) ^ 2)%Z.

(** [Neuron.learn(self, eta, sigma, posxbmu, posybmu, x)] *)
Definition learn (self : Neuron) (eta sigma : R) (posxbmu posybmu : Z)
  (x : list R) : res Neuron :=
  q <- Py.div (- IZR (grid_term self posxbmu posybmu)) (2 * sigma * sigma) ;;
  d <- Py.broadcast Rminus x (weights self) ;;
  let delta := List.map (fun a => eta * exp q * a) d in
  w <- Py.iadd (weights self) delta ;;
  Ok (mkNeuron w (posx self) (posy self) (y self)).

(** [Neuron.__init__(self, w, posx, posy)].  The array [w] is given by its
    entries in row-major order, which is what [w.flatten()] keeps. *)
Definition init (w : list R) (posx posy : Z) : Neuron :=
  mkNeuron w posx posy 0.

End NeuronM.

(** ** class SOM *)

Record SOM : Type := mkSOM {
  inputsize : list nat;
  gridsize : nat * nat;
  map : list (list Neuron);
  activitymap : list (list R)
}.

(** A grid position [(i, j)] and a running entry [((i, j), distance)] of the
    nearest-neighbour scans. *)
Definition pos : Type := (nat * nat)%type.
Definition entry : Type := (pos * R)%type.

(** The motor-space query point [motrice_position] and the pair of pairs
    returned by [find_hand_position_v1]. *)
Definition point : Type := (R * R)%type.

(** numpy functions used by [SOM.learn]. *)
Module Np.

Fixpoint argmin_from (best_i : nat) (best : R) (i : nat) (l : list R) : nat :=
  match l with
  | [] => best_i
  | a :: l' =>
      if Rlt_dec a best then argmin_from i a (S i) l'
      else argmin_from best_i best (S i) l'
  end.

(** [numpy.argmin(a)] on the flattened array: the index of the first
    occurrence of the minimum; [ValueError] on an empty array. *)
Definition argmin (a : list (list R)) : res nat :=
  match concat a with
  | [] => Raise ValueError
  | v :: l => Ok (argmin_from 0 v 1 l)
  end.

(** [numpy.unravel_index(idx, (rows, cols))] *)
Definition unravel_index (idx : nat) (shape : nat * nat) : res (nat * nat) :=
  let '(rows, cols) := shape in
  if (idx <? rows * cols)%nat then Ok (idx / cols, idx mod cols)%nat
  else Raise ValueError.

(** [numpy.min(a)]: the least entry of the array; [ValueError] on an empty
    array. *)
Definition amin (a : list (list R)) : res R :=
  match concat a with
  | [] => Raise ValueError
  | v :: l => Ok (fold_left Rmin l v)
  end.

End Np.

(** The loop nest [for i in range(rows): for j in range(cols): ...]. *)
Definition for_range2 {S : Type} (rows cols : nat)
  (body : nat -> nat -> S -> res S) (s : S) : res S :=
  for_each (Py.range rows)
    (fun i s1 => for_each (Py.range cols) (fun j s2 => body i j s2) s1) s.

(** The loop nest
    [for i in range(len(m)): for j in range(len(m[i])): ...]. *)
Definition for_grid {A S : Type} (m : list (list A))
  (body : nat -> nat -> S -> res S) (s : S) : res S :=
  for_each (Py.range (length m))
    (fun i s1 =>
       row <- Py.get m i ;;
       for_each (Py.range (length row)) (fun j s2 => body i j s2) s1) s.

(** Stable sort of a list of entries by distance:
    [closest_values.sort(key=lambda x: x[1])]. *)
Fixpoint insert_entry (e : entry) (l : list entry) : list entry :=
  match l with
  | [] => [e]
  | e' :: l' =>
      if Rle_dec (snd e) (snd e') then e :: l
      else e' :: insert_entry e l'
  end.

Definition sort_entries (l : list entry) : list entry :=
  fold_right insert_entry [] l.

Module SOMM.

(** One iteration of the body of [SOM.compute]. *)
Definition compute_body (x : list R) (posx posy : nat) (self : SOM) : res SOM :=
  n <- Py.get2 (map self) posx posy ;;
  n' <- NeuronM.compute n x ;;
  m' <- Py.set2 (map self) posx posy n' ;;
  n'' <- Py.get2 m' posx posy ;;
  am' <- Py.set2 (activitymap self) posx posy (y n'') ;;
  Ok (mkSOM (inputsize self) (gridsize self) m' am').

(** [SOM.compute(self, x)] *)
Definition compute (self : SOM) (x : list R) : res SOM :=
  for_range2 (fst (gridsize self)) (snd (gridsize self)) (compute_body x) self.

(** One iteration of the update loop of [SOM.learn]. *)
Definition learn_body (eta sigma : R) (bmux bmuy : nat) (x : list R)
  (posx posy : nat) (self : SOM) : res SOM :=
  n <- Py.get2 (map self) posx posy ;;
  n' <- NeuronM.learn n eta sigma (Z.of_nat bmux) (Z.of_nat bmuy) x ;;
  m' <- Py.set2 (map self) posx posy n' ;;
  Ok (mkSOM (inputsize self) (gridsize self) m' (activitymap self)).

(** The winner computed in the first line of [SOM.learn]. *)
Definition bmu (self : SOM) : res (nat * nat) :=
  idx <- Np.argmin (activitymap self) ;;
  Np.unravel_index idx (gridsize self).

(** [SOM.learn(self, eta, sigma, x)] *)
Definition learn (self : SOM) (eta sigma : R) (x : list R) : res SOM :=
  '(bmux, bmuy) <- bmu self ;;
  for_range2 (fst (gridsize self)) (snd (gridsize self))
    (learn_body eta sigma bmux bmuy x) self.

(** [abs(a.weights[0] - b.weights[0]) ** 2 + abs(a.weights[1] - b.weights[1]) ** 2] *)
Definition sq_diff (a b : Neuron) : res R :=
  a0 <- Py.get (weights a) 0 ;;
  b0 <- Py.get (weights b) 0 ;;
  a1 <- Py.get (weights a) 1 ;;
  b1 <- Py.get (weights b) 1 ;;
  Ok (Rabs (a0 - b0) ^ 2 + Rabs (a1 - b1) ^ 2).

(** [SOM.get_distance_with_neighbor(self, posx, posy)] *)
Definition get_distance_with_neighbor (m : list (list Neuron)) (posx posy : nat)
  : res R :=
  let distance := 0 in
  distance1 <-
    (if negb (posx =? 0)%nat then
       a <- Py.get2 m (posx - 1) posy ;;
       b <- Py.get2 m posx posy ;;
       d <- sq_diff a b ;;
       Ok (distance + d)
     else if negb (Z.of_nat posx =? Z.of_nat (length m) - 1)%Z then
       a <- Py.get2 m posx posy ;;
       b <- Py.get2 m (posx + 1) posy ;;
       d <- sq_diff a b ;;
       Ok (distance + d)
     else Ok distance) ;;
  if negb (posy =? 0)%nat then
    a <- Py.get2 m posx (posy - 1) ;;
    b <- Py.get2 m posx posy ;;
    d <- sq_diff a b ;;
    Ok (distance1 + d)
  else
    row <- Py.get m posx ;;
    if negb (Z.of_nat posy =? Z.of_nat (length row) - 1)%Z then
      a <- Py.get2 m posx posy ;;
      b <- Py.get2 m posx (posy + 1) ;;
      d <- sq_diff a b ;;
      Ok (distance1 + d)
    else Ok distance1.

(** [SOM.get_map_dispertion(self)] *)
Definition get_map_dispertion (m : list (list Neuron)) : res R :=
  for_grid m
    (fun i j distanceTotal =>
       d <- get_distance_with_neighbor m i j ;;
       Ok (distanceTotal + d))
    0.

(** The distance expression shared by the three [find_hand_position]
    methods:
    [pow(pow(n.weights[0]-motrice_position[0],2)
         + pow(n.weights[1]-motrice_position[1],2), 0.5)] *)
Definition motor_dist (n : Neuron) (motrice_position : point) : res R :=
  w0 <- Py.get (weights n) 0 ;;
  w1 <- Py.get (weights n) 1 ;;
  Ok (sqrt ((w0 - fst motrice_position) ^ 2 + (w1 - snd motrice_position) ^ 2)).

(** The scan of [find_hand_position_v1]: the running pair
    [(closest_value, closest_index)]. *)
Definition v1_body (m : list (list Neuron)) (motrice_position : point)
  (i j : nat) (st : R * pos) : res (R * pos) :=
  n <- Py.get2 m i j ;;
  d <- motor_dist n motrice_position ;;
  if Rlt_dec d (fst st) then Ok (d, (i, j)) else Ok st.

Definition v1_scan (m : list (list Neuron)) (motrice_position : point)
  : res (R * pos) :=
  n00 <- Py.get2 m 0 0 ;;
  closest_value <- motor_dist n00 motrice_position ;;
  for_grid m (v1_body m motrice_position) (closest_value, (0, 0)%nat).

(** [SOM.find_hand_position_v1(self, map, motrice_position)] *)
Definition find_hand_position_v1 (m : list (list Neuron))
  (motrice_position : point) : res (point * point) :=
  '(_, closest_index) <- v1_scan m motrice_position ;;
  n <- Py.get2 m (fst closest_index) (snd closest_index) ;;
  w0 <- Py.get (weights n) 0 ;;
  w1 <- Py.get (weights n) 1 ;;
  w2 <- Py.get (weights n) 2 ;;
  w3 <- Py.get (weights n) 3 ;;
  Ok ((w0, w1), (w2, w3)).

(** The scan shared by [find_hand_position_v2] and [find_hand_position_v3]:
    the running list [closest_values]. *)
Definition knn_body (m : list (list Neuron)) (motrice_position : point)
  (nb_values : Z) (i j : nat) (closest_values : list entry)
  : res (list entry) :=
  if (Z.of_nat (length closest_values) <? nb_values)%Z then
    n <- Py.get2 m i j ;;
    d <- motor_dist n motrice_position ;;
    Ok (sort_entries (closest_values ++ [((i, j), d)]))
  else
    n <- Py.get2 m i j ;;
    d <- motor_dist n motrice_position ;;
    worst <- Py.getZ closest_values (nb_values - 1) ;;
    if Rlt_dec d (snd worst) then
      cv <- Py.setZ closest_values (nb_values - 1) ((i, j), d) ;;
      Ok (sort_entries cv)
    else Ok closest_values.

Definition knn_scan (m : list (list Neuron)) (motrice_position : point)
  (nb_values : Z) : res (list entry) :=
  for_grid m (knn_body m motrice_position nb_values) [].

(** [[closest_values[i][0] for i in range(nb_values)]] *)
Definition positions (closest_values : list entry) (nb_values : Z)
  : res (list pos) :=
  map_res (fun i => e <- Py.get closest_values i ;; Ok (fst e))
    (Py.rangeZ nb_values).

(** [map[p[0]][p[1]].weights[c]] *)
Definition weight_at (m : list (list Neuron)) (p : pos) (c : nat) : res R :=
  n <- Py.get2 m (fst p) (snd p) ;; Py.get (weights n) c.

(** [SOM.find_hand_position_v2(self, map, motrice_position, nb_values)] *)
Definition find_hand_position_v2 (m : list (list Neuron))
  (motrice_position : point) (nb_values : Z) : res (list pos * point) :=
  closest_values <- knn_scan m motrice_position nb_values ;;
  '(result_x, result_y) <-
    for_each (Py.rangeZ nb_values)
      (fun i '(result_x, result_y) =>
         e <- Py.get closest_values i ;;
         wx <- weight_at m (fst e) 2 ;;
         wy <- weight_at m (fst e) 3 ;;
         Ok (result_x + wx, result_y + wy))
      (0, 0) ;;
  result_x <- Py.div result_x (IZR nb_values) ;;
  result_y <- Py.div result_y (IZR nb_values) ;;
  ps <- positions closest_values nb_values ;;
  Ok (ps, (result_x, result_y)).

(** [sum(closest_values[i][1] for i in range(nb_values))] *)
Definition total_of (closest_values : list entry) (nb_values : Z) : res R :=
  for_each (Py.rangeZ nb_values)
    (fun i acc => e <- Py.get closest_values i ;; Ok (acc + snd e)) 0.

(** [SOM.find_hand_position_v3(self, map, motrice_position, nb_values)].
    With [total_distance = 0] or [nb_values = 1] the source divides numpy
    scalars by zero and goes on with nan; the model has no real number for
    that estimate and stops at the division (see [Py.div]). *)
Definition find_hand_position_v3 (m : list (list Neuron))
  (motrice_position : point) (nb_values : Z) : res (list pos * point) :=
  closest_values <- knn_scan m motrice_position nb_values ;;
  total_distance <- total_of closest_values nb_values ;;
  '(result_x, result_y) <-
    for_each (Py.rangeZ nb_values)
      (fun i '(result_x, result_y) =>
         e <- Py.get closest_values i ;;
         q <- Py.div (snd e) total_distance ;;
         dist <- Py.div (1 - q) (IZR (nb_values - 1)) ;;
         wx <- weight_at m (fst e) 2 ;;
         wy <- weight_at m (fst e) 3 ;;
         Ok (result_x + wx * dist, result_y + wy * dist))
      (0, 0) ;;
  ps <- positions closest_values nb_values ;;
  Ok (ps, (result_x, result_y)).

(** The interpolated query point of the [mouvement] loops:
    [from_pos[c] + (index/(nb_steps-1))*(to_pos[c]-from_pos[c])] for both
    coordinates. *)
Definition interpolate (from_pos to_pos : point) (nb_steps : Z) (index : nat)
  : res point :=
  fx <- Py.div (INR index) (IZR (nb_steps - 1)) ;;
  let x := fst from_pos + fx * (fst to_pos - fst from_pos) in
  fy <- Py.div (INR index) (IZR (nb_steps - 1)) ;;
  let y := snd from_pos + fy * (snd to_pos - snd from_pos) in
  Ok (x, y).

(** The common shape of [mouvement_v1], [mouvement_v2] and [mouvement_v3]:
    [inner] is the call made inside the loop and [final] the call made after
    it on [to_pos]. *)
Definition mouvement {A : Type} (inner final : point -> res A)
  (from_pos to_pos : point) (nb_steps : Z) : res (list A) :=
  hand_steps <-
    for_each (Py.rangeZ (nb_steps - 1))
      (fun index hand_steps =>
         p <- interpolate from_pos to_pos nb_steps index ;;
         pos_hand <- inner p ;;
         Ok (hand_steps ++ [pos_hand]))
      [] ;;
  pos_hand <- final (fst to_pos, snd to_pos) ;;
  Ok (hand_steps ++ [pos_hand]).

(** [SOM.mouvement_v1(self, map, from_pos, to_pos, nb_steps)] *)
Definition mouvement_v1 (m : list (list Neuron)) (from_pos to_pos : point)
  (nb_steps : Z) : res (list (point * point)) :=
  mouvement (find_hand_position_v1 m) (find_hand_position_v1 m)
    from_pos to_pos nb_steps.

(** [SOM.mouvement_v2(self, map, from_pos, to_pos, nb_steps)] *)
Definition mouvement_v2 (m : list (list Neuron)) (from_pos to_pos : point)
  (nb_steps : Z) : res (list (list pos * point)) :=
  mouvement (fun p => find_hand_position_v2 m p 4)
    (fun p => find_hand_position_v2 m p 3) from_pos to_pos nb_steps.

(** [SOM.mouvement_v3(self, map, from_pos, to_pos, nb_steps)] *)
Definition mouvement_v3 (m : list (list Neuron)) (from_pos to_pos : point)
  (nb_steps : Z) : res (list (list pos * point)) :=
  mouvement (fun p => find_hand_position_v3 m p 4)
    (fun p => find_hand_position_v3 m p 3) from_pos to_pos nb_steps.

(** The inner loop of [SOM.__init__] for the row [posx]: the lists [mline]
    and [amline].  [random posx posy] stands for the array drawn by
    [numpy.random.random(self.inputsize)] for the cell, given by its
    entries. *)
Definition init_row (random : nat -> nat -> list R) (posx cols : nat)
  : list Neuron * list R :=
  fold_left
    (fun '(mline, amline) posy =>
       let neuron :=
         NeuronM.init (random posx posy) (Z.of_nat posx) (Z.of_nat posy) in
       (mline ++ [neuron], amline ++ [y neuron]))
    (Py.range cols) ([], []).

(** [SOM.__init__(self, inputsize, gridsize)] *)
Definition init (inputsize : list nat) (gridsize : nat * nat)
  (random : nat -> nat -> list R) : SOM :=
  let '(m, am) :=
    fold_left
      (fun '(m, am) posx =>
         let '(mline, amline) := init_row random posx (snd gridsize) in
         (m ++ [mline], am ++ [amline]))
      (Py.range (fst gridsize)) ([], []) in
  mkSOM inputsize gridsize m am.

(** [SOM.MSE(self, X)]: [X] is the list of its samples, each given by its
    entries ([x.flatten()]).  The map is returned with the result because
    [compute] updates it. *)
Definition MSE (self : SOM) (X : list (list R)) : res (R * SOM) :=
  let nsamples := length X in
  '(s, self') <-
    for_each X
      (fun x '(s, self1) =>
         self2 <- compute self1 x ;;
         mn <- Np.amin (activitymap self2) ;;
         Ok (s + mn ^ 2, self2))
      (0, self) ;;
  r <- Py.div s (INR nsamples) ;;
  Ok (r, self').

(** The learning loop of the script:
    [for i in range(N + 1): ... network.compute(x); network.learn(ETA, SIGMA, x)],
    where [xs] is the sequence of the samples drawn by the successive
    iterations. *)
Definition training_loop (eta sigma : R) (xs : list (list R)) (network : SOM)
  : res SOM :=
  for_each xs
    (fun x network1 =>
       network2 <- compute network1 x ;;
       learn network2 eta sigma x)
    network.

End SOMM.

(** * Specification-level notions *)

(** The Euclidean distance between two vectors of the same length. *)
Definition euclidean_distance (a b : list R) : R :=
  sqrt (fold_right Rplus 0 (Py.zip_with (fun p q => (p - q) ^ 2) a b)).

(** The Manhattan (L1) distance between two grid positions. *)
Definition manhattan (px py bx by_ : Z) : Z :=
  (Z.abs (px - bx) + Z.abs (py - by_))%Z.

(** The Gaussian neighbourhood kernel over a grid distance [d]. *)
Definition gaussian_kernel (sigma : R) (d : Z) : R :=
  exp (- (IZR d) ^ 2 / (2 * sigma ^ 2)).

(** The Kohonen update of one weight coordinate. *)
Definition kohonen_update (eta k : R) (w xi : R) : R := w + eta * k * (xi - w).

(** A grid with [rows] rows of [cols] cells each. *)
Definition grid_shape {A : Type} (m : list (list A)) (rows cols : nat) : Prop :=
  length m = rows /\ Forall (fun row => length row = cols) m.

(** The dimensionality declared by [inputsize]: the number of weights of a
    neuron created by the constructor. *)
Definition input_dim (s : SOM) : nat := fold_right Nat.mul 1%nat (inputsize s).

(** The maps the constructor of [SOM] builds and the methods preserve. *)
Definition wf_SOM (s : SOM) : Prop :=
  grid_shape (map s) (fst (gridsize s)) (snd (gridsize s)) /\
  grid_shape (activitymap s) (fst (gridsize s)) (snd (gridsize s)) /\
  Forall (Forall (fun n => length (weights n) = input_dim s)) (map s) /\
  forall i j n, Py.get2 (map s) i j = Ok n ->
    posx n = Z.of_nat i /\ posy n = Z.of_nat j.

(** Row-major order on grid positions. *)
Definition pos_lt (p q : pos) : Prop :=
  (fst p < fst q)%nat \/ (fst p = fst q /\ (snd p < snd q)%nat).

(** * Auxiliary definitions used by the statements and proofs *)

(** The cells visited by [for_range2], in visiting order. *)
Definition range_cells (rows cols : nat) : list pos :=
  flat_map (fun i => List.map (fun j => (i, j)) (Py.range cols)) (Py.range rows).

(** The cells visited by [for_grid], in visiting order. *)
Fixpoint grid_cells_from {A : Type} (i : nat) (m : list (list A)) : list pos :=
  match m with
  | [] => []
  | row :: m' =>
      List.map (fun j => (i, j)) (Py.range (length row)) ++ grid_cells_from (S i) m'
  end.

Definition grid_cells {A : Type} (m : list (list A)) : list pos :=
  grid_cells_from 0 m.

(** The grid [m] with the cell [(i, j)] replaced by [v]. *)
Definition replace2 {A : Type} (m : list (list A)) (i j : nat) (v : A)
  : list (list A) :=
  match nth_error m i with
  | Some row => Py.replace m i (Py.replace row j v)
  | None => m
  end.

(** Invariant of a loop that rewrites the grid cell by cell: the cells
    already visited hold the new neuron and activity, the others the old. *)
Definition grid_loop_inv (fn : Neuron -> Neuron) (fa : Neuron -> R -> R)
  (s0 : SOM) (done : list pos) (s : SOM) : Prop :=
  inputsize s = inputsize s0 /\ gridsize s = gridsize s0 /\
  grid_shape (map s) (fst (gridsize s0)) (snd (gridsize s0)) /\
  grid_shape (activitymap s) (fst (gridsize s0)) (snd (gridsize s0)) /\
  forall i j n a,
    Py.get2 (map s0) i j = Ok n -> Py.get2 (activitymap s0) i j = Ok a ->
    (In (i, j) done ->
       Py.get2 (map s) i j = Ok (fn n) /\
       Py.get2 (activitymap s) i j = Ok (fa n a)) /\
    (~ In (i, j) done ->
       Py.get2 (map s) i j = Ok n /\ Py.get2 (activitymap s) i j = Ok a).

(** The neuron after [Neuron.compute(x)]. *)
Definition activated (x : list R) (n : Neuron) : Neuron :=
  mkNeuron (weights n) (posx n) (posy n) (euclidean_distance x (weights n)).

(** The neuron after [Neuron.learn(eta, sigma, bx, by, x)]. *)
Definition learned (eta sigma : R) (bx by_ : nat) (x : list R) (n : Neuron)
  : Neuron :=
  mkNeuron
    (Py.zip_with
       (kohonen_update eta
          (gaussian_kernel sigma
             (manhattan (posx n) (posy n) (Z.of_nat bx) (Z.of_nat by_))))
       (weights n) x)
    (posx n) (posy n) (y n).

(** A one-cell map whose single weight is 0. *)
Definition one_cell : SOM :=
  mkSOM [1%nat] (1%nat, 1%nat) [[mkNeuron [0] 0 0 0]] [[0]].

(** Decides the comparisons of real numbers met when a definition is
    evaluated on concrete numbers. *)
Ltac r_decide :=
  repeat match goal with
    | |- context [Rlt_dec ?a ?b] => destruct (Rlt_dec a b); try lra
    | |- context [Rle_dec ?a ?b] => destruct (Rle_dec a b); try lra
    | |- context [Req_dec_T ?a ?b] => destruct (Req_dec_T a b); try lra
    end.

(** The order in which the scan ranks two entries: by distance, and at
    equal distance by row-major position. *)
Definition prec (e c : entry) : Prop :=
  snd e < snd c \/ (snd e = snd c /\ pos_lt (fst e) (fst c)).

(** The distance the scan computes for the prototype at a position. *)
Definition dist_at (m : list (list Neuron)) (q : point) (p : pos) : R :=
  match (n <- Py.get2 m (fst p) (snd p) ;; SOMM.motor_dist n q) with
  | Ok d => d
  | Raise _ => 0
  end.

(** Every prototype has the two motor coordinates the scans read. *)
Definition has_motor_coords (m : list (list Neuron)) : Prop :=
  Forall (Forall (fun n => (2 <= length (weights n))%nat)) m.

(** Invariant of the k-nearest scan after the cells [done]: the running
    list holds the [min k (length done)] first cells of [done] in the order
    [prec]. *)
Definition knn_inv (m : list (list Neuron)) (q : point) (k : Z)
  (done : list pos) (cv : list entry) : Prop :=
  length cv = Nat.min (Z.to_nat k) (length done) /\
  StronglySorted prec cv /\
  (forall e, In e cv -> In (fst e) done /\ snd e = dist_at m q (fst e)) /\
  ((length cv < Z.to_nat k)%nat ->
     forall p, In p done -> In (p, dist_at m q p) cv) /\
  (forall p, In p done ->
     In (p, dist_at m q p) cv \/
     forall e, In e cv -> prec e (p, dist_at m q p)).

(** Every prototype has the four coordinates the estimators read. *)
Definition has_output_coords (m : list (list Neuron)) : Prop :=
  Forall (Forall (fun n => (4 <= length (weights n))%nat)) m.

(** The weight coordinate [c] of the prototype at position [p]. *)
Definition coord_at (m : list (list Neuron)) (c : nat) (p : pos) : R :=
  match SOMM.weight_at m p c with
  | Ok w => w
  | Raise _ => 0
  end.

(** The running sums of the two estimators over the entries of the scan. *)
Definition sum_coord (m : list (list Neuron)) (c : nat) (cv : list entry)
  (a : R) : R :=
  fold_left (fun acc e => acc + coord_at m c (fst e)) cv a.

Definition total_dist (cv : list entry) (a : R) : R :=
  fold_left (fun acc e => acc + snd e) cv a.

Definition sum_weighted (m : list (list Neuron)) (c : nat) (total : R) (k : Z)
  (cv : list entry) (a : R) : R :=
  fold_left
    (fun acc e =>
       acc + coord_at m c (fst e) * ((1 - snd e / total) / IZR (k - 1)))
    cv a.

(** Invariant of the scan of [find_hand_position_v1] after the cells
    [done]: the running pair is the first cell of least distance. *)
Definition v1_inv (m : list (list Neuron)) (q : point)
  (done : list pos) (st : R * pos) : Prop :=
  fst st = dist_at m q (snd st) /\
  In (snd st) ((0, 0)%nat :: done) /\
  forall p, In p done ->
    p = snd st \/ prec (snd st, fst st) (p, dist_at m q p).

(** A one-row map of two prototypes with the same motor coordinates. *)
Definition two_cells : list (list Neuron) :=
  [[mkNeuron [0; 0; 1; 2] 0 0 0; mkNeuron [0; 0; 3; 4] 0 1 0]].

(** A computation whose only possible exception is [IndexError]. *)
Definition only_index_error {A : Type} (r : res A) : Prop :=
  forall e, r = Raise e -> e = IndexError.

(** The query point of step [index] of a trajectory of [nb_steps] steps. *)
Definition interp_point (from_pos to_pos : point) (nb_steps : Z) (index : nat)
  : point :=
  (fst from_pos + INR index / IZR (nb_steps - 1) * (fst to_pos - fst from_pos),
   snd from_pos + INR index / IZR (nb_steps - 1) * (snd to_pos - snd from_pos)).

(** The shape of a trajectory whose intermediate points are estimated with
    four neighbours and whose last point is estimated with three. *)
Definition k4_then_k3 (est : point -> Z -> res (list pos * point))
  (from_pos to_pos : point) (nb_steps : Z) (steps : list (list pos * point))
  : Prop :=
  exists init last,
    steps = init ++ [last] /\
    length init = Z.to_nat (nb_steps - 1) /\
    (forall index e, nth_error init index = Some e ->
       exists p, SOMM.interpolate from_pos to_pos nb_steps index = Ok p /\
                 est p 4%Z = Ok e /\ length (fst e) = 4%nat) /\
    est to_pos 3%Z = Ok last /\ length (fst last) = 3%nat /\
    forall r4, est to_pos 4%Z = Ok r4 -> last <> r4.

(** A two by two map whose prototypes all have first motor coordinate 0. *)
Definition four_cells : list (list Neuron) :=
  [[mkNeuron [0; 0; 1; 2] 0 0 0; mkNeuron [0; 1; 3; 4] 0 1 0];
   [mkNeuron [0; 2; 5; 6] 1 0 0; mkNeuron [0; 3; 7; 8] 1 1 0]].

(** Sum of [f] over a list. *)
Definition sum_over {X : Type} (f : X -> R) (xs : list X) : R :=
  fold_right (fun x acc => f x + acc) 0 xs.

(** The squared difference, in the first two weight coordinates, between
    the prototypes at two positions. *)
Definition sq_at (m : list (list Neuron)) (p p' : pos) : R :=
  match (a <- Py.get2 m (fst p) (snd p) ;;
         b <- Py.get2 m (fst p') (snd p') ;;
         SOMM.sq_diff a b) with
  | Ok d => d
  | Raise _ => 0
  end.

(** The sum, over every prototype, of the squared differences against its
    neighbour one step in the +row direction and its neighbour one step in
    the +column direction, where they exist: every adjacent pair once. *)
Definition forward_dispersion (m : list (list Neuron)) (rows cols : nat) : R :=
  sum_over
    (fun i =>
       sum_over
         (fun j =>
            (if (S i <? rows)%nat then sq_at m (i, j) (S i, j) else 0) +
            (if (S j <? cols)%nat then sq_at m (i, j) (i, S j) else 0))
         (seq 0 cols))
    (seq 0 rows).

(** The same sum when a prototype of the last row (column) contributes
    against its neighbour on the opposite side instead. *)
Definition wrapped_dispersion (m : list (list Neuron)) (rows cols : nat) : R :=
  sum_over
    (fun i =>
       sum_over
         (fun j =>
            (if (S i <? rows)%nat then sq_at m (i, j) (S i, j)
             else if (1 <=? i)%nat then sq_at m (i - 1, j)%nat (i, j) else 0) +
            (if (S j <? cols)%nat then sq_at m (i, j) (i, S j)
             else if (1 <=? j)%nat then sq_at m (i, j - 1)%nat (i, j) else 0))
         (seq 0 cols))
    (seq 0 rows).

(** The pairs between rows 0 and 1, and between columns 0 and 1. *)
Definition first_row_pairs (m : list (list Neuron)) (rows cols : nat) : R :=
  if (2 <=? rows)%nat
  then sum_over (fun j => sq_at m (0, j)%nat (1, j)%nat) (seq 0 cols)
  else 0.

Definition first_col_pairs (m : list (list Neuron)) (rows cols : nat) : R :=
  if (2 <=? cols)%nat
  then sum_over (fun i => sq_at m (i, 0)%nat (i, 1)%nat) (seq 0 rows)
  else 0.

(** What a cell of a line of [n] cells contributes in the program: the pair
    with the previous cell, or for cell 0 the pair with the next one. *)
Definition line_term (n : nat) (g : nat -> R) (i : nat) : R :=
  if (i =? 0)%nat then (if (2 <=? n)%nat then g 0%nat else 0)
  else g (i - 1)%nat.

(** A column of three prototypes whose first weights are 0, 1 and 3. *)
Definition col3 : list (list Neuron) :=
  [[mkNeuron [0; 0] 0 0 0]; [mkNeuron [1; 0] 1 0 0]; [mkNeuron [3; 0] 2 0 0]].

(** The map after [SOM.compute(x)]: every neuron activated, and the
    activity map holding the same distances. *)
Definition compute_result (s : SOM) (x : list R) : SOM :=
  mkSOM (inputsize s) (gridsize s)
    (List.map (List.map (activated x)) (map s))
    (List.map (List.map (fun n => euclidean_distance x (weights n))) (map s)).

(** The map after [SOM.learn(eta, sigma, x)] when the winner is [(bx, by)]. *)
Definition learn_result (s : SOM) (eta sigma : R) (bx by_ : nat) (x : list R)
  : SOM :=
  mkSOM (inputsize s) (gridsize s)
    (List.map (List.map (learned eta sigma bx by_ x)) (map s))
    (activitymap s).

(** Every weight of every prototype lies between [lo] and [hi]. *)
Definition weights_within (lo hi : R) (m : list (list Neuron)) : Prop :=
  Forall (Forall (fun n => Forall (fun w => lo <= w <= hi) (weights n))) m.

(** A map without prototypes. *)
Definition empty_som : SOM := mkSOM [1%nat] (0%nat, 0%nat) [] [].

(** A one-cell map over inputs of dimension 2. *)
Definition plane_cell : SOM :=
  mkSOM [2%nat] (1%nat, 1%nat) [[mkNeuron [0; 0] 0 0 0]] [[0]].

(** A freshly built map of one row and two cells over inputs of dimension 2:
    the prototypes [(3, 4)] and [(0, 1)]. *)
Definition plane_row : SOM :=
  mkSOM [2%nat] (1%nat, 2%nat)
    [[mkNeuron [3; 4] 0 0 0; mkNeuron [0; 1] 0 1 0]] [[0; 0]].

(** The neuron the constructor puts in the cell [(i, j)]. *)
Definition initial_neuron (random : nat -> nat -> list R) (i j : nat) : Neuron :=
  mkNeuron (random i j) (Z.of_nat i) (Z.of_nat j) 0.

(** The least Euclidean distance from [x] to a prototype of the grid [m]
    (0 on a grid without prototypes). *)
Definition nearest_distance (m : list (list Neuron)) (x : list R) : R :=
  match Np.amin
          (List.map (List.map (fun n => euclidean_distance x (weights n))) m)
  with
  | Ok v => v
  | Raise _ => 0
  end.

(** Two neurons with the same first two weights. *)
Definition same_motor (a b : Neuron) : Prop :=
  Py.get (weights a) 0 = Py.get (weights b) 0 /\
  Py.get (weights a) 1 = Py.get (weights b) 1.

(** * Basic facts *)

Lemma bind_ok {A B : Type} (m : res A) (f : A -> res B) (b : B) :
  bind m f = Ok b -> exists a, m = Ok a /\ f a = Ok b.
Proof.
  destruct m as [a|e]; simpl; intros H.
  - exists a; split; [reflexivity | exact H].
  - discriminate H.
Qed.

Lemma for_each_app {X S : Type} (xs ys : list X) (body : X -> S -> res S) s :
  for_each (xs ++ ys) body s = s' <- for_each xs body s ;; for_each ys body s'.
Proof.
  revert s; induction xs as [|x xs IH]; intros s; simpl.
  - reflexivity.
  - destruct (body x s) as [s1|e]; simpl; [apply IH | reflexivity].
Qed.

Lemma for_each_map {X Y S : Type} (g : X -> Y) (xs : list X)
  (body : Y -> S -> res S) s :
  for_each (List.map g xs) body s = for_each xs (fun x => body (g x)) s.
Proof.
  revert s; induction xs as [|x xs IH]; intros s; simpl.
  - reflexivity.
  - destruct (body (g x) s); simpl; [apply IH | reflexivity].
Qed.

Lemma for_each_ext {X S : Type} (xs : list X) (f g : X -> S -> res S) s :
  (forall x s', In x xs -> f x s' = g x s') ->
  for_each xs f s = for_each xs g s.
Proof.
  revert s; induction xs as [|x xs IH]; intros s H; simpl.
  - reflexivity.
  - rewrite (H x s (or_introl eq_refl)).
    destruct (g x s); simpl; [|reflexivity].
    apply IH. intros x' s' Hin. apply H. right; exact Hin.
Qed.

(** Loop rule: an invariant indexed by the elements already visited. *)
Lemma for_each_inv {X S : Type} (P : list X -> S -> Prop)
  (xs : list X) (body : X -> S -> res S) (s0 : S) :
  P [] s0 ->
  (forall done x rest s, xs = done ++ x :: rest -> P done s ->
     exists s', body x s = Ok s' /\ P (done ++ [x]) s') ->
  exists s', for_each xs body s0 = Ok s' /\ P xs s'.
Proof.
  intros H0 Hstep.
  assert (G : forall rest done s, xs = done ++ rest -> P done s ->
            exists s', for_each rest body s = Ok s' /\ P xs s').
  { induction rest as [|x rest IH]; intros done s Hxs HP.
    - exists s. rewrite app_nil_r in Hxs. subst done. split; [reflexivity|exact HP].
    - destruct (Hstep done x rest s Hxs HP) as [s1 [Hb HP1]].
      simpl. rewrite Hb. simpl.
      apply (IH (done ++ [x])); [|exact HP1].
      rewrite <- app_assoc. exact Hxs. }
  apply (G xs [] s0); [reflexivity | exact H0].
Qed.

Lemma for_range2_cells {S : Type} rows cols (body : nat -> nat -> S -> res S) s :
  for_range2 rows cols body s =
  for_each (range_cells rows cols) (fun p => body (fst p) (snd p)) s.
Proof.
  unfold for_range2, range_cells.
  generalize (Py.range rows) as rs. intros rs. revert s.
  induction rs as [|i rs IH]; intros s; simpl.
  - reflexivity.
  - rewrite for_each_app, for_each_map. simpl.
    destruct (for_each (Py.range cols) _ s); simpl; [apply IH | reflexivity].
Qed.

Lemma in_range_cells rows cols p :
  In p (range_cells rows cols) <-> (fst p < rows)%nat /\ (snd p < cols)%nat.
Proof.
  unfold range_cells, Py.range. rewrite in_flat_map. split.
  - intros [i [Hi Hp]]. apply in_map_iff in Hp. destruct Hp as [j [Hj Hin]].
    subst p. simpl. apply in_seq in Hi. apply in_seq in Hin. lia.
  - intros [H1 H2]. exists (fst p). split.
    + apply in_seq. lia.
    + apply in_map_iff. exists (snd p). split.
      * destruct p; reflexivity.
      * apply in_seq. lia.
Qed.

Lemma NoDup_range_cells rows cols : NoDup (range_cells rows cols).
Proof.
  unfold range_cells, Py.range.
  generalize 0%nat at 2 as a. induction rows as [|rows IH]; intros a; simpl.
  - constructor.
  - apply NoDup_app.
    + apply Finite.Injective_map_NoDup; [|apply seq_NoDup].
      intros j j' E. congruence.
    + apply IH.
    + intros p H1 H2. apply in_map_iff in H1. destruct H1 as [j [Hp _]].
      apply in_flat_map in H2. destruct H2 as [i [Hi Hq]].
      apply in_map_iff in Hq. destruct Hq as [j' [Hq _]].
      apply in_seq in Hi. subst p. inversion Hq. lia.
Qed.

(** ** Indexing *)

Lemma get_some {A : Type} (l : list A) i a :
  Py.get l i = Ok a <-> nth_error l i = Some a.
Proof.
  unfold Py.get. destruct (nth_error l i); split; intros H;
    try discriminate; congruence.
Qed.

Lemma get_lt {A : Type} (l : list A) i :
  (i < length l)%nat -> exists a, Py.get l i = Ok a.
Proof.
  intros H. unfold Py.get. destruct (nth_error l i) as [a|] eqn:E.
  - exists a; reflexivity.
  - apply nth_error_None in E. lia.
Qed.

Lemma get_ok_lt {A : Type} (l : list A) i a :
  Py.get l i = Ok a -> (i < length l)%nat.
Proof.
  intros H. apply get_some in H. apply nth_error_Some. congruence.
Qed.

Lemma get_raise {A : Type} (l : list A) i :
  (length l <= i)%nat -> Py.get l i = Raise IndexError.
Proof.
  intros H. unfold Py.get. apply nth_error_None in H. rewrite H. reflexivity.
Qed.

Lemma replace_length {A : Type} (l : list A) i v :
  length (Py.replace l i v) = length l.
Proof.
  revert i; induction l as [|a l IH]; intros [|i]; simpl; auto.
Qed.

Lemma nth_error_replace_same {A : Type} (l : list A) i v :
  (i < length l)%nat -> nth_error (Py.replace l i v) i = Some v.
Proof.
  revert i; induction l as [|a l IH]; intros [|i] H; simpl in *; try lia.
  - reflexivity.
  - apply IH. lia.
Qed.

Lemma nth_error_replace_other {A : Type} (l : list A) i i' v :
  i <> i' -> nth_error (Py.replace l i v) i' = nth_error l i'.
Proof.
  revert i i'; induction l as [|a l IH]; intros [|i] [|i'] H; simpl;
    try reflexivity; try congruence.
  apply IH. congruence.
Qed.

Lemma set_ok {A : Type} (l : list A) i v :
  (i < length l)%nat -> Py.set l i v = Ok (Py.replace l i v).
Proof.
  intros H. unfold Py.set. apply Nat.ltb_lt in H. rewrite H. reflexivity.
Qed.

Lemma set2_ok {A : Type} (m : list (list A)) i j a v :
  Py.get2 m i j = Ok a ->
  exists row, Py.get m i = Ok row /\
    Py.set2 m i j v = Ok (Py.replace m i (Py.replace row j v)).
Proof.
  unfold Py.get2, Py.set2. intros H.
  apply bind_ok in H. destruct H as [row [Hr Hj]].
  exists row. split; [exact Hr|]. rewrite Hr. simpl.
  rewrite (set_ok row j v (get_ok_lt _ _ _ Hj)). simpl.
  apply set_ok. eapply get_ok_lt; eauto.
Qed.

Lemma get_replace_same {A : Type} (l : list A) i v :
  (i < length l)%nat -> Py.get (Py.replace l i v) i = Ok v.
Proof.
  intros H. unfold Py.get. rewrite nth_error_replace_same by exact H. reflexivity.
Qed.

Lemma get_replace_other {A : Type} (l : list A) i i' v :
  i <> i' -> Py.get (Py.replace l i v) i' = Py.get l i'.
Proof.
  intros H. unfold Py.get. rewrite nth_error_replace_other by exact H. reflexivity.
Qed.

Lemma get2_replace_same {A : Type} (m : list (list A)) i j row v :
  Py.get m i = Ok row -> (j < length row)%nat ->
  Py.get2 (Py.replace m i (Py.replace row j v)) i j = Ok v.
Proof.
  intros Hr Hj. unfold Py.get2.
  rewrite get_replace_same by (eapply get_ok_lt; eauto). simpl.
  apply get_replace_same. exact Hj.
Qed.

Lemma get2_replace_other {A : Type} (m : list (list A)) i j i' j' row v :
  Py.get m i = Ok row -> (i, j) <> (i', j') ->
  Py.get2 (Py.replace m i (Py.replace row j v)) i' j' = Py.get2 m i' j'.
Proof.
  intros Hr Hne. unfold Py.get2.
  destruct (Nat.eq_dec i i') as [E|E].
  - subst i'. rewrite get_replace_same by (eapply get_ok_lt; eauto).
    rewrite Hr. simpl. apply get_replace_other. congruence.
  - rewrite get_replace_other by exact E. reflexivity.
Qed.

Lemma grid_shape_replace {A : Type} (m : list (list A)) rows cols i j row v :
  grid_shape m rows cols -> Py.get m i = Ok row ->
  grid_shape (Py.replace m i (Py.replace row j v)) rows cols.
Proof.
  intros [Hl Hf] Hr. split.
  - rewrite replace_length. exact Hl.
  - rewrite Forall_forall in *. intros r Hin.
    apply In_nth_error in Hin. destruct Hin as [k Hk].
    destruct (Nat.eq_dec i k) as [E|E].
    + subst k. rewrite nth_error_replace_same in Hk by (eapply get_ok_lt; eauto).
      inversion Hk. rewrite replace_length. apply Hf.
      apply get_some in Hr. eapply nth_error_In; eauto.
    + rewrite nth_error_replace_other in Hk by exact E.
      apply Hf. eapply nth_error_In; eauto.
Qed.

Lemma grid_shape_get2 {A : Type} (m : list (list A)) rows cols i j :
  grid_shape m rows cols -> (i < rows)%nat -> (j < cols)%nat ->
  exists a, Py.get2 m i j = Ok a.
Proof.
  intros [Hl Hf] Hi Hj. unfold Py.get2.
  destruct (get_lt m i) as [row Hr]; [lia|]. rewrite Hr. simpl.
  apply get_lt. rewrite Forall_forall in Hf.
  rewrite (Hf row); [exact Hj|]. apply get_some in Hr. eapply nth_error_In; eauto.
Qed.

Lemma get2_in {A : Type} (m : list (list A)) i j a :
  Py.get2 m i j = Ok a -> exists row, In row m /\ In a row.
Proof.
  unfold Py.get2. intros H. apply bind_ok in H. destruct H as [row [H1 H2]].
  exists row. apply get_some in H1, H2. split; eapply nth_error_In; eauto.
Qed.

(** ** Vectors *)

Lemma zip_with_length f a b :
  length a = length b -> length (Py.zip_with f a b) = length a.
Proof.
  revert b; induction a as [|x a IH]; intros [|y' b] H; simpl in *;
    try reflexivity; try discriminate.
  f_equal. apply IH. lia.
Qed.

Lemma broadcast_same f a b :
  length a = length b -> Py.broadcast f a b = Ok (Py.zip_with f a b).
Proof.
  intros H. unfold Py.broadcast. apply Nat.eqb_eq in H. rewrite H. reflexivity.
Qed.

Lemma iadd_same w d :
  length w = length d -> Py.iadd w d = Ok (Py.zip_with Rplus w d).
Proof.
  intros H. unfold Py.iadd. apply Nat.eqb_eq in H. rewrite H. reflexivity.
Qed.

Lemma norm_diff_euclidean x w :
  Py.norm (Py.zip_with Rminus x w) = euclidean_distance x w.
Proof.
  unfold Py.norm, euclidean_distance, Py.sum_sq. f_equal.
  revert w; induction x as [|a x IH]; intros [|b w]; simpl; try reflexivity.
  rewrite IH. reflexivity.
Qed.

Lemma kohonen_zip eta k w x :
  length x = length w ->
  Py.zip_with Rplus w (List.map (fun a => eta * k * a) (Py.zip_with Rminus x w))
  = Py.zip_with (kohonen_update eta k) w x.
Proof.
  revert x; induction w as [|b w IH]; intros [|a x] H; simpl in *;
    try reflexivity; try discriminate.
  rewrite IH by lia. reflexivity.
Qed.

Lemma nth_error_zip_with f a b i u v :
  nth_error a i = Some u -> nth_error b i = Some v ->
  nth_error (Py.zip_with f a b) i = Some (f u v).
Proof.
  revert b i; induction a as [|x a IH]; intros [|y' b] [|i] Ha Hb;
    simpl in *; try discriminate.
  - inversion Ha; inversion Hb; subst. reflexivity.
  - apply IH; assumption.
Qed.

Lemma learn_exponent sigma d :
  - IZR (d ^ 2) / (2 * sigma * sigma) = - (IZR d) ^ 2 / (2 * sigma ^ 2).
Proof.
  replace (d ^ 2)%Z with (d * d)%Z by ring. rewrite mult_IZR.
  replace (2 * sigma ^ 2) with (2 * sigma * sigma) by ring.
  replace (IZR d ^ 2) with (IZR d * IZR d) by ring. reflexivity.
Qed.

(** ** Neuron.learn *)

Lemma neuron_learn_ok n eta sigma bx by_ x :
  0 < sigma -> length x = length (weights n) ->
  NeuronM.learn n eta sigma bx by_ x =
  Ok (mkNeuron
        (Py.zip_with
           (kohonen_update eta
              (gaussian_kernel sigma (manhattan (posx n) (posy n) bx by_)))
           (weights n) x)
        (posx n) (posy n) (y n)).
Proof.
  intros Hs Hl. unfold NeuronM.learn, Py.div.
  destruct (Req_dec_T (2 * sigma * sigma) 0) as [E|_]; [nra|]. simpl.
  rewrite broadcast_same by exact Hl. simpl.
  rewrite iadd_same.
  2:{ rewrite length_map, zip_with_length; auto. }
  simpl. unfold NeuronM.grid_term. rewrite learn_exponent.
  rewrite kohonen_zip by exact Hl. reflexivity.
Qed.

(** ** Loops that rewrite a grid cell by cell *)

Lemma set2_replace2 {A : Type} (m : list (list A)) i j a v :
  Py.get2 m i j = Ok a -> Py.set2 m i j v = Ok (replace2 m i j v).
Proof.
  intros H. destruct (set2_ok m i j a v H) as [row [Hr Hs]].
  unfold replace2. apply get_some in Hr. rewrite Hr. exact Hs.
Qed.

Lemma get2_replace2_same {A : Type} (m : list (list A)) i j a v :
  Py.get2 m i j = Ok a -> Py.get2 (replace2 m i j v) i j = Ok v.
Proof.
  intros H. unfold Py.get2 in H. apply bind_ok in H. destruct H as [row [Hr Hj]].
  unfold replace2. rewrite (proj1 (get_some _ _ _) Hr).
  apply get2_replace_same; [exact Hr | eapply get_ok_lt; eauto].
Qed.

Lemma get2_replace2_other {A : Type} (m : list (list A)) i j i' j' v :
  (i, j) <> (i', j') -> Py.get2 (replace2 m i j v) i' j' = Py.get2 m i' j'.
Proof.
  intros H. unfold replace2. destruct (nth_error m i) as [row|] eqn:E.
  - apply get2_replace_other; [apply get_some; exact E | exact H].
  - reflexivity.
Qed.

Lemma grid_shape_replace2 {A : Type} (m : list (list A)) rows cols i j v :
  grid_shape m rows cols -> grid_shape (replace2 m i j v) rows cols.
Proof.
  intros H. unfold replace2. destruct (nth_error m i) as [row|] eqn:E.
  - eapply grid_shape_replace; [exact H | apply get_some; exact E].
  - exact H.
Qed.

Section GridLoop.

Variables (fn : Neuron -> Neuron) (fa : Neuron -> R -> R).
Variable body : nat -> nat -> SOM -> res SOM.
Variable s0 : SOM.

Hypothesis shape_map :
  grid_shape (map s0) (fst (gridsize s0)) (snd (gridsize s0)).
Hypothesis shape_act :
  grid_shape (activitymap s0) (fst (gridsize s0)) (snd (gridsize s0)).
Hypothesis body_ok : forall i j s n a,
  Py.get2 (map s0) i j = Ok n ->
  Py.get2 (map s) i j = Ok n ->
  Py.get2 (activitymap s) i j = Ok a ->
  body i j s =
  Ok (mkSOM (inputsize s) (gridsize s) (replace2 (map s) i j (fn n))
        (replace2 (activitymap s) i j (fa n a))).

Let rows := fst (gridsize s0).
Let cols := snd (gridsize s0).

Lemma grid_loop :
  exists s', for_range2 rows cols body s0 = Ok s' /\
    grid_loop_inv fn fa s0 (range_cells rows cols) s'.
Proof.
  rewrite for_range2_cells. apply for_each_inv.
  - split; [reflexivity|]. split; [reflexivity|].
    split; [exact shape_map|]. split; [exact shape_act|].
    intros i j n a Hn Ha. split; [intros []|]. intros _; split; assumption.
  - intros done [i j] rest s Hxs (Hi & Hg & Hm & Ha & Hc). simpl.
    assert (Hin : In (i, j) (range_cells rows cols)).
    { rewrite Hxs. apply in_or_app. right. left. reflexivity. }
    assert (Hnd : ~ In (i, j) done).
    { pose proof (NoDup_range_cells rows cols) as ND. rewrite Hxs in ND.
      apply NoDup_remove_2 in ND. intros Hd. apply ND.
      apply in_or_app. left. exact Hd. }
    apply in_range_cells in Hin. simpl in Hin. destruct Hin as [Hlt1 Hlt2].
    destruct (grid_shape_get2 _ _ _ i j shape_map Hlt1 Hlt2) as [n Hn].
    destruct (grid_shape_get2 _ _ _ i j shape_act Hlt1 Hlt2) as [a Ha0].
    destruct (Hc i j n a Hn Ha0) as [_ Hold]. destruct (Hold Hnd) as [Hn1 Ha1].
    eexists. split; [apply (body_ok i j s n a Hn Hn1 Ha1)|].
    unfold grid_loop_inv. simpl.
    split; [exact Hi|]. split; [exact Hg|].
    split; [apply grid_shape_replace2, Hm|].
    split; [apply grid_shape_replace2, Ha|].
    intros i' j' n' a' Hn' Ha'. destruct (Hc i' j' n' a' Hn' Ha') as [Hc1 Hc2].
    split.
    + intros Hd. apply in_app_or in Hd. destruct Hd as [Hd|[Hd|[]]].
      * assert (Hne : (i, j) <> (i', j')).
        { intros E. apply Hnd. rewrite E. exact Hd. }
        rewrite !get2_replace2_other by exact Hne. apply Hc1, Hd.
      * inversion Hd; subst i' j'.
        rewrite Hn' in Hn. inversion Hn; subst n'.
        rewrite Ha' in Ha0. inversion Ha0; subst a'.
        split; eapply get2_replace2_same; eauto.
    + intros Hd.
      assert (Hne : (i, j) <> (i', j')).
      { intros E. apply Hd. apply in_or_app. right. left. exact E. }
      rewrite !get2_replace2_other by exact Hne.
      apply Hc2. intros Hd'. apply Hd. apply in_or_app. left; exact Hd'.
Qed.

End GridLoop.

(** ** SOM.compute *)

Lemma neuron_compute_ok n x :
  length x = length (weights n) -> NeuronM.compute n x = Ok (activated x n).
Proof.
  intros H. unfold NeuronM.compute. rewrite broadcast_same by exact H. simpl.
  rewrite norm_diff_euclidean. reflexivity.
Qed.

Lemma wf_weights s i j n :
  wf_SOM s -> Py.get2 (map s) i j = Ok n -> length (weights n) = input_dim s.
Proof.
  intros (_ & _ & Hw & _) H. apply get2_in in H. destruct H as [row [H1 H2]].
  rewrite Forall_forall in Hw. specialize (Hw row H1).
  rewrite Forall_forall in Hw. apply Hw, H2.
Qed.

Lemma compute_body_ok s0 x i j s n a :
  wf_SOM s0 -> length x = input_dim s0 ->
  Py.get2 (map s0) i j = Ok n ->
  Py.get2 (map s) i j = Ok n ->
  Py.get2 (activitymap s) i j = Ok a ->
  SOMM.compute_body x i j s =
  Ok (mkSOM (inputsize s) (gridsize s) (replace2 (map s) i j (activated x n))
        (replace2 (activitymap s) i j (euclidean_distance x (weights n)))).
Proof.
  intros Hwf Hx Hn0 Hn Ha. unfold SOMM.compute_body.
  rewrite Hn. simpl.
  rewrite neuron_compute_ok by (rewrite (wf_weights s0 i j n Hwf Hn0); exact Hx).
  simpl. rewrite (set2_replace2 _ _ _ _ _ Hn). simpl.
  rewrite (get2_replace2_same _ _ _ _ _ Hn). simpl.
  rewrite (set2_replace2 _ _ _ _ _ Ha). reflexivity.
Qed.

Lemma compute_ok s x :
  wf_SOM s -> length x = input_dim s ->
  exists s', SOMM.compute s x = Ok s' /\
    grid_loop_inv (activated x) (fun n _ => euclidean_distance x (weights n)) s
      (range_cells (fst (gridsize s)) (snd (gridsize s))) s'.
Proof.
  intros Hwf Hx. unfold SOMM.compute.
  apply grid_loop.
  - apply Hwf.
  - apply Hwf.
  - intros i j s1 n a. apply compute_body_ok; assumption.
Qed.

(** ** numpy.argmin and numpy.unravel_index *)

Lemma argmin_from_spec l : forall bi b i, (bi < i)%nat ->
  exists br,
    ((Np.argmin_from bi b i l = bi /\ br = b) \/
     ((i <= Np.argmin_from bi b i l < i + length l)%nat /\
      nth_error l (Np.argmin_from bi b i l - i) = Some br /\ br < b)) /\
    forall k a, nth_error l k = Some a ->
      br <= a /\ ((i + k < Np.argmin_from bi b i l)%nat -> br < a).
Proof.
  induction l as [|a l IH]; intros bi b i Hlt; simpl.
  - exists b. split; [left; auto|]. intros [|k] a H; discriminate H.
  - destruct (Rlt_dec a b) as [Hab|Hab].
    + destruct (IH i a (S i) (Nat.lt_succ_diag_r i)) as [br [Hr Hall]].
      set (r := Np.argmin_from i a (S i) l) in *.
      exists br. split.
      * right. destruct Hr as [[Hr1 Hr2]|[Hr1 [Hr2 Hr3]]].
        -- rewrite Hr1, Hr2. rewrite Nat.sub_diag. simpl.
           repeat split; auto; lia.
        -- split; [lia|]. split; [|lra].
           replace (r - i)%nat with (S (r - S i)) by lia. exact Hr2.
      * intros [|k] a' Hk; simpl in Hk.
        -- inversion Hk; subst a'.
           destruct Hr as [[Hr1 Hr2]|[Hr1 [Hr2 Hr3]]].
           ++ split; [lra|]. intros; lia.
           ++ split; [lra|]. intros; exact Hr3.
        -- destruct (Hall k a' Hk) as [H1 H2]. split; [exact H1|].
           intros H. apply H2. lia.
    + destruct (IH bi b (S i) (Nat.lt_lt_succ_r _ _ Hlt)) as [br [Hr Hall]].
      set (r := Np.argmin_from bi b (S i) l) in *.
      exists br. split.
      * destruct Hr as [[Hr1 Hr2]|[Hr1 [Hr2 Hr3]]].
        -- left. auto.
        -- right. split; [lia|]. split; [|exact Hr3].
           replace (r - i)%nat with (S (r - S i)) by lia. exact Hr2.
      * intros [|k] a' Hk; simpl in Hk.
        -- inversion Hk; subst a'.
           destruct Hr as [[Hr1 Hr2]|[Hr1 [Hr2 Hr3]]].
           ++ split; [lra|]. intros; lia.
           ++ split; [lra|]. intros; lra.
        -- destruct (Hall k a' Hk) as [H1 H2]. split; [exact H1|].
           intros H. apply H2. lia.
Qed.

(** The first minimum of a non-empty list. *)
Lemma argmin_first_min v l :
  exists br,
    nth_error (v :: l) (Np.argmin_from 0 v 1 l) = Some br /\
    forall k a, nth_error (v :: l) k = Some a ->
      br <= a /\ ((k < Np.argmin_from 0 v 1 l)%nat -> br < a).
Proof.
  destruct (argmin_from_spec l 0%nat v 1%nat Nat.lt_0_1) as [br [Hr Hall]].
  set (r := Np.argmin_from 0 v 1 l) in *.
  exists br. split.
  - destruct Hr as [[Hr1 Hr2]|[Hr1 [Hr2 Hr3]]].
    + rewrite Hr1, Hr2. reflexivity.
    + replace r with (S (r - 1)) by lia. exact Hr2.
  - intros [|k] a Hk; simpl in Hk.
    + inversion Hk; subst a.
      destruct Hr as [[Hr1 Hr2]|[Hr1 [Hr2 Hr3]]].
      * split; [lra|]. intros; lia.
      * split; [lra|]. intros; exact Hr3.
    + destruct (Hall k a Hk) as [H1 H2]. split; [exact H1|].
      intros H. apply H2. lia.
Qed.

Lemma length_concat_grid {A : Type} (m : list (list A)) rows cols :
  grid_shape m rows cols -> length (concat m) = (rows * cols)%nat.
Proof.
  intros [Hl Hf]. subst rows. induction m as [|row m IH]; simpl.
  - reflexivity.
  - inversion Hf; subst. rewrite length_app, IH by assumption. reflexivity.
Qed.

Lemma nth_error_concat_grid {A : Type} (m : list (list A)) rows cols i j :
  grid_shape m rows cols -> (j < cols)%nat ->
  nth_error (concat m) (i * cols + j) =
  match nth_error m i with Some row => nth_error row j | None => None end.
Proof.
  intros [Hl Hf] Hj. clear Hl. revert i.
  induction m as [|row m IH]; intros i; simpl.
  - destruct (i * cols + j)%nat; destruct i; reflexivity.
  - inversion Hf as [|? ? Hrow Hm]; subst. destruct i as [|i]; simpl.
    + rewrite nth_error_app1 by lia. reflexivity.
    + rewrite nth_error_app2 by lia.
      replace (length row + i * length row + j - length row)%nat
        with (i * length row + j)%nat by lia.
      apply IH. exact Hm.
Qed.

Lemma get2_concat_grid {A : Type} (m : list (list A)) rows cols i j a :
  grid_shape m rows cols ->
  Py.get2 m i j = Ok a -> nth_error (concat m) (i * cols + j) = Some a.
Proof.
  intros Hs H. unfold Py.get2 in H. apply bind_ok in H.
  destruct H as [row [H1 H2]].
  assert (Hj : (j < cols)%nat).
  { destruct Hs as [_ Hf]. rewrite Forall_forall in Hf.
    rewrite <- (Hf row); [eapply get_ok_lt; eauto|].
    apply get_some in H1. eapply nth_error_In; eauto. }
  rewrite (nth_error_concat_grid m rows cols i j Hs Hj).
  apply get_some in H1. rewrite H1. apply get_some. exact H2.
Qed.

Lemma row_major_index cols (p q : pos) :
  (snd p < cols)%nat -> (snd q < cols)%nat ->
  pos_lt p q -> (fst p * cols + snd p < fst q * cols + snd q)%nat.
Proof.
  intros Hp Hq [H|[H1 H2]]; [nia|]. rewrite H1. lia.
Qed.

(** The winner of [SOM.learn]: the first minimum of the activity map in
    row-major order. *)
Lemma bmu_spec s :
  grid_shape (activitymap s) (fst (gridsize s)) (snd (gridsize s)) ->
  (0 < fst (gridsize s) * snd (gridsize s))%nat ->
  exists bx by_ ab,
    SOMM.bmu s = Ok (bx, by_) /\
    (bx < fst (gridsize s))%nat /\ (by_ < snd (gridsize s))%nat /\
    Py.get2 (activitymap s) bx by_ = Ok ab /\
    forall i j a, Py.get2 (activitymap s) i j = Ok a ->
      ab <= a /\ (pos_lt (i, j) (bx, by_) -> ab < a).
Proof.
  destruct (gridsize s) as [rows cols] eqn:Eg. simpl. intros Hs Hpos.
  pose proof (length_concat_grid _ _ _ Hs) as Hlen.
  unfold SOMM.bmu, Np.argmin. rewrite Eg.
  destruct (concat (activitymap s)) as [|v l] eqn:Ec.
  { simpl in Hlen. lia. }
  destruct (argmin_first_min v l) as [br [Hr Hall]].
  set (r := Np.argmin_from 0 v 1 l) in *.
  assert (Hrlt : (r < rows * cols)%nat).
  { rewrite <- Hlen. apply nth_error_Some. congruence. }
  assert (Hc : (0 < cols)%nat) by nia.
  exists (r / cols)%nat, (r mod cols)%nat, br.
  simpl. apply Nat.ltb_lt in Hrlt. rewrite Hrlt. apply Nat.ltb_lt in Hrlt.
  assert (Hdiv : (r / cols < rows)%nat).
  { apply Nat.Div0.div_lt_upper_bound. lia. }
  assert (Hmod : (r mod cols < cols)%nat) by (apply Nat.mod_upper_bound; lia).
  split; [reflexivity|]. split; [exact Hdiv|]. split; [exact Hmod|].
  assert (Hidx : (r / cols * cols + r mod cols = r)%nat).
  { pose proof (Nat.div_mod_eq r cols). lia. }
  split.
  - destruct (grid_shape_get2 _ _ _ _ _ Hs Hdiv Hmod) as [a Ha].
    pose proof (get2_concat_grid _ _ _ _ _ _ Hs Ha) as Hn.
    rewrite Hidx, Ec in Hn. congruence.
  - intros i j a Ha.
    pose proof (get2_concat_grid _ _ _ _ _ _ Hs Ha) as Hn.
    rewrite Ec in Hn. destruct (Hall _ _ Hn) as [H1 H2].
    split; [exact H1|]. intros Hlt. apply H2.
    assert (Hj : (j < cols)%nat).
    { unfold Py.get2 in Ha. apply bind_ok in Ha. destruct Ha as [row [Hr1 Hr2]].
      destruct Hs as [_ Hf]. rewrite Forall_forall in Hf.
      rewrite <- (Hf row); [eapply get_ok_lt; eauto|].
      apply get_some in Hr1. eapply nth_error_In; eauto. }
    pose proof (row_major_index cols (i, j) (r / cols, r mod cols)%nat Hj Hmod Hlt) as Hrm.
    simpl in Hrm. lia.
Qed.

(** ** SOM.learn *)

Lemma replace_same {A : Type} (l : list A) i a :
  nth_error l i = Some a -> Py.replace l i a = l.
Proof.
  revert i; induction l as [|b l IH]; intros [|i] H; simpl in *;
    try discriminate.
  - inversion H. reflexivity.
  - rewrite IH by exact H. reflexivity.
Qed.

Lemma replace2_same {A : Type} (m : list (list A)) i j a :
  Py.get2 m i j = Ok a -> replace2 m i j a = m.
Proof.
  intros H. unfold Py.get2 in H. apply bind_ok in H. destruct H as [row [H1 H2]].
  apply get_some in H1, H2. unfold replace2. rewrite H1.
  rewrite (replace_same row j a H2). apply replace_same. exact H1.
Qed.

Lemma learn_body_ok eta sigma bx by_ x i j s n a :
  0 < sigma -> length x = length (weights n) ->
  Py.get2 (map s) i j = Ok n ->
  Py.get2 (activitymap s) i j = Ok a ->
  SOMM.learn_body eta sigma bx by_ x i j s =
  Ok (mkSOM (inputsize s) (gridsize s)
        (replace2 (map s) i j (learned eta sigma bx by_ x n))
        (replace2 (activitymap s) i j a)).
Proof.
  intros Hs Hl Hn Ha. unfold SOMM.learn_body. rewrite Hn. simpl.
  rewrite neuron_learn_ok by assumption. simpl.
  rewrite (set2_replace2 _ _ _ _ _ Hn). simpl.
  rewrite (replace2_same _ _ _ _ Ha). reflexivity.
Qed.

Lemma learn_ok s eta sigma x bx by_ :
  grid_shape (map s) (fst (gridsize s)) (snd (gridsize s)) ->
  grid_shape (activitymap s) (fst (gridsize s)) (snd (gridsize s)) ->
  (forall i j n, Py.get2 (map s) i j = Ok n -> length x = length (weights n)) ->
  0 < sigma ->
  SOMM.bmu s = Ok (bx, by_) ->
  exists s', SOMM.learn s eta sigma x = Ok s' /\
    grid_loop_inv (learned eta sigma bx by_ x) (fun _ a => a) s
      (range_cells (fst (gridsize s)) (snd (gridsize s))) s'.
Proof.
  intros Hm Ha Hw Hs Hb. unfold SOMM.learn. rewrite Hb. simpl.
  apply grid_loop; [exact Hm | exact Ha |].
  intros i j s1 n a Hn0 Hn Ha1.
  apply learn_body_ok; auto. eapply Hw; eauto.
Qed.

(** ** Euclidean distance *)

Lemma sum_sq_nonneg a b :
  0 <= fold_right Rplus 0 (Py.zip_with (fun p q => (p - q) ^ 2) a b).
Proof.
  revert b; induction a as [|x a IH]; intros [|y' b];
    cbn [Py.zip_with fold_right]; try lra.
  specialize (IH b). pose proof (pow2_ge_0 (x - y')). lra.
Qed.

Lemma sum_sq_scaled eta w x :
  length x = length w ->
  fold_right Rplus 0
    (Py.zip_with (fun p q => (p - q) ^ 2) x
       (Py.zip_with (kohonen_update eta 1) w x)) =
  (1 - eta) ^ 2 *
  fold_right Rplus 0 (Py.zip_with (fun p q => (p - q) ^ 2) x w).
Proof.
  revert w; induction x as [|a x IH]; intros [|b w] H; simpl in *;
    try discriminate; try ring.
  rewrite IH by lia. unfold kohonen_update. ring.
Qed.

Lemma euclidean_after_update eta w x :
  eta <= 1 -> length x = length w ->
  euclidean_distance x (Py.zip_with (kohonen_update eta 1) w x) =
  (1 - eta) * euclidean_distance x w.
Proof.
  intros He Hl. unfold euclidean_distance. rewrite sum_sq_scaled by exact Hl.
  rewrite sqrt_mult; [| nra | apply sum_sq_nonneg].
  replace ((1 - eta) ^ 2) with ((1 - eta) * (1 - eta)) by ring.
  rewrite sqrt_square by lra. reflexivity.
Qed.

Lemma euclidean_zero_eq x w :
  length x = length w -> euclidean_distance x w = 0 -> w = x.
Proof.
  unfold euclidean_distance. intros Hl H.
  apply sqrt_eq_0 in H; [|apply sum_sq_nonneg].
  revert w Hl H; induction x as [|a x IH]; intros [|b w] Hl H;
    cbn [Py.zip_with fold_right length] in *; try discriminate; try reflexivity.
  pose proof (sum_sq_nonneg x w) as Hn.
  pose proof (pow2_ge_0 (a - b)) as Hp.
  assert (Ha : (a - b) ^ 2 = 0) by lra.
  assert (Hr : fold_right Rplus 0 (Py.zip_with (fun p q => (p - q) ^ 2) x w) = 0)
    by lra.
  assert (Hab : a - b = 0).
  { destruct (Req_dec (a - b) 0) as [E|E]; [exact E|].
    exfalso. exact (pow_nonzero _ 2 E Ha). }
  f_equal; [lra|]. apply IH; [lia | exact Hr].
Qed.

Lemma euclidean_same x : euclidean_distance x x = 0.
Proof.
  unfold euclidean_distance.
  assert (E : fold_right Rplus 0 (Py.zip_with (fun p q => (p - q) ^ 2) x x) = 0).
  { induction x as [|a x IH]; cbn [Py.zip_with fold_right]; [reflexivity|].
    rewrite IH. ring. }
  rewrite E. apply sqrt_0.
Qed.

Lemma euclidean_nonneg x w : 0 <= euclidean_distance x w.
Proof. apply sqrt_pos. Qed.

Lemma gaussian_kernel_0 sigma : gaussian_kernel sigma 0 = 1.
Proof.
  unfold gaussian_kernel.
  replace (- 0 ^ 2 / (2 * sigma ^ 2)) with 0 by (unfold Rdiv; ring).
  apply exp_0.
Qed.

Lemma manhattan_self a b : manhattan a b a b = 0%Z.
Proof. unfold manhattan. lia. Qed.

(** ** A one-cell map whose weight already equals the input *)

Lemma one_cell_compute :
  SOMM.compute one_cell [0] =
  Ok (mkSOM [1%nat] (1%nat, 1%nat) [[mkNeuron [0] 0 0 (Py.norm [0 - 0])]]
        [[Py.norm [0 - 0]]]).
Proof. reflexivity. Qed.

Lemma one_cell_learn :
  exists q,
  SOMM.learn
    (mkSOM [1%nat] (1%nat, 1%nat) [[mkNeuron [0] 0 0 (Py.norm [0 - 0])]]
       [[Py.norm [0 - 0]]]) (1 / 2) 1 [0] =
  Ok (mkSOM [1%nat] (1%nat, 1%nat)
        [[mkNeuron [0 + 1 / 2 * exp q * (0 - 0)] 0 0 (Py.norm [0 - 0])]]
        [[Py.norm [0 - 0]]]).
Proof.
  eexists. unfold SOMM.learn. cbn -[Py.norm exp Rmult Rplus Rminus Ropp Rdiv IZR].
  unfold SOMM.learn_body, NeuronM.learn, Py.div.
  cbn -[Py.norm exp Rmult Rplus Rminus Ropp Rdiv IZR Req_dec_T].
  r_decide.
  cbn -[Py.norm exp Rmult Rplus Rminus Ropp Rdiv IZR Req_dec_T].
  reflexivity.
Qed.

Lemma one_cell_wf : wf_SOM one_cell.
Proof.
  split; [split; [reflexivity | repeat constructor]|].
  split; [split; [reflexivity | repeat constructor]|].
  split; [repeat constructor|].
  intros [|i] [|j] n H; try discriminate H.
  - inversion H; subst n. split; reflexivity.
  - destruct j; discriminate H.
  - destruct i; discriminate H.
  - destruct i; discriminate H.
Qed.

Lemma plane_row_wf : wf_SOM plane_row.
Proof.
  split; [split; [reflexivity | repeat constructor]|].
  split; [split; [reflexivity | repeat constructor]|].
  split; [repeat constructor|].
  intros [|i] [|[|j]] n H; try discriminate H.
  - inversion H; subst n. split; reflexivity.
  - inversion H; subst n. split; reflexivity.
  - destruct j; discriminate H.
  - destruct i; discriminate H.
  - destruct i; discriminate H.
  - destruct i; discriminate H.
Qed.

(** The Euclidean distance read coordinate by coordinate. *)
Lemma sum_sq_by_index x : forall w, length x = length w ->
  fold_right Rplus 0 (Py.zip_with (fun p q => (p - q) ^ 2) x w) =
  sum_over (fun k => (nth k x 0 - nth k w 0) ^ 2) (seq 0 (length x)).
Proof.
  induction x as [|a x IH]; intros [|b w] Hl; try discriminate Hl.
  - reflexivity.
  - cbn [Py.zip_with fold_right length seq]. unfold sum_over.
    cbn [fold_right nth]. f_equal.
    rewrite IH by (simpl in Hl; lia). unfold sum_over.
    rewrite <- seq_shift. generalize (seq 0 (length x)) as l.
    induction l as [|k l IHl]; cbn [List.map fold_right nth];
      [reflexivity | rewrite IHl; reflexivity].
Qed.

Lemma euclidean_by_index x w :
  length x = length w ->
  euclidean_distance x w =
  sqrt (sum_over (fun k => (nth k x 0 - nth k w 0) ^ 2) (seq 0 (length x))).
Proof.
  intros Hl. unfold euclidean_distance. rewrite sum_sq_by_index by exact Hl.
  reflexivity.
Qed.

Lemma euclidean_origin_3_4 : euclidean_distance [0; 0] [3; 4] = 5.
Proof.
  unfold euclidean_distance. cbn [Py.zip_with fold_right].
  replace ((0 - 3) ^ 2 + ((0 - 4) ^ 2 + 0)) with (5 * 5) by ring.
  apply sqrt_square. lra.
Qed.

Lemma euclidean_origin_0_1 : euclidean_distance [0; 0] [0; 1] = 1.
Proof.
  unfold euclidean_distance. cbn [Py.zip_with fold_right].
  replace ((0 - 0) ^ 2 + ((0 - 1) ^ 2 + 0)) with (1 * 1) by ring.
  apply sqrt_square. lra.
Qed.

Lemma plane_row_compute :
  SOMM.compute plane_row [0; 0] =
  Ok (mkSOM [2%nat] (1%nat, 2%nat)
        [[mkNeuron [3; 4] 0 0 (Py.norm [0 - 3; 0 - 4]);
          mkNeuron [0; 1] 0 1 (Py.norm [0 - 0; 0 - 1])]]
        [[Py.norm [0 - 3; 0 - 4]; Py.norm [0 - 0; 0 - 1]]]).
Proof. reflexivity. Qed.

Lemma norm_origin_3_4 : Py.norm [0 - 3; 0 - 4] = 5.
Proof.
  exact (eq_trans (norm_diff_euclidean [0; 0] [3; 4]) euclidean_origin_3_4).
Qed.

Lemma norm_origin_0_1 : Py.norm [0 - 0; 0 - 1] = 1.
Proof.
  exact (eq_trans (norm_diff_euclidean [0; 0] [0; 1]) euclidean_origin_0_1).
Qed.

(** * The nearest-neighbour scans *)

(** ** The loop nest over a grid *)

Lemma for_grid_from {A S : Type} (body : nat -> nat -> S -> res S) :
  forall (m' pre : list (list A)) s,
  for_each (seq (length pre) (length m'))
    (fun i s1 =>
       row <- Py.get (pre ++ m') i ;;
       for_each (Py.range (length row)) (fun j s2 => body i j s2) s1) s =
  for_each (grid_cells_from (length pre) m') (fun p => body (fst p) (snd p)) s.
Proof.
  induction m' as [|row m' IH]; intros pre s; simpl.
  - reflexivity.
  - unfold Py.get at 1. rewrite nth_error_app2 by lia.
    rewrite Nat.sub_diag. simpl.
    rewrite for_each_app, for_each_map. simpl.
    destruct (for_each (Py.range (length row)) _ s) as [s1|e]; simpl;
      [|reflexivity].
    specialize (IH (pre ++ [row]) s1).
    rewrite length_app in IH. simpl in IH. rewrite Nat.add_1_r in IH.
    rewrite <- IH. apply for_each_ext. intros i s' _.
    rewrite <- app_assoc. reflexivity.
Qed.

Lemma for_grid_cells {A S : Type} (m : list (list A))
  (body : nat -> nat -> S -> res S) s :
  for_grid m body s =
  for_each (grid_cells m) (fun p => body (fst p) (snd p)) s.
Proof. exact (for_grid_from body m [] s). Qed.

Lemma in_grid_cells_from {A : Type} (m : list (list A)) : forall k i j,
  In (i, j) (grid_cells_from k m) <->
  (k <= i)%nat /\ exists row, nth_error m (i - k) = Some row /\ (j < length row)%nat.
Proof.
  induction m as [|row m IH]; intros k i j; simpl.
  - split; [intros [] | intros [_ [r [H _]]]]. destruct (i - k)%nat; discriminate.
  - rewrite in_app_iff, IH, in_map_iff. unfold Py.range. split.
    + intros [[j' [E Hin]] | [Hle [r [Hr Hj]]]].
      * inversion E; subst. apply in_seq in Hin. split; [lia|].
        exists row. rewrite Nat.sub_diag. simpl. split; [reflexivity | lia].
      * split; [lia|]. exists r. replace (i - k)%nat with (S (i - S k)) by lia.
        simpl. auto.
    + intros [Hle [r [Hr Hj]]]. destruct (i - k)%nat as [|d] eqn:E; simpl in Hr.
      * left. inversion Hr; subst r. exists j. split.
        -- f_equal. lia.
        -- apply in_seq. lia.
      * right. split; [lia|]. exists r. replace (i - S k)%nat with d by lia. auto.
Qed.

Lemma in_grid_cells {A : Type} (m : list (list A)) i j :
  In (i, j) (grid_cells m) <-> exists a, Py.get2 m i j = Ok a.
Proof.
  unfold grid_cells. rewrite in_grid_cells_from. rewrite Nat.sub_0_r. split.
  - intros [_ [row [Hr Hj]]]. destruct (get_lt row j Hj) as [a Ha].
    exists a. unfold Py.get2. apply get_some in Hr. rewrite Hr. exact Ha.
  - intros [a H]. split; [lia|]. unfold Py.get2 in H. apply bind_ok in H.
    destruct H as [row [Hr Hj]]. exists row. split.
    + apply get_some. exact Hr.
    + eapply get_ok_lt; eauto.
Qed.

Lemma length_grid_cells_from {A : Type} (m : list (list A)) k :
  length (grid_cells_from k m) = length (concat m).
Proof.
  revert k; induction m as [|row m IH]; intros k; simpl.
  - reflexivity.
  - rewrite !length_app, length_map, IH. unfold Py.range. rewrite length_seq.
    reflexivity.
Qed.

Lemma pos_lt_trans p q r : pos_lt p q -> pos_lt q r -> pos_lt p r.
Proof. unfold pos_lt. intros [H|[H1 H2]] [H'|[H1' H2']]; lia. Qed.

Lemma pos_lt_irrefl p : ~ pos_lt p p.
Proof. unfold pos_lt. lia. Qed.

Lemma sorted_grid_cells_from {A : Type} (m : list (list A)) k :
  StronglySorted pos_lt (grid_cells_from k m).
Proof.
  revert k; induction m as [|row m IH]; intros k; simpl.
  - constructor.
  - assert (G : forall a n, StronglySorted pos_lt
                (List.map (fun j => (k, j)) (seq a n) ++ grid_cells_from (S k) m)).
    { intros a n. revert a. induction n as [|n IHn]; intros a; simpl.
      - apply IH.
      - constructor; [apply IHn|]. apply Forall_forall. intros [i j] Hin.
        apply in_app_or in Hin. destruct Hin as [Hin|Hin].
        + apply in_map_iff in Hin. destruct Hin as [j' [E Hj]].
          inversion E; subst. apply in_seq in Hj. right. simpl. lia.
        + apply in_grid_cells_from in Hin. left. simpl. lia. }
    apply G.
Qed.

Lemma sorted_app_before {X : Type} (Rel : X -> X -> Prop) l1 x l2 :
  StronglySorted Rel (l1 ++ x :: l2) -> Forall (fun a => Rel a x) l1.
Proof.
  induction l1 as [|a l1 IH]; simpl; intros H.
  - constructor.
  - inversion H as [|? ? Hs Hf]; subst. constructor.
    + rewrite Forall_forall in Hf. apply Hf. apply in_or_app. right. left. reflexivity.
    + apply IH, Hs.
Qed.

(** ** Sorting the running list *)

Lemma prec_trans e1 e2 e3 : prec e1 e2 -> prec e2 e3 -> prec e1 e3.
Proof.
  unfold prec. intros [H|[H1 H2]] [H'|[H1' H2']].
  - left; lra.
  - left; lra.
  - left; lra.
  - right. split; [lra|]. eapply pos_lt_trans; eauto.
Qed.

Lemma prec_le e c : prec e c -> snd e <= snd c.
Proof. unfold prec. intros [H|[H _]]; lra. Qed.

Lemma prec_irrefl e : ~ prec e e.
Proof. unfold prec. intros [H|[_ H]]; [lra | exact (pos_lt_irrefl _ H)]. Qed.

Lemma insert_entry_perm e l : Permutation (insert_entry e l) (e :: l).
Proof.
  induction l as [|e' l IH]; simpl.
  - apply Permutation_refl.
  - destruct (Rle_dec (snd e) (snd e')).
    + apply Permutation_refl.
    + eapply Permutation_trans; [apply perm_skip, IH | apply perm_swap].
Qed.

Lemma insert_entry_sorted e l :
  StronglySorted prec l ->
  (forall t, In t l -> snd e <= snd t -> prec e t) ->
  StronglySorted prec (insert_entry e l).
Proof.
  induction l as [|e' l IH]; simpl; intros Hs Hc.
  - repeat constructor.
  - inversion Hs as [|? ? Hs' Hf]; subst.
    destruct (Rle_dec (snd e) (snd e')) as [Hle|Hgt].
    + constructor; [exact Hs|]. constructor.
      * apply Hc; [left; reflexivity | exact Hle].
      * rewrite Forall_forall in *. intros t Ht. apply Hc; [right; exact Ht|].
        pose proof (prec_le _ _ (Hf t Ht)). lra.
    + constructor.
      * apply IH; [exact Hs'|]. intros t Ht. apply Hc. right; exact Ht.
      * rewrite Forall_forall in *. intros t Ht.
        apply (Permutation_in _ (insert_entry_perm e l)) in Ht.
        destruct Ht as [Ht|Ht]; [subst t; left; lra | apply Hf, Ht].
Qed.

Lemma sort_entries_snoc l c :
  sort_entries (l ++ [c]) = fold_right insert_entry [c] l.
Proof. unfold sort_entries. rewrite fold_right_app. reflexivity. Qed.

Lemma sort_snoc_perm l c : Permutation (sort_entries (l ++ [c])) (c :: l).
Proof.
  rewrite sort_entries_snoc. induction l as [|e l IH]; simpl.
  - apply Permutation_refl.
  - eapply Permutation_trans; [apply insert_entry_perm|].
    eapply Permutation_trans; [apply perm_skip, IH | apply perm_swap].
Qed.

Lemma sort_snoc_sorted l c :
  StronglySorted prec l ->
  (forall e, In e l -> pos_lt (fst e) (fst c)) ->
  StronglySorted prec (sort_entries (l ++ [c])).
Proof.
  rewrite sort_entries_snoc. induction l as [|e l IH]; simpl; intros Hs Hp.
  - repeat constructor.
  - inversion Hs as [|? ? Hs' Hf]; subst.
    apply insert_entry_sorted.
    + apply IH; [exact Hs'|]. intros t Ht. apply Hp. right; exact Ht.
    + intros t Ht Hle.
      assert (Hin : In t (c :: l)).
      { eapply Permutation_in; [|exact Ht].
        rewrite <- sort_entries_snoc. apply sort_snoc_perm. }
      destruct Hin as [E|Hin].
      * subst t. destruct (Rlt_dec (snd e) (snd c)) as [H|H].
        -- left; exact H.
        -- right. split; [lra|]. apply Hp. left; reflexivity.
      * rewrite Forall_forall in Hf. apply Hf, Hin.
Qed.

(** ** Replacing the last element *)

Lemma norm_index_last len k :
  (1 <= k)%Z -> Z.of_nat len = k ->
  Py.norm_index len (k - 1) = Ok (len - 1)%nat.
Proof.
  intros Hk Hl. unfold Py.norm_index.
  destruct (k - 1 <? 0)%Z eqn:E1; [apply Z.ltb_lt in E1; lia|].
  destruct (0 <=? k - 1)%Z eqn:E2; [|apply Z.leb_gt in E2; lia].
  destruct (k - 1 <? Z.of_nat len)%Z eqn:E3; [|apply Z.ltb_ge in E3; lia].
  simpl. f_equal. lia.
Qed.

Lemma get_last {A : Type} (l : list A) (w : A) :
  Py.get (l ++ [w]) (length (l ++ [w]) - 1) = Ok w.
Proof.
  rewrite length_app. simpl. replace (length l + 1 - 1)%nat with (length l) by lia.
  unfold Py.get. rewrite nth_error_app2 by lia. rewrite Nat.sub_diag. reflexivity.
Qed.

Lemma set_last {A : Type} (l : list A) (w c : A) :
  Py.set (l ++ [w]) (length (l ++ [w]) - 1) c = Ok (l ++ [c]).
Proof.
  rewrite set_ok by (rewrite length_app; simpl; lia). f_equal.
  rewrite length_app. simpl. replace (length l + 1 - 1)%nat with (length l) by lia.
  induction l as [|a l IH]; simpl; [reflexivity|]. rewrite IH. reflexivity.
Qed.

(** ** The invariant of the k-nearest scan *)

Lemma motor_dist_ok n q :
  (2 <= length (weights n))%nat -> exists d, SOMM.motor_dist n q = Ok d.
Proof.
  intros H. unfold SOMM.motor_dist.
  destruct (get_lt (weights n) 0) as [w0 H0]; [lia|].
  destruct (get_lt (weights n) 1) as [w1 H1]; [lia|].
  rewrite H0, H1. simpl. eexists; reflexivity.
Qed.

Lemma dist_at_ok m q i j n :
  has_motor_coords m -> Py.get2 m i j = Ok n ->
  SOMM.motor_dist n q = Ok (dist_at m q (i, j)).
Proof.
  intros Hm Hn. unfold dist_at. simpl. rewrite Hn. simpl.
  destruct (get2_in _ _ _ _ Hn) as [row [H1 H2]].
  unfold has_motor_coords in Hm. rewrite Forall_forall in Hm.
  specialize (Hm row H1). rewrite Forall_forall in Hm.
  destruct (motor_dist_ok n q (Hm n H2)) as [d Hd]. rewrite Hd. reflexivity.
Qed.

Section Knn.

Variables (m : list (list Neuron)) (q : point) (k : Z).
Hypothesis k_pos : (1 <= k)%Z.
Hypothesis coords : has_motor_coords m.

Lemma knn_body_inv done p rest cv :
  grid_cells m = done ++ p :: rest ->
  knn_inv m q k done cv ->
  exists cv', SOMM.knn_body m q k (fst p) (snd p) cv = Ok cv' /\
    knn_inv m q k (done ++ [p]) cv'.
Proof.
  intros Hxs (Hlen & Hsort & Hsrc & Hall & Hout).
  destruct p as [i j]. simpl.
  assert (Hin : In (i, j) (grid_cells m)).
  { rewrite Hxs. apply in_or_app. right. left. reflexivity. }
  apply in_grid_cells in Hin. destruct Hin as [n Hn].
  pose proof (dist_at_ok m q i j n coords Hn) as Hd.
  set (d := dist_at m q (i, j)) in *.
  assert (Hbefore : forall e, In e cv -> pos_lt (fst e) (i, j)).
  { intros e He. destruct (Hsrc e He) as [He1 _].
    pose proof (sorted_grid_cells_from m 0) as Hs. fold (grid_cells m) in Hs.
    rewrite Hxs in Hs. apply sorted_app_before in Hs.
    rewrite Forall_forall in Hs. apply Hs, He1. }
  unfold SOMM.knn_body. rewrite Hn. simpl. rewrite Hd. simpl.
  destruct (Z.of_nat (length cv) <? k)%Z eqn:Elt.
  - (* the list is not full: append and sort *)
    apply Z.ltb_lt in Elt. eexists. split; [reflexivity|].
    pose proof (sort_snoc_perm cv ((i, j), d)) as Hperm.
    assert (Hlt : (length cv < Z.to_nat k)%nat) by lia.
    split; [|split; [|split; [|split]]].
    + pose proof (Permutation_length Hperm) as Hpl. simpl in Hpl.
      rewrite length_app. simpl. unfold entry, pos in *. lia.
    + apply sort_snoc_sorted; assumption.
    + intros e He. apply (Permutation_in _ Hperm) in He.
      destruct He as [E|He].
      * subst e. simpl. split; [apply in_or_app; right; left; reflexivity | reflexivity].
      * destruct (Hsrc e He) as [H1 H2]. split; [apply in_or_app; left; exact H1 | exact H2].
    + intros _ p Hp. apply (Permutation_in _ (Permutation_sym Hperm)).
      apply in_app_or in Hp. destruct Hp as [Hp|[Hp|[]]].
      * right. apply Hall; assumption.
      * subst p. left. reflexivity.
    + intros p Hp. left. apply (Permutation_in _ (Permutation_sym Hperm)).
      apply in_app_or in Hp. destruct Hp as [Hp|[Hp|[]]].
      * right. apply Hall; assumption.
      * subst p. left. reflexivity.
  - (* the list is full: compare with its last element *)
    apply Z.ltb_ge in Elt.
    assert (Hfull : Z.of_nat (length cv) = k) by lia.
    assert (Hne : cv <> []).
    { intros E. rewrite E in Hfull. simpl in Hfull. lia. }
    destruct (exists_last Hne) as [cv0 [w Hcv]].
    unfold Py.getZ. rewrite (norm_index_last _ _ k_pos Hfull). simpl.
    assert (Hg : Py.get cv (length cv - 1) = Ok w)
      by (rewrite Hcv; apply get_last).
    rewrite Hg. simpl.
    assert (Hw : forall e, In e cv -> snd e <= snd w).
    { intros e He. rewrite Hcv in He, Hsort. apply in_app_or in He.
      destruct He as [He|[He|[]]]; [|subst e; lra].
      apply sorted_app_before in Hsort. rewrite Forall_forall in Hsort.
      apply prec_le, Hsort, He. }
    destruct (Rlt_dec d (snd w)) as [Hlt|Hge].
    + (* strictly closer than the worst: replace it and sort *)
      unfold Py.setZ. rewrite (norm_index_last _ _ k_pos Hfull). simpl.
      assert (Hst : Py.set cv (length cv - 1) ((i, j), d) = Ok (cv0 ++ [((i, j), d)]))
        by (rewrite Hcv; apply set_last).
      rewrite Hst. simpl.
      eexists. split; [reflexivity|].
      pose proof (sort_snoc_perm cv0 ((i, j), d)) as Hperm.
      assert (Hs0 : StronglySorted prec cv0).
      { rewrite Hcv in Hsort. clear -Hsort.
        induction cv0 as [|a l IH]; simpl in *; [constructor|].
        inversion Hsort as [|? ? Hs Hf]; subst. constructor; [apply IH, Hs|].
        rewrite Forall_forall in *. intros x Hx. apply Hf.
        apply in_or_app. left; exact Hx. }
      assert (Hin0 : forall e, In e cv0 -> In e cv).
      { intros e He. rewrite Hcv. apply in_or_app. left; exact He. }
      assert (Hw0 : forall e, In e cv0 -> prec e w).
      { intros e He. rewrite Hcv in Hsort. apply sorted_app_before in Hsort.
        rewrite Forall_forall in Hsort. apply Hsort, He. }
      split; [|split; [|split; [|split]]].
      * pose proof (Permutation_length Hperm) as Hpl. simpl in Hpl.
        rewrite length_app. simpl. rewrite Hcv in Hlen.
        rewrite length_app in Hlen. simpl in Hlen.
        rewrite Hcv, length_app in Hfull. simpl in Hfull.
        unfold entry, pos in *. lia.
      * apply sort_snoc_sorted; [exact Hs0|]. intros e He. apply Hbefore, Hin0, He.
      * intros e He. apply (Permutation_in _ Hperm) in He.
        destruct He as [E|He].
        -- subst e. simpl. split; [apply in_or_app; right; left; reflexivity | reflexivity].
        -- destruct (Hsrc e (Hin0 e He)) as [H1 H2].
           split; [apply in_or_app; left; exact H1 | exact H2].
      * intros Hshort. exfalso.
        pose proof (Permutation_length Hperm) as Hpl. simpl in Hpl.
        rewrite Hcv, length_app in Hfull. simpl in Hfull.
        unfold entry, pos in *. lia.
      * intros p Hp.
        assert (Hc : forall e, In e (sort_entries (cv0 ++ [((i, j), d)])) ->
                     prec e w).
        { intros e He. apply (Permutation_in _ Hperm) in He.
          destruct He as [E|He]; [subst e; left; exact Hlt | apply Hw0, He]. }
        apply in_app_or in Hp. destruct Hp as [Hp|[Hp|[]]].
        -- destruct (Hout p Hp) as [Hk|Hk].
           ++ rewrite Hcv in Hk. apply in_app_or in Hk.
              destruct Hk as [Hk|[Hk|[]]].
              ** left. apply (Permutation_in _ (Permutation_sym Hperm)).
                 right; exact Hk.
              ** right. rewrite <- Hk. exact Hc.
           ++ right. intros e He. apply (Permutation_in _ Hperm) in He.
              destruct He as [E|He].
              ** subst e. apply prec_trans with w; [left; exact Hlt|].
                 apply Hk. rewrite Hcv. apply in_or_app. right; left; reflexivity.
              ** apply Hk, Hin0, He.
        -- subst p. left. apply (Permutation_in _ (Permutation_sym Hperm)).
           left; reflexivity.
    + (* not strictly closer: the list is kept *)
      eexists. split; [reflexivity|].
      split; [|split; [|split; [|split]]].
      * rewrite length_app. simpl. lia.
      * exact Hsort.
      * intros e He. destruct (Hsrc e He) as [H1 H2].
        split; [apply in_or_app; left; exact H1 | exact H2].
      * intros Hshort. exfalso. lia.
      * intros p Hp. apply in_app_or in Hp. destruct Hp as [Hp|[Hp|[]]].
        -- apply Hout, Hp.
        -- subst p. right. intros e He. fold d.
           destruct (Rlt_dec (snd e) d) as [H|H]; [left; exact H|].
           right. simpl. split; [pose proof (Hw e He); lra | apply Hbefore, He].
Qed.

Lemma knn_scan_inv :
  exists cv, SOMM.knn_scan m q k = Ok cv /\ knn_inv m q k (grid_cells m) cv.
Proof.
  unfold SOMM.knn_scan. rewrite for_grid_cells.
  apply for_each_inv.
  - split; [simpl; lia|]. split; [constructor|].
    split; [intros e []|]. split; [intros _ p []|]. intros p [].
  - intros done p rest cv Hxs Hinv. apply (knn_body_inv done p rest); assumption.
Qed.

End Knn.

(** * Properties of training *)

(** C1.  With [sigma > 0] and an input of the neuron's dimensionality,
    [Neuron.learn] succeeds, keeps the grid position, and replaces every
    weight [w] by [w + eta * exp(-(|px-bx| + |py-by|)^2 / (2*sigma^2)) * (x - w)]:
    the Gaussian kernel is taken over the squared Manhattan distance between
    the neuron's grid position and the winner's, and does not depend on the
    weights. *)
Theorem learn_gaussian_manhattan_update (n : Neuron) (eta sigma : R)
  (bx by_ : Z) (x : list R) :
  0 < sigma -> length x = length (weights n) ->
  exists n',
    NeuronM.learn n eta sigma bx by_ x = Ok n' /\
    posx n' = posx n /\ posy n' = posy n /\
    length (weights n') = length (weights n) /\
    forall i w xi,
      nth_error (weights n) i = Some w -> nth_error x i = Some xi ->
      nth_error (weights n') i =
      Some (w + eta *
                exp (- (IZR (Z.abs (posx n - bx) + Z.abs (posy n - by_))) ^ 2
                     / (2 * sigma ^ 2)) *
                (xi - w)).
Proof.
  intros Hs Hl. eexists. split; [apply neuron_learn_ok; assumption|].
  cbn [weights posx posy]. split; [reflexivity|]. split; [reflexivity|].
  split; [apply zip_with_length; symmetry; exact Hl|].
  intros i w xi Hw Hx.
  rewrite (nth_error_zip_with _ _ _ _ _ _ Hw Hx). reflexivity.
Qed.

Lemma learn_gaussian_manhattan_update_example :
  0 < 1 /\ length [1; 3] = length (weights (mkNeuron [0; 1] 2 5 0)) /\
  exists n',
    NeuronM.learn (mkNeuron [0; 1] 2 5 0) (1 / 2) 1 4 4 [1; 3] = Ok n' /\
    posx n' = 2%Z /\ posy n' = 5%Z /\
    length (weights n') = 2%nat /\
    forall i w xi,
      nth_error [0; 1] i = Some w -> nth_error [1; 3] i = Some xi ->
      nth_error (weights n') i =
      Some (w + 1 / 2 * exp (- (IZR (Z.abs (2 - 4) + Z.abs (5 - 4))) ^ 2
                               / (2 * 1 ^ 2)) * (xi - w)).
Proof.
  split; [lra|]. split; [reflexivity|].
  apply (learn_gaussian_manhattan_update (mkNeuron [0; 1] 2 5 0) (1 / 2) 1 4 4
           [1; 3]); [lra | reflexivity].
Defined.

(** C2.  On a well-formed map and an input of the declared dimensionality,
    [SOM.compute] succeeds, and afterwards the entry of the activity map at
    every position is the Euclidean distance between the input and the
    weights of the neuron at that position, that is the square root of the
    sum over the coordinates [k] of [(x[k] - w[k])^2]; the same value is the
    neuron's [y], and its weights are untouched. *)
Theorem compute_activity_is_euclidean (s : SOM) (x : list R) :
  wf_SOM s -> length x = input_dim s ->
  exists s',
    SOMM.compute s x = Ok s' /\
    forall r c, (r < fst (gridsize s))%nat -> (c < snd (gridsize s))%nat ->
      exists n n',
        Py.get2 (map s) r c = Ok n /\
        Py.get2 (activitymap s') r c = Ok (euclidean_distance x (weights n)) /\
        Py.get2 (map s') r c = Ok n' /\
        weights n' = weights n /\
        y n' = euclidean_distance x (weights n) /\
        euclidean_distance x (weights n) =
          sqrt (sum_over (fun k => (nth k x 0 - nth k (weights n) 0) ^ 2)
                  (seq 0 (input_dim s))).
Proof.
  intros Hwf Hx. destruct (compute_ok s x Hwf Hx) as [s' [Hc Hinv]].
  exists s'. split; [exact Hc|]. intros r c Hr Hcl.
  destruct Hinv as (_ & _ & _ & _ & Hcells).
  pose proof Hwf as (Hm & Ha & _).
  destruct (grid_shape_get2 _ _ _ r c Hm Hr Hcl) as [n Hn].
  destruct (grid_shape_get2 _ _ _ r c Ha Hr Hcl) as [a Ha0].
  destruct (Hcells r c n a Hn Ha0) as [Hdone _].
  destruct Hdone as [H1 H2].
  { apply in_range_cells. simpl. split; assumption. }
  exists n, (activated x n).
  split; [exact Hn|]. split; [exact H2|]. split; [exact H1|].
  split; [reflexivity|]. split; [reflexivity|].
  rewrite <- Hx. apply euclidean_by_index.
  rewrite (wf_weights s r c n Hwf Hn). exact Hx.
Qed.

Lemma compute_activity_is_euclidean_example :
  wf_SOM plane_row /\ length [0; 0] = input_dim plane_row /\
  exists s' n0 n1,
    SOMM.compute plane_row [0; 0] = Ok s' /\
    Py.get2 (activitymap s') 0 0 = Ok 5 /\
    Py.get2 (activitymap s') 0 1 = Ok 1 /\
    Py.get2 (map s') 0 0 = Ok n0 /\ weights n0 = [3; 4] /\ y n0 = 5 /\
    Py.get2 (map s') 0 1 = Ok n1 /\ weights n1 = [0; 1] /\ y n1 = 1.
Proof.
  split; [exact plane_row_wf|]. split; [reflexivity|].
  destruct (compute_activity_is_euclidean plane_row [0; 0] plane_row_wf eq_refl)
    as [s' [Hc Hcells]].
  destruct (Hcells 0%nat 0%nat Nat.lt_0_1 Nat.lt_0_2)
    as (m0 & n0 & Hm0 & Ha0 & Hn0 & Hw0 & Hy0 & _).
  destruct (Hcells 0%nat 1%nat Nat.lt_0_1 Nat.lt_1_2)
    as (m1 & n1 & Hm1 & Ha1 & Hn1 & Hw1 & Hy1 & _).
  injection Hm0 as <-. injection Hm1 as <-.
  cbn [weights] in Ha0, Hw0, Hy0, Ha1, Hw1, Hy1.
  rewrite euclidean_origin_3_4 in Ha0, Hy0.
  rewrite euclidean_origin_0_1 in Ha1, Hy1.
  exists s', n0, n1.
  split; [exact Hc|]. split; [exact Ha0|]. split; [exact Ha1|].
  split; [exact Hn0|]. split; [exact Hw0|]. split; [exact Hy0|].
  split; [exact Hn1|]. split; [exact Hw1|]. exact Hy1.
Defined.

Lemma grid_shape_get2_lt {A : Type} (m : list (list A)) rows cols i j a :
  grid_shape m rows cols -> Py.get2 m i j = Ok a ->
  (i < rows)%nat /\ (j < cols)%nat.
Proof.
  intros [Hl Hf] H. unfold Py.get2 in H. apply bind_ok in H.
  destruct H as [row [H1 H2]]. split.
  - rewrite <- Hl. eapply get_ok_lt; eauto.
  - rewrite Forall_forall in Hf. rewrite <- (Hf row).
    + eapply get_ok_lt; eauto.
    + apply get_some in H1. eapply nth_error_In; eauto.
Qed.

(** One training step, cell by cell: [compute] followed by [learn]. *)
Lemma train_step_cells s x eta sigma :
  wf_SOM s -> length x = input_dim s -> 0 < sigma ->
  (0 < fst (gridsize s) * snd (gridsize s))%nat ->
  exists s1 s2 bx by_ ab,
    SOMM.compute s x = Ok s1 /\
    SOMM.bmu s1 = Ok (bx, by_) /\
    SOMM.learn s1 eta sigma x = Ok s2 /\
    Py.get2 (activitymap s1) bx by_ = Ok ab /\
    (bx < fst (gridsize s))%nat /\ (by_ < snd (gridsize s))%nat /\
    (forall i j a, Py.get2 (activitymap s1) i j = Ok a ->
       ab <= a /\ (pos_lt (i, j) (bx, by_) -> ab < a)) /\
    (forall i j n1, Py.get2 (map s1) i j = Ok n1 ->
       exists n, Py.get2 (map s) i j = Ok n) /\
    forall i j n, Py.get2 (map s) i j = Ok n ->
      Py.get2 (map s1) i j = Ok (activated x n) /\
      Py.get2 (activitymap s1) i j = Ok (euclidean_distance x (weights n)) /\
      Py.get2 (map s2) i j = Ok (learned eta sigma bx by_ x (activated x n)).
Proof.
  intros Hwf Hx Hs Hpos.
  destruct (compute_ok s x Hwf Hx) as [s1 [Hc (Hi1 & Hg1 & Hm1 & Ha1 & Hc1)]].
  pose proof Hwf as (Hm & Ha & _).
  assert (Hcell : forall i j n, Py.get2 (map s) i j = Ok n ->
            Py.get2 (map s1) i j = Ok (activated x n) /\
            Py.get2 (activitymap s1) i j = Ok (euclidean_distance x (weights n))).
  { intros i j n Hn.
    destruct (grid_shape_get2_lt _ _ _ _ _ _ Hm Hn) as [Hlt1 Hlt2].
    destruct (grid_shape_get2 _ _ _ i j Ha Hlt1 Hlt2) as [a Ha0].
    apply (Hc1 i j n a Hn Ha0). apply in_range_cells. simpl. auto. }
  assert (Hback : forall i j n1, Py.get2 (map s1) i j = Ok n1 ->
            exists n, Py.get2 (map s) i j = Ok n /\ n1 = activated x n).
  { intros i j n1 Hn1.
    destruct (grid_shape_get2_lt _ _ _ _ _ _ Hm1 Hn1) as [Hlt1 Hlt2].
    destruct (grid_shape_get2 _ _ _ i j Hm Hlt1 Hlt2) as [n Hn].
    exists n. split; [exact Hn|]. destruct (Hcell i j n Hn) as [H1 _]. congruence. }
  rewrite <- Hg1 in Hm1, Ha1, Hpos.
  destruct (bmu_spec s1 Ha1 Hpos) as (bx & by_ & ab & Hb & Hbx & Hby & Hab & Hmin).
  destruct (learn_ok s1 eta sigma x bx by_ Hm1 Ha1) as [s2 [Hl (_ & _ & _ & _ & Hc2)]];
    [| exact Hs | exact Hb |].
  { intros i j n1 Hn1. destruct (Hback i j n1 Hn1) as [n [Hn E]]. subst n1.
    simpl. rewrite (wf_weights s i j n Hwf Hn). exact Hx. }
  exists s1, s2, bx, by_, ab.
  split; [exact Hc|]. split; [exact Hb|]. split; [exact Hl|].
  split; [exact Hab|].
  split; [rewrite <- Hg1; exact Hbx|]. split; [rewrite <- Hg1; exact Hby|].
  split; [exact Hmin|].
  split; [intros i j n1 Hn1; destruct (Hback i j n1 Hn1) as [n [Hn _]];
          exists n; exact Hn|].
  intros i j n Hn. destruct (Hcell i j n Hn) as [H1 H2].
  split; [exact H1|]. split; [exact H2|].
  destruct (grid_shape_get2_lt _ _ _ _ _ _ Hm1 H1) as [Hlt1 Hlt2].
  apply (Hc2 i j _ _ H1 H2). apply in_range_cells. simpl. auto.
Qed.

(** C3 (as amended).  One training step ([SOM.compute] then [SOM.learn]) on a
    well-formed, non-empty map with [0 < eta <= 1] and [sigma > 0] succeeds;
    it keeps the grid position of every neuron; the winner is the neuron of
    minimum activation, the first one in row-major order among equals; and
    the winner's distance to the input is multiplied by [1 - eta], so that
    it is strictly smaller than before whenever the winner's weights were
    not already equal to the input. *)
Theorem train_step_winner_moves_closer (s : SOM) (x : list R) (eta sigma : R) :
  wf_SOM s -> length x = input_dim s ->
  0 < eta <= 1 -> 0 < sigma ->
  (0 < fst (gridsize s) * snd (gridsize s))%nat ->
  exists s1 s2 bx by_,
    SOMM.compute s x = Ok s1 /\
    SOMM.bmu s1 = Ok (bx, by_) /\
    SOMM.learn s1 eta sigma x = Ok s2 /\
    (forall i j n, Py.get2 (map s) i j = Ok n ->
       exists n2, Py.get2 (map s2) i j = Ok n2 /\
         posx n2 = posx n /\ posy n2 = posy n) /\
    (exists nb, Py.get2 (map s1) bx by_ = Ok nb /\
       forall i j n, Py.get2 (map s1) i j = Ok n ->
         y nb <= y n /\ (pos_lt (i, j) (bx, by_) -> y nb < y n)) /\
    (exists nb nb2,
       Py.get2 (map s) bx by_ = Ok nb /\
       Py.get2 (map s2) bx by_ = Ok nb2 /\
       euclidean_distance x (weights nb2) =
         (1 - eta) * euclidean_distance x (weights nb) /\
       (weights nb <> x ->
        euclidean_distance x (weights nb2) < euclidean_distance x (weights nb))).
Proof.
  intros Hwf Hx [He0 He1] Hs Hpos.
  destruct (train_step_cells s x eta sigma Hwf Hx Hs Hpos)
    as (s1 & s2 & bx & by_ & ab & Hc & Hb & Hl & Hab & Hbx & Hby & Hmin & Hback & Hcell).
  exists s1, s2, bx, by_.
  split; [exact Hc|]. split; [exact Hb|]. split; [exact Hl|].
  pose proof Hwf as (Hm & Ha & _ & Hposn).
  assert (Hwin : exists nb, Py.get2 (map s) bx by_ = Ok nb)
    by (apply (grid_shape_get2 _ _ _ _ _ Hm Hbx Hby)).
  destruct Hwin as [nb Hnb].
  destruct (Hcell bx by_ nb Hnb) as (Hnb1 & Hab1 & Hnb2).
  split; [|split].
  - intros i j n Hn. destruct (Hcell i j n Hn) as (_ & _ & H2).
    eexists. split; [exact H2|]. split; reflexivity.
  - exists (activated x nb). split; [exact Hnb1|].
    intros i j n1 Hn1.
    destruct (Hback i j n1 Hn1) as [n Hn]. destruct (Hcell i j n Hn) as (H1 & H2 & _).
    rewrite Hn1 in H1. inversion H1; subst n1. simpl.
    assert (E : ab = euclidean_distance x (weights nb)) by congruence.
    rewrite <- E. apply (Hmin i j _ H2).
  - exists nb. eexists. split; [exact Hnb|]. split; [exact Hnb2|].
    destruct (Hposn bx by_ nb Hnb) as [Hpx Hpy].
    assert (Hlen : length x = length (weights nb))
      by (rewrite (wf_weights s bx by_ nb Hwf Hnb); exact Hx).
    assert (E : euclidean_distance x
                  (weights (learned eta sigma bx by_ x (activated x nb))) =
                (1 - eta) * euclidean_distance x (weights nb)).
    { simpl. rewrite Hpx, Hpy, manhattan_self, gaussian_kernel_0.
      apply euclidean_after_update; assumption. }
    split; [exact E|]. intros Hne. rewrite E.
    assert (Hd : 0 < euclidean_distance x (weights nb)).
    { destruct (euclidean_nonneg x (weights nb)) as [H|H]; [exact H|].
      exfalso. apply Hne. apply euclidean_zero_eq; [exact Hlen | symmetry; exact H]. }
    nra.
Qed.

Lemma train_step_winner_moves_closer_example :
  wf_SOM plane_row /\ length [0; 0] = input_dim plane_row /\
  0 < 1 / 2 <= 1 /\ 0 < 1 /\
  (0 < fst (gridsize plane_row) * snd (gridsize plane_row))%nat /\
  exists s1 s2 nb nb2,
    SOMM.compute plane_row [0; 0] = Ok s1 /\
    SOMM.bmu s1 = Ok (0%nat, 1%nat) /\
    SOMM.learn s1 (1 / 2) 1 [0; 0] = Ok s2 /\
    Py.get2 (map plane_row) 0 1 = Ok nb /\
    weights nb <> [0; 0] /\
    euclidean_distance [0; 0] (weights nb) = 1 /\
    Py.get2 (map s2) 0 1 = Ok nb2 /\
    euclidean_distance [0; 0] (weights nb2) = 1 / 2 /\
    euclidean_distance [0; 0] (weights nb2) <
      euclidean_distance [0; 0] (weights nb).
Proof.
  assert (He : 0 < 1 / 2 <= 1) by lra.
  assert (Hs : 0 < 1) by lra.
  assert (Hp : (0 < fst (gridsize plane_row) * snd (gridsize plane_row))%nat)
    by (simpl; lia).
  split; [exact plane_row_wf|]. split; [reflexivity|].
  split; [exact He|]. split; [exact Hs|]. split; [exact Hp|].
  destruct (train_step_winner_moves_closer plane_row [0; 0] (1 / 2) 1
              plane_row_wf eq_refl He Hs Hp)
    as (s1 & s2 & bx & by_ & Hc & Hb & Hl & _ & (w & Hw & Hmin) &
        (nb & nb2 & Hnb & Hnb2 & Hscale & Hstrict)).
  rewrite plane_row_compute in Hc. injection Hc as <-. cbn [map] in Hw, Hmin.
  assert (E : bx = 0%nat /\ by_ = 1%nat).
  { destruct bx as [|bx]; [|destruct bx; discriminate Hw].
    destruct by_ as [|[|by_]]; [| split; reflexivity | destruct by_; discriminate Hw].
    exfalso. injection Hw as <-.
    destruct (Hmin 0%nat 1%nat _ eq_refl) as [Hle _]. cbn [y] in Hle.
    rewrite norm_origin_3_4, norm_origin_0_1 in Hle. lra. }
  destruct E as [-> ->].
  injection Hnb as <-. cbn [weights] in Hscale, Hstrict.
  rewrite euclidean_origin_0_1 in Hscale, Hstrict.
  assert (Hne : [0; 1] <> [0; 0]).
  { intros E. injection E as E1. lra. }
  eexists. exists s2, (mkNeuron [0; 1] 0 1 0), nb2.
  split; [reflexivity|]. split; [exact Hb|]. split; [exact Hl|].
  split; [reflexivity|]. split; [exact Hne|].
  split; [exact euclidean_origin_0_1|]. split; [exact Hnb2|].
  split; [rewrite Hscale; lra|].
  cbn [weights]. rewrite euclidean_origin_0_1. exact (Hstrict Hne).
Defined.

(** C3, the claim as stated fails: on a one-cell map whose weight vector
    already equals the input, the training step succeeds and the winner is
    not strictly closer to the input afterwards (its distance stays 0). *)
Lemma train_step_winner_not_strictly_closer :
  wf_SOM one_cell /\ length [0] = input_dim one_cell /\
  0 < 1 / 2 <= 1 /\ 0 < 1 /\
  exists s1 s2 nb nb2,
    SOMM.compute one_cell [0] = Ok s1 /\
    SOMM.bmu s1 = Ok (0%nat, 0%nat) /\
    SOMM.learn s1 (1 / 2) 1 [0] = Ok s2 /\
    Py.get2 (map one_cell) 0 0 = Ok nb /\
    Py.get2 (map s2) 0 0 = Ok nb2 /\
    ~ euclidean_distance [0] (weights nb2) < euclidean_distance [0] (weights nb).
Proof.
  split; [exact one_cell_wf|]. split; [reflexivity|].
  split; [lra|]. split; [lra|].
  destruct one_cell_learn as [q Hq].
  eexists. eexists. eexists. eexists.
  split; [exact one_cell_compute|].
  split; [reflexivity|].
  split; [exact Hq|].
  split; [reflexivity|].
  split; [reflexivity|].
  cbn [weights]. unfold euclidean_distance. cbn [Py.zip_with fold_right].
  replace ((0 - (0 + 1 / 2 * exp q * (0 - 0))) ^ 2 + 0) with 0 by ring.
  replace ((0 - 0) ^ 2 + 0) with 0 by ring.
  lra.
Qed.

(** * Properties of the nearest-neighbour search *)

Lemma map_res_get_from {A B : Type} (f : A -> B) :
  forall (l pre : list A),
  map_res (fun i => e <- Py.get (pre ++ l) i ;; Ok (f e))
    (seq (length pre) (length l)) = Ok (List.map f l).
Proof.
  induction l as [|a l IH]; intros pre; simpl.
  - reflexivity.
  - unfold Py.get at 1. rewrite nth_error_app2 by lia.
    rewrite Nat.sub_diag. simpl.
    specialize (IH (pre ++ [a])). rewrite length_app in IH. simpl in IH.
    rewrite Nat.add_1_r, <- app_assoc in IH. simpl in IH.
    rewrite IH. reflexivity.
Qed.

Lemma positions_full cv k :
  Z.to_nat k = length cv -> SOMM.positions cv k = Ok (List.map fst cv).
Proof.
  intros H. unfold SOMM.positions, Py.rangeZ. rewrite H.
  exact (map_res_get_from fst cv []).
Qed.

Lemma sorted_prec_nodup (dist : pos -> R) (l : list entry) :
  StronglySorted prec l ->
  (forall e, In e l -> snd e = dist (fst e)) ->
  NoDup (List.map fst l).
Proof.
  induction l as [|e l IH]; simpl; intros Hs Hd.
  - constructor.
  - inversion Hs as [|? ? Hs' Hf]; subst. constructor.
    + intros Hin. apply in_map_iff in Hin. destruct Hin as [e' [E He']].
      rewrite Forall_forall in Hf. specialize (Hf e' He').
      assert (Heq : e' = e).
      { destruct e as [p d], e' as [p' d']. simpl in E. subst p'.
        f_equal. pose proof (Hd (p, d') (or_intror He')) as H1.
        pose proof (Hd (p, d) (or_introl eq_refl)) as H2.
        simpl in H1, H2. congruence. }
      subst e'. exact (prec_irrefl e Hf).
    + apply IH; [exact Hs'|]. intros e' He'. apply Hd. right; exact He'.
Qed.

Lemma sorted_prec_le (l : list entry) :
  StronglySorted prec l -> StronglySorted (fun e e' => snd e <= snd e') l.
Proof.
  induction 1 as [|e l Hs IH Hf]; constructor; [exact IH|].
  rewrite Forall_forall in *. intros e' He'. apply prec_le, Hf, He'.
Qed.

(** C5.  On a map whose prototypes all have the two motor coordinates, and
    for [1 <= k <= number of prototypes], the scan of
    [find_hand_position_v2] succeeds and returns exactly [k] pairs
    (position, distance) of distinct prototypes of the map, sorted by
    ascending distance (and by row-major position at equal distance); every
    returned distance is at most the distance of every prototype that is not
    returned, and when the two are equal the returned prototype comes
    earlier in the row-major scan.  The list of positions that
    [find_hand_position_v2] returns is the list of positions of these
    pairs. *)
Theorem knn_scan_k_nearest (m : list (list Neuron)) (q : point) (k : Z) :
  has_motor_coords m ->
  (1 <= k <= Z.of_nat (length (concat m)))%Z ->
  exists cv,
    SOMM.knn_scan m q k = Ok cv /\
    Z.of_nat (length cv) = k /\
    StronglySorted (fun e e' => snd e <= snd e') cv /\
    StronglySorted
      (fun e e' => snd e < snd e' \/ (snd e = snd e' /\ pos_lt (fst e) (fst e')))
      cv /\
    NoDup (List.map fst cv) /\
    (forall e, In e cv ->
       exists n, Py.get2 m (fst (fst e)) (snd (fst e)) = Ok n /\
                 SOMM.motor_dist n q = Ok (snd e)) /\
    (forall i j n d,
       Py.get2 m i j = Ok n -> SOMM.motor_dist n q = Ok d ->
       ~ In (i, j) (List.map fst cv) ->
       forall e, In e cv ->
         snd e <= d /\ (snd e = d -> pos_lt (fst e) (i, j))) /\
    SOMM.positions cv k = Ok (List.map fst cv).
Proof.
  intros Hm [Hk1 Hk2].
  destruct (knn_scan_inv m q k Hk1 Hm) as [cv [Hscan Hinv]].
  destruct Hinv as (Hlen & Hsort & Hsrc & _ & Hout).
  assert (Hlenk : Z.of_nat (length cv) = k).
  { rewrite Hlen. unfold grid_cells. rewrite length_grid_cells_from. lia. }
  exists cv. split; [exact Hscan|].
  split; [exact Hlenk|].
  cut ((StronglySorted (fun e e' => snd e <= snd e') cv /\
        StronglySorted
          (fun e e' =>
             snd e < snd e' \/ (snd e = snd e' /\ pos_lt (fst e) (fst e'))) cv /\
        NoDup (List.map fst cv) /\
        (forall e, In e cv ->
           exists n, Py.get2 m (fst (fst e)) (snd (fst e)) = Ok n /\
                     SOMM.motor_dist n q = Ok (snd e)) /\
        (forall i j n d,
           Py.get2 m i j = Ok n -> SOMM.motor_dist n q = Ok d ->
           ~ In (i, j) (List.map fst cv) ->
           forall e, In e cv ->
             snd e <= d /\ (snd e = d -> pos_lt (fst e) (i, j))))).
  { intros (H1 & H2 & H3 & H4 & H5).
    repeat (split; [assumption|]). apply positions_full. lia. }
  split; [apply sorted_prec_le, Hsort|].
  split; [exact Hsort|].
  split.
  { apply (sorted_prec_nodup (dist_at m q)); [exact Hsort|].
    intros e He. apply Hsrc, He. }
  split.
  - intros [[i j] d] He. simpl. destruct (Hsrc _ He) as [H1 H2]. simpl in H1, H2.
    apply in_grid_cells in H1. destruct H1 as [n Hn]. exists n.
    split; [exact Hn|]. rewrite H2. apply dist_at_ok; assumption.
  - intros i j n d Hn Hd Hnot e He.
    pose proof (dist_at_ok m q i j n Hm Hn) as Hd'.
    assert (Ed : d = dist_at m q (i, j)) by congruence.
    assert (Hcell : In (i, j) (grid_cells m))
      by (apply in_grid_cells; exists n; exact Hn).
    destruct (Hout (i, j) Hcell) as [Hin|Hprec].
    + exfalso. apply Hnot. apply in_map_iff.
      exists ((i, j), dist_at m q (i, j)). split; [reflexivity | exact Hin].
    + specialize (Hprec e He). rewrite <- Ed in Hprec.
      split; [apply (prec_le _ _ Hprec)|].
      intros E. destruct Hprec as [H|[_ H]]; [simpl in H; lra | exact H].
Qed.

(** ** The estimates computed from the scan *)

Lemma for_each_get_from {A S : Type} (g : A -> S -> res S) :
  forall (l pre : list A) s,
  for_each (seq (length pre) (length l))
    (fun i acc => e <- Py.get (pre ++ l) i ;; g e acc) s =
  for_each l g s.
Proof.
  induction l as [|a l IH]; intros pre s; simpl.
  - reflexivity.
  - unfold Py.get at 1. rewrite nth_error_app2 by lia.
    rewrite Nat.sub_diag. simpl. destruct (g a s) as [s1|e]; simpl; [|reflexivity].
    specialize (IH (pre ++ [a]) s1). rewrite length_app in IH. simpl in IH.
    rewrite Nat.add_1_r in IH. rewrite <- IH.
    apply for_each_ext. intros i s' _. rewrite <- app_assoc. reflexivity.
Qed.

Lemma for_each_get {A S : Type} (g : A -> S -> res S) (l : list A) k s :
  Z.to_nat k = length l ->
  for_each (Py.rangeZ k) (fun i acc => e <- Py.get l i ;; g e acc) s =
  for_each l g s.
Proof.
  intros H. unfold Py.rangeZ. rewrite H. exact (for_each_get_from g l [] s).
Qed.

Lemma map_res_length {X Y : Type} (f : X -> res Y) xs ys :
  map_res f xs = Ok ys -> length ys = length xs.
Proof.
  revert ys; induction xs as [|x xs IH]; simpl; intros ys H.
  - inversion H. reflexivity.
  - apply bind_ok in H. destruct H as [y0 [_ H]].
    apply bind_ok in H. destruct H as [ys' [H1 H2]].
    inversion H2; subst. simpl. f_equal. apply IH, H1.
Qed.

Lemma has_output_motor m : has_output_coords m -> has_motor_coords m.
Proof.
  unfold has_output_coords, has_motor_coords. intros H.
  eapply Forall_impl; [|exact H]. intros row Hr.
  eapply Forall_impl; [|exact Hr]. simpl. intros n Hn. lia.
Qed.

Lemma weight_at_ok m p c :
  has_output_coords m -> In p (grid_cells m) -> (c < 4)%nat ->
  SOMM.weight_at m p c = Ok (coord_at m c p).
Proof.
  intros Hm Hp Hc. destruct p as [i j]. apply in_grid_cells in Hp.
  destruct Hp as [n Hn]. unfold coord_at, SOMM.weight_at. simpl. rewrite Hn. simpl.
  destruct (get2_in _ _ _ _ Hn) as [row [H1 H2]].
  unfold has_output_coords in Hm. rewrite Forall_forall in Hm.
  specialize (Hm row H1). rewrite Forall_forall in Hm. specialize (Hm n H2).
  destruct (get_lt (weights n) c) as [w Hw]; [lia|]. rewrite Hw. reflexivity.
Qed.

Lemma uniform_loop m cv :
  has_output_coords m ->
  (forall e, In e cv -> In (fst e) (grid_cells m)) ->
  forall a b,
  for_each cv
    (fun e '(result_x, result_y) =>
       wx <- SOMM.weight_at m (fst e) 2 ;;
       wy <- SOMM.weight_at m (fst e) 3 ;;
       Ok (result_x + wx, result_y + wy)) (a, b) =
  Ok (sum_coord m 2 cv a, sum_coord m 3 cv b).
Proof.
  intros Hm. induction cv as [|e cv IH]; intros Hin a b; simpl.
  - reflexivity.
  - rewrite !weight_at_ok; auto; try (apply Hin; left; reflexivity). simpl.
    apply IH. intros e' He'. apply Hin. right; exact He'.
Qed.

Lemma total_loop cv k :
  Z.to_nat k = length cv ->
  SOMM.total_of cv k = Ok (total_dist cv 0).
Proof.
  intros H. unfold SOMM.total_of. rewrite for_each_get by exact H.
  unfold total_dist. clear H. generalize 0 as a.
  induction cv as [|e cv IH]; intros a; simpl.
  - reflexivity.
  - apply IH.
Qed.

Lemma weighted_loop m total k cv :
  has_output_coords m -> total <> 0 -> IZR (k - 1) <> 0 ->
  (forall e, In e cv -> In (fst e) (grid_cells m)) ->
  forall a b,
  for_each cv
    (fun e '(result_x, result_y) =>
       q <- Py.div (snd e) total ;;
       dist <- Py.div (1 - q) (IZR (k - 1)) ;;
       wx <- SOMM.weight_at m (fst e) 2 ;;
       wy <- SOMM.weight_at m (fst e) 3 ;;
       Ok (result_x + wx * dist, result_y + wy * dist)) (a, b) =
  Ok (sum_weighted m 2 total k cv a, sum_weighted m 3 total k cv b).
Proof.
  intros Hm Ht Hk. induction cv as [|e cv IH]; intros Hin a b; simpl.
  - reflexivity.
  - unfold Py.div at 1 2.
    destruct (Req_dec_T total 0) as [E|_]; [contradiction|]. simpl.
    destruct (Req_dec_T (IZR (k - 1)) 0) as [E|_]; [contradiction|]. simpl.
    rewrite !weight_at_ok; auto; try (apply Hin; left; reflexivity). simpl.
    apply IH. intros e' He'. apply Hin. right; exact He'.
Qed.

Lemma weighted_loop_zero m k e cv a b :
  for_each (e :: cv)
    (fun e '(result_x, result_y) =>
       q <- Py.div (snd e) 0 ;;
       dist <- Py.div (1 - q) (IZR (k - 1)) ;;
       wx <- SOMM.weight_at m (fst e) 2 ;;
       wy <- SOMM.weight_at m (fst e) 3 ;;
       Ok (result_x + wx * dist, result_y + wy * dist)) (a, b) =
  Raise ZeroDivisionError.
Proof.
  simpl. unfold Py.div at 1.
  destruct (Req_dec_T 0 0) as [_|E]; [reflexivity | contradiction E; reflexivity].
Qed.

Lemma IZR_pos_neq k : (1 <= k)%Z -> IZR k <> 0.
Proof. intros H. apply not_0_IZR. lia. Qed.

Lemma v2_of_scan m q k cv :
  has_output_coords m -> (1 <= k)%Z ->
  SOMM.knn_scan m q k = Ok cv ->
  Z.to_nat k = length cv ->
  (forall e, In e cv -> In (fst e) (grid_cells m)) ->
  SOMM.find_hand_position_v2 m q k =
  Ok (List.map fst cv,
      (sum_coord m 2 cv 0 / IZR k, sum_coord m 3 cv 0 / IZR k)).
Proof.
  intros Hm Hk Hscan Hlen Hin. unfold SOMM.find_hand_position_v2.
  rewrite Hscan. simpl.
  rewrite (for_each_ext _ _
             (fun i acc =>
                e <- Py.get cv i ;;
                (fun e '(result_x, result_y) =>
                   wx <- SOMM.weight_at m (fst e) 2 ;;
                   wy <- SOMM.weight_at m (fst e) 3 ;;
                   Ok (result_x + wx, result_y + wy)) e acc)).
  2:{ intros i [rx ry] _. reflexivity. }
  rewrite for_each_get by exact Hlen.
  rewrite uniform_loop by assumption. simpl.
  unfold Py.div. destruct (Req_dec_T (IZR k) 0) as [E|_].
  { exfalso. exact (IZR_pos_neq k Hk E). }
  simpl. rewrite positions_full by exact Hlen. reflexivity.
Qed.

Lemma v3_of_scan m q k cv :
  has_output_coords m -> (2 <= k)%Z ->
  SOMM.knn_scan m q k = Ok cv ->
  Z.to_nat k = length cv ->
  (forall e, In e cv -> In (fst e) (grid_cells m)) ->
  total_dist cv 0 <> 0 ->
  SOMM.find_hand_position_v3 m q k =
  Ok (List.map fst cv,
      (sum_weighted m 2 (total_dist cv 0) k cv 0,
       sum_weighted m 3 (total_dist cv 0) k cv 0)).
Proof.
  intros Hm Hk Hscan Hlen Hin Ht. unfold SOMM.find_hand_position_v3.
  rewrite Hscan. simpl. rewrite total_loop by exact Hlen. simpl.
  rewrite (for_each_ext _ _
             (fun i acc =>
                e <- Py.get cv i ;;
                (fun e '(result_x, result_y) =>
                   q <- Py.div (snd e) (total_dist cv 0) ;;
                   dist <- Py.div (1 - q) (IZR (k - 1)) ;;
                   wx <- SOMM.weight_at m (fst e) 2 ;;
                   wy <- SOMM.weight_at m (fst e) 3 ;;
                   Ok (result_x + wx * dist, result_y + wy * dist)) e acc)).
  2:{ intros i [rx ry] _. reflexivity. }
  rewrite for_each_get by exact Hlen.
  rewrite weighted_loop; try assumption.
  2:{ apply IZR_pos_neq. lia. }
  simpl. rewrite positions_full by exact Hlen. reflexivity.
Qed.

Lemma v3_of_scan_zero m q k cv :
  (1 <= k)%Z ->
  SOMM.knn_scan m q k = Ok cv ->
  Z.to_nat k = length cv ->
  total_dist cv 0 = 0 ->
  SOMM.find_hand_position_v3 m q k = Raise ZeroDivisionError.
Proof.
  intros Hk Hscan Hlen Ht. unfold SOMM.find_hand_position_v3.
  rewrite Hscan. simpl. rewrite total_loop by exact Hlen. simpl.
  rewrite (for_each_ext _ _
             (fun i acc =>
                e <- Py.get cv i ;;
                (fun e '(result_x, result_y) =>
                   q <- Py.div (snd e) (total_dist cv 0) ;;
                   dist <- Py.div (1 - q) (IZR (k - 1)) ;;
                   wx <- SOMM.weight_at m (fst e) 2 ;;
                   wy <- SOMM.weight_at m (fst e) 3 ;;
                   Ok (result_x + wx * dist, result_y + wy * dist)) e acc)).
  2:{ intros i [rx ry] _. reflexivity. }
  rewrite for_each_get by exact Hlen.
  destruct cv as [|e cv]; [simpl in Hlen; lia|].
  rewrite Ht. rewrite weighted_loop_zero. reflexivity.
Qed.

(** Sums over entries that all lie at the same distance. *)
Lemma total_dist_equal d cv a :
  (forall e, In e cv -> snd e = d) ->
  total_dist cv a = a + INR (length cv) * d.
Proof.
  unfold total_dist. revert a. induction cv as [|e cv IH]; intros a H.
  - simpl. ring.
  - cbn [fold_left]. rewrite IH by (intros e' He'; apply H; right; exact He').
    rewrite (H e (or_introl eq_refl)).
    change (length (e :: cv)) with (S (length cv)). rewrite S_INR. ring.
Qed.

Lemma sum_weighted_equal m c total k d cv a :
  (forall e, In e cv -> snd e = d) ->
  sum_weighted m c total k cv a =
  a + (sum_coord m c cv 0) * ((1 - d / total) / IZR (k - 1)).
Proof.
  unfold sum_weighted, sum_coord. intros H.
  assert (G : forall a b,
            fold_left
              (fun acc e =>
                 acc + coord_at m c (fst e) * ((1 - snd e / total) / IZR (k - 1)))
              cv (a + b * ((1 - d / total) / IZR (k - 1))) =
            a + fold_left (fun acc e => acc + coord_at m c (fst e)) cv b *
                ((1 - d / total) / IZR (k - 1))).
  { induction cv as [|e cv IH]; intros a0 b; cbn [fold_left].
    - reflexivity.
    - rewrite (H e (or_introl eq_refl)).
      rewrite <- IH by (intros e' He'; apply H; right; exact He').
      f_equal. ring. }
  rewrite <- G. f_equal. ring.
Qed.

(** ** The scan of find_hand_position_v1 *)

Section Nearest.

Variables (m : list (list Neuron)) (q : point).
Hypothesis coords : has_motor_coords m.
Hypothesis origin : exists n, Py.get2 m 0 0 = Ok n.

Lemma origin_first p : ~ pos_lt p (0, 0)%nat.
Proof. unfold pos_lt. simpl. lia. Qed.

Lemma v1_body_inv done p rest st :
  grid_cells m = done ++ p :: rest ->
  v1_inv m q done st ->
  exists st', SOMM.v1_body m q (fst p) (snd p) st = Ok st' /\
    v1_inv m q (done ++ [p]) st'.
Proof.
  intros Hxs (Hd & Hin & Hmin). destruct p as [i j]. simpl.
  assert (Hcell : In (i, j) (grid_cells m)).
  { rewrite Hxs. apply in_or_app. right. left. reflexivity. }
  apply in_grid_cells in Hcell. destruct Hcell as [n Hn].
  pose proof (dist_at_ok m q i j n coords Hn) as Hdist.
  set (d := dist_at m q (i, j)) in *.
  pose proof (sorted_grid_cells_from m 0) as Hs. fold (grid_cells m) in Hs.
  rewrite Hxs in Hs.
  assert (Hbefore : forall p', In p' done -> pos_lt p' (i, j)).
  { apply sorted_app_before in Hs. rewrite Forall_forall in Hs. exact Hs. }
  assert (Hafter : forall p', In p' rest -> pos_lt (i, j) p').
  { clear -Hs. induction done as [|a l IH]; simpl in Hs.
    - inversion Hs as [|? ? _ Hf]; subst. rewrite Forall_forall in Hf. exact Hf.
    - inversion Hs; subst. apply IH. assumption. }
  unfold SOMM.v1_body. rewrite Hn. simpl. rewrite Hdist. simpl.
  destruct (Rlt_dec d (fst st)) as [Hlt|Hge].
  - eexists. split; [reflexivity|]. split; [reflexivity|]. split.
    + right. apply in_or_app. right. left. reflexivity.
    + intros p' Hp'. simpl. apply in_app_or in Hp'.
      destruct Hp' as [Hp'|[Hp'|[]]]; [|left; symmetry; exact Hp'].
      right. destruct (Hmin p' Hp') as [E|Hprec].
      * subst p'. left. simpl. rewrite <- Hd. exact Hlt.
      * apply prec_trans with (snd st, fst st); [left; exact Hlt | exact Hprec].
  - eexists. split; [reflexivity|]. split; [exact Hd|]. split.
    + destruct Hin as [E|Hin]; [left; exact E|].
      right. apply in_or_app. left; exact Hin.
    + intros p' Hp'. apply in_app_or in Hp'.
      destruct Hp' as [Hp'|[Hp'|[]]]; [apply Hmin, Hp'|]. subst p'.
      fold d.
      destruct (Rlt_dec (fst st) d) as [H|H]; [right; left; exact H|].
      assert (E : fst st = d) by lra.
      destruct Hin as [E0|Hin].
      * (* the running best is still the initial cell (0, 0) *)
        destruct origin as [n0 Hn0].
        assert (H00 : In (0, 0)%nat (grid_cells m))
          by (apply in_grid_cells; exists n0; exact Hn0).
        rewrite Hxs in H00. apply in_app_or in H00.
        destruct H00 as [H00|[H00|H00]].
        -- right. right. simpl. split; [exact E|]. rewrite <- E0.
           apply Hbefore, H00.
        -- left. rewrite <- E0. exact H00.
        -- exfalso. exact (origin_first _ (Hafter _ H00)).
      * right. right. simpl. split; [exact E|]. apply Hbefore, Hin.
Qed.

Lemma v1_scan_inv :
  exists st, SOMM.v1_scan m q = Ok st /\ v1_inv m q (grid_cells m) st.
Proof.
  unfold SOMM.v1_scan. destruct origin as [n0 Hn0]. rewrite Hn0. simpl.
  rewrite (dist_at_ok m q 0 0 n0 coords Hn0). simpl.
  rewrite for_grid_cells. apply for_each_inv.
  - split; [reflexivity|]. split; [left; reflexivity|]. intros p [].
  - intros done p rest st Hxs Hinv. apply (v1_body_inv done p rest); assumption.
Qed.

(** The position kept by [find_hand_position_v1] is the single entry kept by
    the scan of [find_hand_position_v2] with [nb_values = 1]. *)
Lemma v1_scan_knn1 :
  exists p d,
    SOMM.v1_scan m q = Ok (d, p) /\
    SOMM.knn_scan m q 1 = Ok [(p, d)] /\
    In p (grid_cells m).
Proof.
  destruct v1_scan_inv as [[d p] [H1 (Hd & Hin & Hmin)]]. simpl in *.
  destruct (knn_scan_inv m q 1 (Z.le_refl 1) coords)
    as [cv [Hk (Hlen & Hsort & Hsrc & _ & Hout)]].
  assert (Hp : In p (grid_cells m)).
  { destruct Hin as [E|Hin]; [|exact Hin]. subst p.
    destruct origin as [n0 Hn0]. apply in_grid_cells. exists n0. exact Hn0. }
  assert (Hne : (0 < length (grid_cells m))%nat).
  { destruct (grid_cells m); [contradiction | simpl; lia]. }
  assert (Hone : length cv = 1%nat) by lia.
  destruct cv as [|e [|e' cv]]; try discriminate Hone.
  exists p, d. split; [exact H1|]. split; [|exact Hp].
  rewrite Hk. f_equal. f_equal.
  destruct (Hsrc e (or_introl eq_refl)) as [He1 He2].
  destruct e as [pe de]. simpl in *.
  destruct (Hout p Hp) as [[E|[]]|Hprec].
  - rewrite E. f_equal. symmetry. exact Hd.
  - specialize (Hprec _ (or_introl eq_refl)).
    destruct (Hmin pe He1) as [E|Hprec'].
    + subst pe. f_equal. congruence.
    + exfalso. rewrite <- He2, <- Hd in *.
      exact (prec_irrefl _ (prec_trans _ _ _ Hprec Hprec')).
Qed.

End Nearest.

(** What [find_hand_position_v1] returns once its scan has kept a cell. *)
Lemma v1_of_scan m q d p :
  has_output_coords m ->
  SOMM.v1_scan m q = Ok (d, p) -> In p (grid_cells m) ->
  exists n w0 w1 w2 w3,
    Py.get2 m (fst p) (snd p) = Ok n /\
    Py.get (weights n) 0 = Ok w0 /\ Py.get (weights n) 1 = Ok w1 /\
    Py.get (weights n) 2 = Ok w2 /\ Py.get (weights n) 3 = Ok w3 /\
    SOMM.find_hand_position_v1 m q = Ok ((w0, w1), (w2, w3)).
Proof.
  intros Hm Hscan Hp. destruct p as [i j]. apply in_grid_cells in Hp.
  destruct Hp as [n Hn].
  assert (Hw : (4 <= length (weights n))%nat).
  { destruct (get2_in _ _ _ _ Hn) as [row [Hr1 Hr2]].
    unfold has_output_coords in Hm. rewrite Forall_forall in Hm.
    specialize (Hm row Hr1). rewrite Forall_forall in Hm. apply Hm, Hr2. }
  destruct (get_lt (weights n) 0) as [w0 H0]; [lia|].
  destruct (get_lt (weights n) 1) as [w1 H1]; [lia|].
  destruct (get_lt (weights n) 2) as [w2 H2]; [lia|].
  destruct (get_lt (weights n) 3) as [w3 H3]; [lia|].
  exists n, w0, w1, w2, w3.
  split; [exact Hn|]. split; [exact H0|]. split; [exact H1|].
  split; [exact H2|]. split; [exact H3|].
  unfold SOMM.find_hand_position_v1. rewrite Hscan. simpl. rewrite Hn. simpl.
  rewrite H0, H1, H2, H3. reflexivity.
Qed.

(** C6.  On a map whose prototypes have four coordinates and whose cell
    [(0, 0)] exists, [find_hand_position_v1] and [find_hand_position_v2]
    with [nb_values = 1] both succeed and select the same grid position, and
    the average returned for [nb_values = 1] is the pair of output
    coordinates (weights 2 and 3) of that prototype, which is what
    [find_hand_position_v1] returns as its second component. *)
Theorem nearest_agrees_with_k1 (m : list (list Neuron)) (q : point) :
  has_output_coords m -> (exists n0, Py.get2 m 0 0 = Ok n0) ->
  exists p d n w0 w1 w2 w3,
    SOMM.v1_scan m q = Ok (d, p) /\
    SOMM.knn_scan m q 1 = Ok [(p, d)] /\
    Py.get2 m (fst p) (snd p) = Ok n /\
    Py.get (weights n) 0 = Ok w0 /\ Py.get (weights n) 1 = Ok w1 /\
    Py.get (weights n) 2 = Ok w2 /\ Py.get (weights n) 3 = Ok w3 /\
    SOMM.find_hand_position_v1 m q = Ok ((w0, w1), (w2, w3)) /\
    SOMM.find_hand_position_v2 m q 1 = Ok ([p], (w2, w3)).
Proof.
  intros Hm Ho.
  destruct (v1_scan_knn1 m q (has_output_motor m Hm) Ho) as (p & d & H1 & H2 & Hp).
  destruct (v1_of_scan m q d p Hm H1 Hp)
    as (n & w0 & w1 & w2 & w3 & Hn & G0 & G1 & G2 & G3 & Hv1).
  exists p, d, n, w0, w1, w2, w3.
  split; [exact H1|]. split; [exact H2|]. split; [exact Hn|].
  split; [exact G0|]. split; [exact G1|]. split; [exact G2|]. split; [exact G3|].
  split; [exact Hv1|].
  rewrite (v2_of_scan m q 1 [(p, d)] Hm (Z.le_refl 1) H2 eq_refl).
  2:{ intros e [E|[]]. subst e. exact Hp. }
  unfold sum_coord, coord_at, SOMM.weight_at. simpl. rewrite Hn. simpl.
  rewrite G2, G3. f_equal. f_equal. f_equal; field.
Qed.

Lemma two_cells_coords : has_output_coords two_cells.
Proof. repeat constructor; simpl; lia. Qed.

Lemma nearest_agrees_with_k1_example :
  has_output_coords two_cells /\ (exists n0, Py.get2 two_cells 0 0 = Ok n0) /\
  exists r1 r2,
    SOMM.find_hand_position_v1 two_cells (1, 0) = Ok r1 /\
    SOMM.find_hand_position_v2 two_cells (1, 0) 1 = Ok r2 /\
    snd r1 = snd r2.
Proof.
  split; [exact two_cells_coords|].
  split; [eexists; reflexivity|].
  destruct (nearest_agrees_with_k1 two_cells (1, 0) two_cells_coords
              (ex_intro _ _ eq_refl))
    as (p & d & n & w0 & w1 & w2 & w3 & _ & _ & _ & _ & _ & _ & _ & H1 & H2).
  eexists. eexists. split; [exact H1|]. split; [exact H2|]. reflexivity.
Defined.

Lemma two_cells_scan (q : point) :
  SOMM.knn_scan two_cells q 2 =
  Ok [((0, 0)%nat, sqrt ((0 - fst q) ^ 2 + (0 - snd q) ^ 2));
      ((0, 1)%nat, sqrt ((0 - fst q) ^ 2 + (0 - snd q) ^ 2))].
Proof.
  unfold SOMM.knn_scan, for_grid, SOMM.knn_body, SOMM.motor_dist.
  cbn -[sqrt pow Rminus Rplus Rle_dec Rlt_dec].
  r_decide. reflexivity.
Qed.

(** With [nb_values = 1] the second prototype, at the same distance as the
    first, does not replace it. *)
Lemma two_cells_scan_tie (q : point) :
  SOMM.knn_scan two_cells q 1 =
  Ok [((0, 0)%nat, sqrt ((0 - fst q) ^ 2 + (0 - snd q) ^ 2))].
Proof.
  unfold SOMM.knn_scan, for_grid, SOMM.knn_body, SOMM.motor_dist.
  cbn -[sqrt pow Rminus Rplus Rle_dec Rlt_dec].
  r_decide. reflexivity.
Qed.

(** C7 (as amended).  For [k >= 2], when the [k] nearest prototypes all lie
    at the same non-zero distance [d] from the query point, each weight
    [(1 - d/total)/(k-1)] of [find_hand_position_v3] is [1/k], the weights
    sum to 1, and [find_hand_position_v3] returns the same result as
    [find_hand_position_v2]. *)
Theorem weighted_equals_uniform_at_equal_distance (m : list (list Neuron))
  (q : point) (k : Z) (cv : list entry) (d : R) :
  has_output_coords m ->
  (2 <= k <= Z.of_nat (length (concat m)))%Z ->
  SOMM.knn_scan m q k = Ok cv ->
  (forall e, In e cv -> snd e = d) ->
  d <> 0 ->
  SOMM.total_of cv k = Ok (IZR k * d) /\
  (1 - d / (IZR k * d)) / IZR (k - 1) = 1 / IZR k /\
  IZR k * ((1 - d / (IZR k * d)) / IZR (k - 1)) = 1 /\
  exists r,
    SOMM.find_hand_position_v2 m q k = Ok r /\
    SOMM.find_hand_position_v3 m q k = Ok r.
Proof.
  intros Hm [Hk1 Hk2] Hscan Heq Hd.
  assert (Hk : (1 <= k)%Z) by lia.
  destruct (knn_scan_inv m q k Hk (has_output_motor m Hm))
    as [cv' [Hscan' (Hlen & _ & Hsrc & _)]].
  assert (cv' = cv) by congruence. subst cv'.
  assert (Hlen' : Z.to_nat k = length cv).
  { rewrite Hlen. unfold grid_cells. rewrite length_grid_cells_from. lia. }
  assert (Hin : forall e, In e cv -> In (fst e) (grid_cells m))
    by (intros e He; apply Hsrc, He).
  assert (Hk0 : IZR k <> 0) by (apply IZR_pos_neq; exact Hk).
  assert (Hk10 : IZR k - 1 <> 0).
  { rewrite <- minus_IZR. apply IZR_pos_neq. lia. }
  assert (Htot : total_dist cv 0 = IZR k * d).
  { rewrite (total_dist_equal d cv 0 Heq). rewrite INR_IZR_INZ.
    unfold entry, pos in *.
    assert (E : Z.of_nat (length cv) = k) by lia. rewrite E. ring. }
  assert (Hw : (1 - d / (IZR k * d)) / IZR (k - 1) = 1 / IZR k).
  { rewrite minus_IZR. field. repeat split; assumption. }
  split; [rewrite total_loop by exact Hlen'; rewrite Htot; reflexivity|].
  split; [exact Hw|].
  split; [rewrite Hw; field; exact Hk0|].
  eexists. split; [apply (v2_of_scan m q k cv); assumption|].
  rewrite (v3_of_scan m q k cv); try assumption.
  2:{ rewrite Htot. apply Rmult_integral_contrapositive_currified; assumption. }
  rewrite !(sum_weighted_equal m _ _ k d cv 0 Heq). rewrite Htot, Hw.
  f_equal. f_equal. f_equal; field; exact Hk0.
Qed.

Lemma weighted_equals_uniform_at_equal_distance_example :
  has_output_coords two_cells /\
  (2 <= 2 <= Z.of_nat (length (concat two_cells)))%Z /\
  exists r,
    SOMM.find_hand_position_v2 two_cells (1, 0) 2 = Ok r /\
    SOMM.find_hand_position_v3 two_cells (1, 0) 2 = Ok r.
Proof.
  split; [exact two_cells_coords|]. split; [simpl; lia|].
  assert (Hk : (2 <= 2 <= Z.of_nat (length (concat two_cells)))%Z)
    by (simpl; lia).
  assert (Hd : sqrt ((0 - fst (1, 0)) ^ 2 + (0 - snd (1, 0)) ^ 2) <> 0).
  { simpl fst. simpl snd.
    replace ((0 - 1) ^ 2 + (0 - 0) ^ 2) with 1 by ring.
    rewrite sqrt_1. lra. }
  assert (Heq : forall e : entry,
            In e [((0, 0)%nat, sqrt ((0 - fst (1, 0)) ^ 2 + (0 - snd (1, 0)) ^ 2));
                  ((0, 1)%nat, sqrt ((0 - fst (1, 0)) ^ 2 + (0 - snd (1, 0)) ^ 2))] ->
            snd e = sqrt ((0 - fst (1, 0)) ^ 2 + (0 - snd (1, 0)) ^ 2)).
  { intros e [E|[E|[]]]; subst e; reflexivity. }
  exact (proj2 (proj2 (proj2
    (weighted_equals_uniform_at_equal_distance two_cells (1, 0) 2 _ _
       two_cells_coords Hk (two_cells_scan (1, 0)) Heq Hd)))).
Defined.

(** C7, the claim as stated fails: both prototypes of [two_cells] lie at
    distance 0 from the query point [(0, 0)], so the two nearest are at equal
    distance; [find_hand_position_v2] returns the mean of the output
    coordinates, while [find_hand_position_v3] divides by the total distance
    0 and produces no estimate (with numpy scalars the quotient is nan, which
    the model records as [ZeroDivisionError]). *)
Lemma weighted_differs_from_uniform_at_distance_zero :
  (exists cv,
     SOMM.knn_scan two_cells (0, 0) 2 = Ok cv /\
     forall e, In e cv -> snd e = 0) /\
  (exists r, SOMM.find_hand_position_v2 two_cells (0, 0) 2 = Ok r) /\
  SOMM.find_hand_position_v3 two_cells (0, 0) 2 = Raise ZeroDivisionError /\
  SOMM.find_hand_position_v3 two_cells (0, 0) 2 <>
  SOMM.find_hand_position_v2 two_cells (0, 0) 2.
Proof.
  assert (Hz : sqrt ((0 - fst (0, 0)) ^ 2 + (0 - snd (0, 0)) ^ 2) = 0).
  { simpl fst. simpl snd.
    replace ((0 - 0) ^ 2 + (0 - 0) ^ 2) with 0 by ring. apply sqrt_0. }
  assert (Heq : forall e : entry,
            In e [((0, 0)%nat, sqrt ((0 - fst (0, 0)) ^ 2 + (0 - snd (0, 0)) ^ 2));
                  ((0, 1)%nat, sqrt ((0 - fst (0, 0)) ^ 2 + (0 - snd (0, 0)) ^ 2))] ->
            snd e = 0).
  { intros e [E|[E|[]]]; subst e; exact Hz. }
  assert (H2 : exists r, SOMM.find_hand_position_v2 two_cells (0, 0) 2 = Ok r).
  { eexists. eapply v2_of_scan.
    - exact two_cells_coords.
    - lia.
    - apply two_cells_scan.
    - reflexivity.
    - intros e [E|[E|[]]]; subst e; simpl; auto. }
  assert (H3 : SOMM.find_hand_position_v3 two_cells (0, 0) 2 =
               Raise ZeroDivisionError).
  { eapply v3_of_scan_zero.
    - assert (H : (1 <= 2)%Z) by lia. exact H.
    - apply two_cells_scan.
    - reflexivity.
    - rewrite (total_dist_equal 0 _ 0 Heq). ring. }
  split; [eexists; split; [apply two_cells_scan | exact Heq]|].
  split; [exact H2|]. split; [exact H3|].
  destruct H2 as [r Hr]. rewrite H3, Hr. discriminate.
Qed.

Lemma knn_scan_k_nearest_example :
  has_motor_coords two_cells /\
  (1 <= 2 <= Z.of_nat (length (concat two_cells)))%Z /\
  exists cv, SOMM.knn_scan two_cells (1, 0) 2 = Ok cv /\ length cv = 2%nat.
Proof.
  split; [exact (has_output_motor _ two_cells_coords)|]. split; [simpl; lia|].
  assert (Hk : (1 <= 2 <= Z.of_nat (length (concat two_cells)))%Z)
    by (simpl; lia).
  destruct (knn_scan_k_nearest two_cells (1, 0) 2
              (has_output_motor _ two_cells_coords) Hk)
    as (cv & H1 & H2 & _).
  exists cv. split; [exact H1 | lia].
Defined.

(** * Values of k outside the admitted range *)

Lemma oie_ok {A : Type} (a : A) : only_index_error (Ok a).
Proof. intros e H. discriminate H. Qed.

Lemma oie_raise {A : Type} : only_index_error (@Raise A IndexError).
Proof. intros e H. inversion H. reflexivity. Qed.

Lemma oie_bind {A B : Type} (r : res A) (f : A -> res B) :
  only_index_error r -> (forall a, only_index_error (f a)) ->
  only_index_error (bind r f).
Proof.
  intros Hr Hf e H. destruct r as [a|e']; simpl in H.
  - exact (Hf a e H).
  - apply Hr. inversion H. reflexivity.
Qed.

Lemma oie_get {A : Type} (l : list A) i : only_index_error (Py.get l i).
Proof. unfold Py.get. destruct (nth_error l i); [apply oie_ok | apply oie_raise]. Qed.

Lemma oie_set {A : Type} (l : list A) i v : only_index_error (Py.set l i v).
Proof. unfold Py.set. destruct (i <? length l)%nat; [apply oie_ok | apply oie_raise]. Qed.

Lemma oie_norm_index len i : only_index_error (Py.norm_index len i).
Proof.
  unfold Py.norm_index. destruct (_ && _)%bool; [apply oie_ok | apply oie_raise].
Qed.

Lemma oie_get2 {A : Type} (m : list (list A)) i j : only_index_error (Py.get2 m i j).
Proof. apply oie_bind; [apply oie_get | intros; apply oie_get]. Qed.

Lemma oie_motor_dist n q : only_index_error (SOMM.motor_dist n q).
Proof.
  apply oie_bind; [apply oie_get|]. intros w0.
  apply oie_bind; [apply oie_get|]. intros w1. apply oie_ok.
Qed.

Lemma oie_weight_at m p c : only_index_error (SOMM.weight_at m p c).
Proof. apply oie_bind; [apply oie_get2 | intros; apply oie_get]. Qed.

Lemma oie_knn_body m q k i j cv :
  only_index_error (SOMM.knn_body m q k i j cv).
Proof.
  unfold SOMM.knn_body. destruct (_ <? _)%Z.
  - apply oie_bind; [apply oie_get2|]. intros n.
    apply oie_bind; [apply oie_motor_dist|]. intros d. apply oie_ok.
  - apply oie_bind; [apply oie_get2|]. intros n.
    apply oie_bind; [apply oie_motor_dist|]. intros d.
    apply oie_bind.
    { apply oie_bind; [apply oie_norm_index | intros; apply oie_get]. }
    intros w. destruct (Rlt_dec d (snd w)); [|apply oie_ok].
    apply oie_bind; [|intros; apply oie_ok].
    apply oie_bind; [apply oie_norm_index | intros; apply oie_set].
Qed.

Lemma oie_for_each {X S : Type} (xs : list X) (body : X -> S -> res S) s :
  (forall x s', only_index_error (body x s')) ->
  only_index_error (for_each xs body s).
Proof.
  intros H. revert s. induction xs as [|x xs IH]; intros s; simpl.
  - apply oie_ok.
  - apply oie_bind; [apply H | exact IH].
Qed.

Lemma oie_knn_scan m q k : only_index_error (SOMM.knn_scan m q k).
Proof.
  unfold SOMM.knn_scan. rewrite for_grid_cells. apply oie_for_each.
  intros p cv. apply oie_knn_body.
Qed.

(** A loop one of whose iterations cannot succeed raises [IndexError] when
    that is the only exception its body can raise. *)
Lemma for_each_stuck {X S : Type} (xs : list X) (body : X -> S -> res S) x s :
  (forall x' s', only_index_error (body x' s')) ->
  In x xs -> (forall s', body x s' = Raise IndexError) ->
  for_each xs body s = Raise IndexError.
Proof.
  intros Hoie Hin Hx. revert s. induction xs as [|x0 xs IH]; intros s; simpl.
  - contradiction.
  - destruct (body x0 s) as [s1|e] eqn:E; simpl.
    + destruct Hin as [E0|Hin]; [subst x0; rewrite Hx in E; discriminate|].
      apply IH, Hin.
    + f_equal. apply (Hoie x0 s). exact E.
Qed.

(** Partial-correctness loop rule. *)
Lemma for_each_post {X S : Type} (P : list X -> S -> Prop)
  (xs : list X) (body : X -> S -> res S) (s0 s' : S) :
  P [] s0 ->
  (forall done x s s1, P done s -> body x s = Ok s1 -> P (done ++ [x]) s1) ->
  for_each xs body s0 = Ok s' -> P xs s'.
Proof.
  intros H0 Hstep.
  assert (G : forall rest done s, xs = done ++ rest -> P done s ->
            for_each rest body s = Ok s' -> P xs s').
  { induction rest as [|x rest IH]; intros done s Hxs HP Hrun; simpl in Hrun.
    - inversion Hrun; subst. rewrite app_nil_r. exact HP.
    - apply bind_ok in Hrun. destruct Hrun as [s1 [Hb Hrun]].
      apply (IH (done ++ [x]) s1); [|eapply Hstep; eauto | exact Hrun].
      rewrite <- app_assoc. exact Hxs. }
  apply (G xs [] s0); [reflexivity | exact H0].
Qed.

Lemma sort_entries_length l : length (sort_entries l) = length l.
Proof.
  induction l as [|e l IH]; simpl; [reflexivity|].
  rewrite (Permutation_length (insert_entry_perm e (sort_entries l))).
  simpl. rewrite IH. reflexivity.
Qed.

Lemma setZ_length {A : Type} (l l' : list A) i v :
  Py.setZ l i v = Ok l' -> length l' = length l.
Proof.
  unfold Py.setZ. intros H. apply bind_ok in H. destruct H as [j [_ H]].
  unfold Py.set in H. destruct (j <? length l)%nat; [|discriminate].
  inversion H. apply replace_length.
Qed.

Lemma knn_body_length m q k i j cv cv' :
  SOMM.knn_body m q k i j cv = Ok cv' -> (length cv' <= S (length cv))%nat.
Proof.
  unfold SOMM.knn_body. intros H. destruct (_ <? _)%Z.
  - apply bind_ok in H. destruct H as [n [_ H]].
    apply bind_ok in H. destruct H as [d [_ H]]. inversion H.
    rewrite sort_entries_length, length_app. simpl. lia.
  - apply bind_ok in H. destruct H as [n [_ H]].
    apply bind_ok in H. destruct H as [d [_ H]].
    apply bind_ok in H. destruct H as [w [_ H]].
    destruct (Rlt_dec d (snd w)).
    + apply bind_ok in H. destruct H as [cv1 [H1 H]]. inversion H.
      rewrite sort_entries_length. rewrite (setZ_length _ _ _ _ H1). lia.
    + inversion H. lia.
Qed.

Lemma knn_scan_length m q k cv :
  SOMM.knn_scan m q k = Ok cv -> (length cv <= length (concat m))%nat.
Proof.
  unfold SOMM.knn_scan. rewrite for_grid_cells. intros H.
  rewrite <- (length_grid_cells_from m 0). fold (grid_cells m).
  apply (for_each_post
           (fun (done : list pos) (l : list entry) =>
              (length l <= length done)%nat)
           _ _ [] cv (Nat.le_refl 0)) in H; [exact H|].
  intros done p s s1 Hle Hb. apply knn_body_length in Hb.
  rewrite length_app. simpl. lia.
Qed.

Lemma knn_scan_k_below_one m q k :
  (k < 1)%Z -> grid_cells m <> [] ->
  SOMM.knn_scan m q k = Raise IndexError.
Proof.
  intros Hk Hne. unfold SOMM.knn_scan. rewrite for_grid_cells.
  destruct (grid_cells m) as [|[i j] rest] eqn:Ecells; [contradiction|].
  assert (Hin : In (i, j) (grid_cells m)) by (rewrite Ecells; left; reflexivity).
  apply in_grid_cells in Hin. destruct Hin as [n Hn].
  simpl. unfold SOMM.knn_body. simpl length.
  destruct (Z.of_nat 0 <? k)%Z eqn:E; [apply Z.ltb_lt in E; simpl in E; lia|].
  rewrite Hn. simpl.
  destruct (SOMM.motor_dist n q) as [d|e] eqn:Ed; simpl.
  - unfold Py.getZ, Py.norm_index. simpl length.
    destruct (k - 1 <? 0)%Z eqn:E1; [|apply Z.ltb_ge in E1; lia].
    destruct (0 <=? k - 1 + Z.of_nat 0)%Z eqn:E2;
      [apply Z.leb_le in E2; simpl in E2; lia|].
    reflexivity.
  - f_equal. exact (oie_motor_dist n q e Ed).
Qed.

Lemma uniform_loop_stuck m (cv : list entry) k s :
  (length cv < Z.to_nat k)%nat ->
  for_each (Py.rangeZ k)
    (fun i '(result_x, result_y) =>
       e <- Py.get cv i ;;
       wx <- SOMM.weight_at m (fst e) 2 ;;
       wy <- SOMM.weight_at m (fst e) 3 ;;
       Ok (result_x + wx, result_y + wy)) s = Raise IndexError.
Proof.
  intros Hlt. apply (for_each_stuck _ _ (length cv)).
  - intros i [rx ry]. apply oie_bind; [apply oie_get|]. intros e.
    apply oie_bind; [apply oie_weight_at|]. intros wx.
    apply oie_bind; [apply oie_weight_at|]. intros wy. apply oie_ok.
  - unfold Py.rangeZ. apply in_seq. lia.
  - intros [rx ry]. rewrite get_raise by lia. reflexivity.
Qed.

Lemma total_stuck (cv : list entry) k :
  (length cv < Z.to_nat k)%nat -> SOMM.total_of cv k = Raise IndexError.
Proof.
  intros Hlt. unfold SOMM.total_of. apply (for_each_stuck _ _ (length cv)).
  - intros i acc. apply oie_bind; [apply oie_get | intros; apply oie_ok].
  - unfold Py.rangeZ. apply in_seq. lia.
  - intros acc. rewrite get_raise by lia. reflexivity.
Qed.

Lemma v2_scan_raises m q k :
  SOMM.knn_scan m q k = Raise IndexError ->
  SOMM.find_hand_position_v2 m q k = Raise IndexError.
Proof. intros H. unfold SOMM.find_hand_position_v2. rewrite H. reflexivity. Qed.

Lemma v3_scan_raises m q k :
  SOMM.knn_scan m q k = Raise IndexError ->
  SOMM.find_hand_position_v3 m q k = Raise IndexError.
Proof. intros H. unfold SOMM.find_hand_position_v3. rewrite H. reflexivity. Qed.

Lemma v2_k_too_large m q k :
  (Z.of_nat (length (concat m)) < k)%Z ->
  SOMM.find_hand_position_v2 m q k = Raise IndexError.
Proof.
  intros Hk. destruct (SOMM.knn_scan m q k) as [cv|e] eqn:E.
  - pose proof (knn_scan_length m q k cv E) as Hlen.
    unfold SOMM.find_hand_position_v2. rewrite E. simpl.
    rewrite uniform_loop_stuck by lia. reflexivity.
  - apply v2_scan_raises. rewrite E. f_equal. exact (oie_knn_scan m q k e E).
Qed.

Lemma v3_k_too_large m q k :
  (Z.of_nat (length (concat m)) < k)%Z ->
  SOMM.find_hand_position_v3 m q k = Raise IndexError.
Proof.
  intros Hk. destruct (SOMM.knn_scan m q k) as [cv|e] eqn:E.
  - pose proof (knn_scan_length m q k cv E) as Hlen.
    unfold SOMM.find_hand_position_v3. rewrite E. simpl.
    rewrite total_stuck by lia. reflexivity.
  - apply v3_scan_raises. rewrite E. f_equal. exact (oie_knn_scan m q k e E).
Qed.

(** C8 (as amended).  The code has no dedicated check of [k]; what it raises
    is Python's [IndexError].  On a [rows] by [cols] map,
    [find_hand_position_v2] and [find_hand_position_v3] raise [IndexError]
    whenever [k > rows * cols], and, when the map has at least one
    prototype, whenever [k < 1]; the exception is the result of the call. *)
Theorem k_out_of_range_raises_index_error (m : list (list Neuron)) (q : point)
  (k : Z) (rows cols : nat) :
  grid_shape m rows cols ->
  ((k < 1)%Z /\ (0 < rows * cols)%nat) \/ (Z.of_nat (rows * cols) < k)%Z ->
  SOMM.find_hand_position_v2 m q k = Raise IndexError /\
  SOMM.find_hand_position_v3 m q k = Raise IndexError.
Proof.
  intros Hs Hk. pose proof (length_concat_grid m rows cols Hs) as Hlen.
  destruct Hk as [[Hk Hpos]|Hk].
  - assert (Hne : grid_cells m <> []).
    { intros E. pose proof (length_grid_cells_from m 0) as Hl.
      fold (grid_cells m) in Hl. rewrite E in Hl. simpl in Hl. lia. }
    pose proof (knn_scan_k_below_one m q k Hk Hne) as Hscan.
    split; [apply v2_scan_raises | apply v3_scan_raises]; exact Hscan.
  - rewrite <- Hlen in Hk.
    split; [apply v2_k_too_large | apply v3_k_too_large]; exact Hk.
Qed.

Lemma k_out_of_range_raises_index_error_example :
  grid_shape two_cells 1 2 /\
  (((0 < 1)%Z /\ (0 < 1 * 2)%nat) \/ (Z.of_nat (1 * 2) < 0)%Z) /\
  SOMM.find_hand_position_v2 two_cells (1, 0) 0 = Raise IndexError /\
  SOMM.find_hand_position_v3 two_cells (1, 0) 0 = Raise IndexError.
Proof.
  assert (Hs : grid_shape two_cells 1 2)
    by (split; [reflexivity | repeat constructor]).
  assert (Hk : ((0 < 1)%Z /\ (0 < 1 * 2)%nat) \/ (Z.of_nat (1 * 2) < 0)%Z)
    by (left; split; [lia | simpl; lia]).
  split; [exact Hs|]. split; [exact Hk|].
  exact (k_out_of_range_raises_index_error two_cells (1, 0) 0 1 2 Hs Hk).
Defined.

(** C8, the claim as stated fails: on the empty map every [k < 1] is below
    the admitted range, yet [find_hand_position_v2] with [k = -1] and
    [find_hand_position_v3] with [k = 0] return a result. *)
Lemma k_below_one_on_empty_map_returns :
  grid_shape (@nil (list Neuron)) 0 0 /\ (-1 < 1)%Z /\ (0 < 1)%Z /\
  SOMM.find_hand_position_v2 [] (0, 0) (-1) = Ok ([], (0 / -1, 0 / -1)) /\
  SOMM.find_hand_position_v3 [] (0, 0) 0 = Ok ([], (0, 0)).
Proof.
  split; [split; [reflexivity | constructor]|].
  split; [lia|]. split; [lia|]. split.
  - unfold SOMM.find_hand_position_v2, Py.div. cbn -[Rdiv IZR Req_dec_T].
    r_decide. reflexivity.
  - reflexivity.
Qed.

(** * Trajectories *)

Lemma for_each_collect {X Y : Type} (f : X -> res Y) (xs : list X) :
  forall acc,
  for_each xs (fun x hand_steps => r <- f x ;; Ok (hand_steps ++ [r])) acc =
  rs <- map_res f xs ;; Ok (acc ++ rs).
Proof.
  induction xs as [|x xs IH]; intros acc; simpl.
  - rewrite app_nil_r. reflexivity.
  - destruct (f x) as [r|e]; simpl; [|reflexivity].
    rewrite IH. destruct (map_res f xs) as [rs|e]; simpl; [|reflexivity].
    rewrite <- app_assoc. reflexivity.
Qed.

Lemma mouvement_unfold {A : Type} (inner final : point -> res A)
  from_pos to_pos nb_steps :
  SOMM.mouvement inner final from_pos to_pos nb_steps =
  hand_steps <-
    map_res (fun index =>
               p <- SOMM.interpolate from_pos to_pos nb_steps index ;; inner p)
      (Py.rangeZ (nb_steps - 1)) ;;
  pos_hand <- final to_pos ;;
  Ok (hand_steps ++ [pos_hand]).
Proof.
  unfold SOMM.mouvement.
  rewrite (for_each_ext _ _
             (fun index hand_steps =>
                r <- (p <- SOMM.interpolate from_pos to_pos nb_steps index ;;
                      inner p) ;;
                Ok (hand_steps ++ [r]))).
  2:{ intros i acc _.
      destruct (SOMM.interpolate from_pos to_pos nb_steps i); reflexivity. }
  rewrite for_each_collect. simpl.
  destruct to_pos as [tx ty]. simpl.
  destruct (map_res _ (Py.rangeZ (nb_steps - 1))); reflexivity.
Qed.

Lemma interpolate_ok from_pos to_pos nb_steps index :
  (2 <= nb_steps)%Z ->
  SOMM.interpolate from_pos to_pos nb_steps index =
  Ok (interp_point from_pos to_pos nb_steps index).
Proof.
  intros H. unfold SOMM.interpolate, Py.div.
  destruct (Req_dec_T (IZR (nb_steps - 1)) 0) as [E|_].
  { exfalso. apply (IZR_pos_neq (nb_steps - 1)); [lia | exact E]. }
  reflexivity.
Qed.

Lemma map_res_forall2 {X Y : Type} (f : X -> res Y) xs ys :
  map_res f xs = Ok ys -> Forall2 (fun x y0 => f x = Ok y0) xs ys.
Proof.
  revert ys; induction xs as [|x xs IH]; simpl; intros ys H.
  - inversion H. constructor.
  - apply bind_ok in H. destruct H as [y0 [H0 H]].
    apply bind_ok in H. destruct H as [ys' [H1 H2]].
    inversion H2; subst. constructor; [exact H0 | apply IH, H1].
Qed.

Lemma map_res_total {X Y : Type} (f : X -> res Y) xs :
  (forall x, In x xs -> exists y0, f x = Ok y0) ->
  exists ys, map_res f xs = Ok ys.
Proof.
  induction xs as [|x xs IH]; simpl; intros H.
  - eexists; reflexivity.
  - destruct (H x (or_introl eq_refl)) as [y0 Hy]. rewrite Hy. simpl.
    destruct IH as [ys Hys]; [intros x' Hx'; apply H; right; exact Hx'|].
    rewrite Hys. simpl. eexists; reflexivity.
Qed.

Lemma forall2_seq_nth {Y : Type} (P : nat -> Y -> Prop) :
  forall n a ys, Forall2 P (seq a n) ys ->
  length ys = n /\
  forall i y0, nth_error ys i = Some y0 -> P (a + i)%nat y0.
Proof.
  induction n as [|n IH]; intros a ys H; simpl in H.
  - inversion H; subst. split; [reflexivity|]. intros [|i] y0 Hy; discriminate.
  - inversion H as [|? y1 ? ys' Hp Hrest]; subst.
    destruct (IH (S a) ys' Hrest) as [Hl Hn]. split; [simpl; lia|].
    intros [|i] y0 Hy; simpl in Hy.
    + inversion Hy; subst. rewrite Nat.add_0_r. exact Hp.
    + replace (a + S i)%nat with (S a + i)%nat by lia. apply Hn, Hy.
Qed.

(** What a successful trajectory looks like, whatever the estimators. *)
Lemma mouvement_shape {A : Type} (inner final : point -> res A)
  from_pos to_pos nb_steps steps :
  SOMM.mouvement inner final from_pos to_pos nb_steps = Ok steps ->
  exists init last,
    steps = init ++ [last] /\
    final to_pos = Ok last /\
    length init = Z.to_nat (nb_steps - 1) /\
    forall index est, nth_error init index = Some est ->
      exists p, SOMM.interpolate from_pos to_pos nb_steps index = Ok p /\
                inner p = Ok est.
Proof.
  rewrite mouvement_unfold. intros H.
  apply bind_ok in H. destruct H as [init [Hinit H]].
  apply bind_ok in H. destruct H as [last [Hlast H]].
  inversion H; subst. exists init, last.
  split; [reflexivity|]. split; [exact Hlast|].
  apply map_res_forall2 in Hinit. unfold Py.rangeZ in Hinit.
  apply forall2_seq_nth in Hinit. destruct Hinit as [Hl Hn].
  split; [exact Hl|]. intros index est Hi. specialize (Hn index est Hi).
  simpl in Hn. apply bind_ok in Hn. exact Hn.
Qed.

(** A trajectory succeeds when the estimators succeed at every query. *)
Lemma mouvement_total {A : Type} (inner final : point -> res A)
  from_pos to_pos nb_steps :
  (forall index p, (index < Z.to_nat (nb_steps - 1))%nat ->
     SOMM.interpolate from_pos to_pos nb_steps index = Ok p ->
     exists r, inner p = Ok r) ->
  (forall index, (index < Z.to_nat (nb_steps - 1))%nat ->
     exists p, SOMM.interpolate from_pos to_pos nb_steps index = Ok p) ->
  (exists r, final to_pos = Ok r) ->
  exists steps, SOMM.mouvement inner final from_pos to_pos nb_steps = Ok steps.
Proof.
  intros Hinner Hinterp [last Hlast]. rewrite mouvement_unfold.
  destruct (map_res_total
              (fun index =>
                 p <- SOMM.interpolate from_pos to_pos nb_steps index ;; inner p)
              (Py.rangeZ (nb_steps - 1))) as [init Hinit].
  { intros i Hi. unfold Py.rangeZ in Hi. apply in_seq in Hi.
    destruct (Hinterp i) as [p Hp]; [lia|]. rewrite Hp. simpl.
    apply (Hinner i); [lia | exact Hp]. }
  rewrite Hinit. simpl. rewrite Hlast. simpl. eexists; reflexivity.
Qed.

(** ** Totality of the estimators *)

Lemma v1_total m q :
  has_output_coords m -> (exists n0, Py.get2 m 0 0 = Ok n0) ->
  exists r, SOMM.find_hand_position_v1 m q = Ok r.
Proof.
  intros Hm Ho.
  destruct (v1_scan_knn1 m q (has_output_motor m Hm) Ho) as (p & d & H1 & _ & Hp).
  destruct (v1_of_scan m q d p Hm H1 Hp)
    as (n & w0 & w1 & w2 & w3 & _ & _ & _ & _ & _ & H).
  eexists. exact H.
Qed.

Lemma v2_total m q k :
  has_output_coords m -> (1 <= k <= Z.of_nat (length (concat m)))%Z ->
  exists r, SOMM.find_hand_position_v2 m q k = Ok r.
Proof.
  intros Hm [Hk1 Hk2].
  destruct (knn_scan_inv m q k Hk1 (has_output_motor m Hm))
    as [cv [Hscan (Hlen & _ & Hsrc & _)]].
  eexists. apply (v2_of_scan m q k cv Hm Hk1 Hscan).
  - rewrite Hlen. unfold grid_cells. rewrite length_grid_cells_from. lia.
  - intros e He. apply Hsrc, He.
Qed.

Lemma dist_at_nonneg m q p : 0 <= dist_at m q p.
Proof.
  unfold dist_at. destruct (Py.get2 m (fst p) (snd p)) as [n|e]; simpl; [|lra].
  unfold SOMM.motor_dist.
  destruct (Py.get (weights n) 0); simpl; [|lra].
  destruct (Py.get (weights n) 1); simpl; [|lra].
  apply sqrt_pos.
Qed.

Lemma total_dist_pos cv :
  (forall e, In e cv -> 0 < snd e) ->
  forall a, a <= total_dist cv a /\ (cv <> [] -> a < total_dist cv a).
Proof.
  unfold total_dist. induction cv as [|e cv IH]; intros H a; cbn [fold_left].
  - split; [lra | intros C; contradiction C; reflexivity].
  - pose proof (H e (or_introl eq_refl)) as He.
    destruct (IH (fun e' He' => H e' (or_intror He')) (a + snd e)) as [H1 _].
    split; [lra | intros _; lra].
Qed.

Lemma v3_total m q k :
  has_output_coords m -> (2 <= k <= Z.of_nat (length (concat m)))%Z ->
  (forall p, In p (grid_cells m) -> dist_at m q p <> 0) ->
  exists r, SOMM.find_hand_position_v3 m q k = Ok r.
Proof.
  intros Hm [Hk1 Hk2] Hnz.
  assert (Hk : (1 <= k)%Z) by lia.
  destruct (knn_scan_inv m q k Hk (has_output_motor m Hm))
    as [cv [Hscan (Hlen & _ & Hsrc & _)]].
  assert (Hlen' : Z.to_nat k = length cv).
  { rewrite Hlen. unfold grid_cells. rewrite length_grid_cells_from. lia. }
  eexists. apply (v3_of_scan m q k cv Hm Hk1 Hscan Hlen').
  - intros e He. apply Hsrc, He.
  - assert (Hpos : forall e, In e cv -> 0 < snd e).
    { intros e He. destruct (Hsrc e He) as [H1 H2]. rewrite H2.
      pose proof (dist_at_nonneg m q (fst e)). specialize (Hnz _ H1). lra. }
    destruct (total_dist_pos cv Hpos 0) as [_ H].
    assert (Hne : cv <> []).
    { intros E. rewrite E in Hlen'. simpl in Hlen'. lia. }
    specialize (H Hne). lra.
Qed.

Lemma v2_positions_length m q k r :
  SOMM.find_hand_position_v2 m q k = Ok r -> length (fst r) = Z.to_nat k.
Proof.
  unfold SOMM.find_hand_position_v2. intros H.
  apply bind_ok in H. destruct H as [cv [_ H]].
  apply bind_ok in H. destruct H as [[rx ry] [_ H]].
  apply bind_ok in H. destruct H as [rx' [_ H]].
  apply bind_ok in H. destruct H as [ry' [_ H]].
  apply bind_ok in H. destruct H as [ps [Hps H]].
  inversion H; subst. simpl. apply map_res_length in Hps.
  rewrite Hps. unfold Py.rangeZ. apply length_seq.
Qed.

Lemma v3_positions_length m q k r :
  SOMM.find_hand_position_v3 m q k = Ok r -> length (fst r) = Z.to_nat k.
Proof.
  unfold SOMM.find_hand_position_v3. intros H.
  apply bind_ok in H. destruct H as [cv [_ H]].
  apply bind_ok in H. destruct H as [total [_ H]].
  apply bind_ok in H. destruct H as [[rx ry] [_ H]].
  apply bind_ok in H. destruct H as [ps [Hps H]].
  inversion H; subst. simpl. apply map_res_length in Hps.
  rewrite Hps. unfold Py.rangeZ. apply length_seq.
Qed.

(** C9.  For [nb_steps >= 2], on a map whose prototypes have four
    coordinates and whose cell [(0, 0)] exists, [mouvement_v1] returns
    exactly [nb_steps] points: for [index = 0 .. nb_steps - 2] the estimate of
    [find_hand_position_v1] at the point interpolated with the fraction
    [index / (nb_steps - 1)], which lies in [0, 1) and gives [from_pos]
    itself for [index = 0], followed by the estimate at [to_pos]; with
    [nb_steps = 2] these are the estimates at [from_pos] and at [to_pos]. *)
Theorem mouvement_v1_steps (m : list (list Neuron)) (from_pos to_pos : point)
  (nb_steps : Z) :
  (2 <= nb_steps)%Z ->
  has_output_coords m -> (exists n0, Py.get2 m 0 0 = Ok n0) ->
  exists steps,
    SOMM.mouvement_v1 m from_pos to_pos nb_steps = Ok steps /\
    length steps = Z.to_nat nb_steps /\
    (forall index, (index < Z.to_nat (nb_steps - 1))%nat ->
       0 <= INR index / IZR (nb_steps - 1) < 1 /\
       exists est,
         SOMM.find_hand_position_v1 m
           (fst from_pos +
              INR index / IZR (nb_steps - 1) * (fst to_pos - fst from_pos),
            snd from_pos +
              INR index / IZR (nb_steps - 1) * (snd to_pos - snd from_pos))
         = Ok est /\
         nth_error steps index = Some est) /\
    interp_point from_pos to_pos nb_steps 0 = from_pos /\
    (exists est,
       SOMM.find_hand_position_v1 m to_pos = Ok est /\
       nth_error steps (Z.to_nat (nb_steps - 1)) = Some est) /\
    (nb_steps = 2%Z ->
     exists e1 e2,
       SOMM.find_hand_position_v1 m from_pos = Ok e1 /\
       SOMM.find_hand_position_v1 m to_pos = Ok e2 /\
       steps = [e1; e2]).
Proof.
  intros Hn Hm Ho.
  assert (Hfrom : interp_point from_pos to_pos nb_steps 0 = from_pos).
  { unfold interp_point. destruct from_pos as [fx fy]. simpl.
    f_equal; unfold Rdiv; ring. }
  destruct (mouvement_total (SOMM.find_hand_position_v1 m)
              (SOMM.find_hand_position_v1 m) from_pos to_pos nb_steps)
    as [steps Hsteps].
  { intros index p _ _. apply v1_total; assumption. }
  { intros index _. eexists. apply interpolate_ok. exact Hn. }
  { apply v1_total; assumption. }
  destruct (mouvement_shape _ _ _ _ _ _ Hsteps)
    as (init & last & E & Hlast & Hlen & Hinit).
  assert (Hnth : forall index, (index < Z.to_nat (nb_steps - 1))%nat ->
            exists est,
              SOMM.find_hand_position_v1 m
                (interp_point from_pos to_pos nb_steps index) = Ok est /\
              nth_error steps index = Some est).
  { intros index Hi.
    destruct (nth_error init index) as [est|] eqn:En.
    - destruct (Hinit index est En) as [p [Hp Hest]].
      rewrite interpolate_ok in Hp by exact Hn. inversion Hp; subst p.
      exists est. split; [exact Hest|]. rewrite E.
      rewrite nth_error_app1 by lia. exact En.
    - apply nth_error_None in En. lia. }
  exists steps. unfold SOMM.mouvement_v1. split; [exact Hsteps|].
  split; [rewrite E, length_app; simpl; lia|].
  split.
  { intros index Hi. split; [|apply (Hnth index Hi)].
    assert (Hd : 0 < IZR (nb_steps - 1)) by (apply IZR_lt; lia).
    assert (Hi' : INR index < IZR (nb_steps - 1)).
    { rewrite INR_IZR_INZ. apply IZR_lt. lia. }
    pose proof (pos_INR index) as Hp.
    split.
    - apply Rmult_le_pos; [exact Hp | left; apply Rinv_0_lt_compat; exact Hd].
    - apply (Rmult_lt_reg_r (IZR (nb_steps - 1))); [exact Hd|].
      unfold Rdiv. rewrite Rmult_assoc, Rinv_l by lra. lra. }
  split; [exact Hfrom|].
  split.
  { exists last. split; [exact Hlast|]. rewrite E.
    rewrite nth_error_app2 by lia. rewrite Hlen, Nat.sub_diag. reflexivity. }
  intros E2. subst nb_steps.
  destruct (Hnth 0%nat) as [e1 [He1 Hn1]]; [simpl; lia|].
  rewrite Hfrom in He1. exists e1, last.
  split; [exact He1|]. split; [exact Hlast|].
  rewrite E in *. destruct init as [|a [|b init]]; simpl in Hlen; try discriminate.
  simpl in Hn1. inversion Hn1. reflexivity.
Qed.

Lemma mouvement_v1_steps_example :
  (2 <= 2)%Z /\ has_output_coords two_cells /\
  (exists n0, Py.get2 two_cells 0 0 = Ok n0) /\
  exists e1 e2,
    SOMM.find_hand_position_v1 two_cells (1, 0) = Ok e1 /\
    SOMM.find_hand_position_v1 two_cells (2, 0) = Ok e2 /\
    SOMM.mouvement_v1 two_cells (1, 0) (2, 0) 2 = Ok [e1; e2].
Proof.
  assert (H2 : (2 <= 2)%Z) by lia.
  split; [exact H2|]. split; [exact two_cells_coords|].
  split; [eexists; reflexivity|].
  destruct (mouvement_v1_steps two_cells (1, 0) (2, 0) 2 H2 two_cells_coords
              (ex_intro _ _ eq_refl))
    as (steps & Hs & _ & _ & _ & _ & Htwo).
  destruct (Htwo eq_refl) as (e1 & e2 & H1 & H3 & E).
  exists e1, e2. rewrite <- E. auto.
Defined.

Lemma mouvement_k4_k3_shape (est : point -> Z -> res (list pos * point))
  from_pos to_pos nb_steps steps :
  (forall p k r, est p k = Ok r -> length (fst r) = Z.to_nat k) ->
  SOMM.mouvement (fun p => est p 4%Z) (fun p => est p 3%Z)
    from_pos to_pos nb_steps = Ok steps ->
  k4_then_k3 est from_pos to_pos nb_steps steps.
Proof.
  intros Hlen H. apply mouvement_shape in H.
  destruct H as (init & last & E & Hlast & Hl & Hinit).
  exists init, last. split; [exact E|]. split; [exact Hl|].
  split.
  { intros index e He. destruct (Hinit index e He) as [p [Hp Hest]].
    exists p. split; [exact Hp|]. split; [exact Hest|].
    apply (Hlen p 4%Z e Hest). }
  split; [exact Hlast|].
  split; [apply (Hlen to_pos 3%Z last Hlast)|].
  intros r4 H4 Eq. subst r4.
  pose proof (Hlen to_pos 3%Z last Hlast) as L3.
  pose proof (Hlen to_pos 4%Z last H4) as L4.
  rewrite L3 in L4. discriminate L4.
Qed.

(** C10.  Whenever [mouvement_v2] or [mouvement_v3] returns, every point
    before the last is the estimate with [nb_values = 4] at the interpolated
    query point (four positions), and the last point is the estimate with
    [nb_values = 3] at [to_pos] (three positions), hence not the estimate
    with [nb_values = 4] at [to_pos].  On a map of at least four prototypes
    with four coordinates [mouvement_v2] does return, and so does
    [mouvement_v3] when no prototype lies exactly at a query point. *)
Theorem mouvement_k4_then_k3 (m : list (list Neuron)) (from_pos to_pos : point)
  (nb_steps : Z) :
  (forall steps,
     SOMM.mouvement_v2 m from_pos to_pos nb_steps = Ok steps ->
     k4_then_k3 (SOMM.find_hand_position_v2 m) from_pos to_pos nb_steps steps) /\
  (forall steps,
     SOMM.mouvement_v3 m from_pos to_pos nb_steps = Ok steps ->
     k4_then_k3 (SOMM.find_hand_position_v3 m) from_pos to_pos nb_steps steps) /\
  (has_output_coords m -> (4 <= length (concat m))%nat ->
   (exists steps, SOMM.mouvement_v2 m from_pos to_pos nb_steps = Ok steps) /\
   ((forall index p,
       (index < Z.to_nat (nb_steps - 1))%nat -> In p (grid_cells m) ->
       dist_at m (interp_point from_pos to_pos nb_steps index) p <> 0) ->
    (forall p, In p (grid_cells m) -> dist_at m to_pos p <> 0) ->
    exists steps, SOMM.mouvement_v3 m from_pos to_pos nb_steps = Ok steps)).
Proof.
  split; [|split].
  - intros steps H. apply mouvement_k4_k3_shape; [|exact H].
    intros p k r. apply v2_positions_length.
  - intros steps H. apply mouvement_k4_k3_shape; [|exact H].
    intros p k r. apply v3_positions_length.
  - intros Hm Hc. split.
    + apply mouvement_total.
      * intros index p _ _. apply v2_total; [exact Hm | lia].
      * intros index Hi. eexists. apply interpolate_ok. lia.
      * apply v2_total; [exact Hm | lia].
    + intros Hmid Hend. apply mouvement_total.
      * intros index p Hi Hp. rewrite interpolate_ok in Hp by lia.
        inversion Hp; subst p. apply v3_total; [exact Hm | lia |].
        intros c Hcell. apply Hmid; assumption.
      * intros index Hi. eexists. apply interpolate_ok. lia.
      * apply v3_total; [exact Hm | lia | exact Hend].
Qed.

Lemma four_cells_coords : has_output_coords four_cells.
Proof. repeat constructor; simpl; lia. Qed.

Lemma sqrt_sum_sq_nonzero a b : a <> 0 -> sqrt (a ^ 2 + b ^ 2) <> 0.
Proof.
  intros Ha Hs. pose proof (pow2_ge_0 a) as H1. pose proof (pow2_ge_0 b) as H2.
  apply sqrt_eq_0 in Hs; [|lra].
  assert (E : a ^ 2 = 0) by lra. exact (pow_nonzero a 2 Ha E).
Qed.

Lemma four_cells_far q p :
  0 < fst q -> In p (grid_cells four_cells) -> dist_at four_cells q p <> 0.
Proof.
  intros Hq Hp. simpl in Hp.
  destruct Hp as [E|[E|[E|[E|[]]]]]; subst p; unfold dist_at;
    cbn -[sqrt pow Rminus Rplus]; apply sqrt_sum_sq_nonzero; lra.
Qed.

Lemma mouvement_k4_then_k3_example :
  has_output_coords four_cells /\ (4 <= length (concat four_cells))%nat /\
  (exists steps, SOMM.mouvement_v2 four_cells (1, 0) (2, 0) 3 = Ok steps) /\
  (exists steps, SOMM.mouvement_v3 four_cells (1, 0) (2, 0) 3 = Ok steps).
Proof.
  assert (Hc : (4 <= length (concat four_cells))%nat) by (simpl; lia).
  split; [exact four_cells_coords|]. split; [exact Hc|].
  destruct (mouvement_k4_then_k3 four_cells (1, 0) (2, 0) 3) as (_ & _ & H).
  destruct (H four_cells_coords Hc) as [H2 H3].
  split; [exact H2|]. apply H3.
  - intros index p Hi Hp. apply four_cells_far; [|exact Hp].
    unfold interp_point. simpl fst.
    pose proof (pos_INR index) as Hpos.
    assert (Hd : 0 <= INR index / IZR (3 - 1)).
    { apply Rmult_le_pos; [exact Hpos|]. left. apply Rinv_0_lt_compat.
      apply IZR_lt. lia. }
    nra.
  - intros p Hp. apply four_cells_far; [simpl; lra | exact Hp].
Defined.

(** * Dispersion *)

Lemma sum_over_app {X : Type} (f : X -> R) xs ys :
  sum_over f (xs ++ ys) = sum_over f xs + sum_over f ys.
Proof.
  unfold sum_over. induction xs as [|x xs IH]; simpl; [ring|].
  rewrite IH. ring.
Qed.

Lemma sum_over_map {X Y : Type} (f : Y -> R) (h : X -> Y) xs :
  sum_over f (List.map h xs) = sum_over (fun x => f (h x)) xs.
Proof.
  unfold sum_over. induction xs as [|x xs IH]; simpl; [reflexivity|].
  rewrite IH. reflexivity.
Qed.

Lemma sum_over_flat_map {X Y : Type} (f : Y -> R) (h : X -> list Y) xs :
  sum_over f (flat_map h xs) = sum_over (fun x => sum_over f (h x)) xs.
Proof.
  induction xs as [|x xs IH]; simpl; [reflexivity|].
  rewrite sum_over_app, IH. reflexivity.
Qed.

Lemma sum_over_ext {X : Type} (f g : X -> R) xs :
  (forall x, In x xs -> f x = g x) -> sum_over f xs = sum_over g xs.
Proof.
  unfold sum_over. induction xs as [|x xs IH]; simpl; intros H; [reflexivity|].
  rewrite (H x (or_introl eq_refl)), IH; [reflexivity|].
  intros x' Hx'. apply H. right; exact Hx'.
Qed.

Lemma sum_over_plus {X : Type} (f g : X -> R) xs :
  sum_over (fun x => f x + g x) xs = sum_over f xs + sum_over g xs.
Proof.
  unfold sum_over. induction xs as [|x xs IH]; simpl; [ring|].
  rewrite IH. ring.
Qed.

Lemma sum_over_zero {X : Type} (xs : list X) : sum_over (fun _ => 0) xs = 0.
Proof.
  unfold sum_over. induction xs as [|x xs IH]; simpl; [reflexivity|].
  rewrite IH. ring.
Qed.

Lemma sum_over_if {X : Type} (c : bool) (f : X -> R) xs :
  sum_over (fun x => if c then f x else 0) xs =
  if c then sum_over f xs else 0.
Proof. destruct c; [reflexivity | apply sum_over_zero]. Qed.

Lemma sum_over_seq_shift (f : nat -> R) a n :
  sum_over f (seq (S a) n) = sum_over (fun i => f (S i)) (seq a n).
Proof. rewrite <- seq_shift, sum_over_map. reflexivity. Qed.

(** Along a line, the program's terms count every adjacent pair once and
    the pair between cells 0 and 1 once more. *)
Lemma line_sum (n : nat) (g : nat -> R) :
  sum_over (line_term n g) (seq 0 n) =
  sum_over (fun i => if (S i <? n)%nat then g i else 0) (seq 0 n) +
  (if (2 <=? n)%nat then g 0%nat else 0).
Proof.
  destruct n as [|r].
  - simpl. ring.
  - assert (L : sum_over (line_term (S r) g) (seq 0 (S r)) =
                (if (2 <=? S r)%nat then g 0%nat else 0) + sum_over g (seq 0 r)).
    { change (seq 0 (S r)) with (0%nat :: seq 1 r).
      unfold sum_over at 1. cbn [fold_right]. fold (sum_over (line_term (S r) g) (seq 1 r)).
      rewrite sum_over_seq_shift. f_equal.
      apply sum_over_ext. intros i _. unfold line_term. simpl.
      rewrite Nat.sub_0_r. reflexivity. }
    assert (Rr : sum_over (fun i => if (S i <? S r)%nat then g i else 0)
                   (seq 0 (S r)) = sum_over g (seq 0 r)).
    { rewrite seq_S, sum_over_app. simpl seq.
      unfold sum_over at 2. cbn [fold_right Nat.add].
      rewrite (proj2 (Nat.ltb_ge (S r) (S r)) (Nat.le_refl _)).
      rewrite (sum_over_ext _ g).
      - ring.
      - intros i Hi. apply in_seq in Hi.
        rewrite (proj2 (Nat.ltb_lt (S i) (S r))) by lia. reflexivity. }
    rewrite L, Rr. ring.
Qed.

Lemma line_term_sum {X : Type} (n : nat) (g : X -> nat -> R) (i : nat) xs :
  sum_over (fun x => line_term n (g x) i) xs =
  line_term n (fun i' => sum_over (fun x => g x i') xs) i.
Proof.
  unfold line_term. destruct (i =? 0)%nat; [|reflexivity].
  apply sum_over_if.
Qed.

Lemma coords_at m i j n :
  has_motor_coords m -> Py.get2 m i j = Ok n -> (2 <= length (weights n))%nat.
Proof.
  intros Hm Hn. destruct (get2_in _ _ _ _ Hn) as [row [H1 H2]].
  unfold has_motor_coords in Hm. rewrite Forall_forall in Hm.
  specialize (Hm row H1). rewrite Forall_forall in Hm. apply Hm, H2.
Qed.

Lemma sq_diff_ok a b :
  (2 <= length (weights a))%nat -> (2 <= length (weights b))%nat ->
  exists d, SOMM.sq_diff a b = Ok d.
Proof.
  intros Ha Hb. unfold SOMM.sq_diff.
  destruct (get_lt (weights a) 0) as [a0 H0]; [lia|].
  destruct (get_lt (weights a) 1) as [a1 H1]; [lia|].
  destruct (get_lt (weights b) 0) as [b0 H2]; [lia|].
  destruct (get_lt (weights b) 1) as [b1 H3]; [lia|].
  rewrite H0, H2, H1, H3. simpl. eexists; reflexivity.
Qed.

Lemma sq_pair_ok m rows cols i j i' j' acc :
  grid_shape m rows cols -> has_motor_coords m ->
  (i < rows)%nat -> (j < cols)%nat -> (i' < rows)%nat -> (j' < cols)%nat ->
  (a <- Py.get2 m i j ;; b <- Py.get2 m i' j' ;;
   d <- SOMM.sq_diff a b ;; Ok (acc + d)) =
  Ok (acc + sq_at m (i, j) (i', j')).
Proof.
  intros Hs Hm Hi Hj Hi' Hj'.
  destruct (grid_shape_get2 m rows cols i j Hs Hi Hj) as [a Ha].
  destruct (grid_shape_get2 m rows cols i' j' Hs Hi' Hj') as [b Hb].
  destruct (sq_diff_ok a b (coords_at _ _ _ _ Hm Ha) (coords_at _ _ _ _ Hm Hb))
    as [d Hd].
  unfold sq_at. simpl. rewrite Ha, Hb. simpl. rewrite Hd. reflexivity.
Qed.

Lemma neighbor_distance_ok m rows cols i j :
  grid_shape m rows cols -> has_motor_coords m ->
  (i < rows)%nat -> (j < cols)%nat ->
  SOMM.get_distance_with_neighbor m i j =
  Ok (0 + line_term rows (fun i' => sq_at m (i', j) (S i', j)) i
        + line_term cols (fun j' => sq_at m (i, j') (i, S j')) j).
Proof.
  intros Hs Hm Hi Hj. unfold SOMM.get_distance_with_neighbor, line_term.
  pose proof Hs as [Hlen Hrows].
  assert (Hfirst :
    (if negb (i =? 0)%nat
     then a <- Py.get2 m (i - 1) j ;; b <- Py.get2 m i j ;;
          d <- SOMM.sq_diff a b ;; Ok (0 + d)
     else if negb (Z.of_nat i =? Z.of_nat (length m) - 1)%Z
          then a <- Py.get2 m i j ;; b <- Py.get2 m (i + 1) j ;;
               d <- SOMM.sq_diff a b ;; Ok (0 + d)
          else Ok 0) =
    Ok (0 + (if (i =? 0)%nat
             then if (2 <=? rows)%nat then sq_at m (0%nat, j) (1%nat, j) else 0
             else sq_at m ((i - 1)%nat, j) (S (i - 1), j)))).
  { destruct (i =? 0)%nat eqn:E0; cbn [negb].
    - apply Nat.eqb_eq in E0. subst i. rewrite Hlen.
      destruct (2 <=? rows)%nat eqn:E2.
      + apply Nat.leb_le in E2.
        destruct (Z.of_nat 0 =? Z.of_nat rows - 1)%Z eqn:Ez;
          [apply Z.eqb_eq in Ez; lia|]. cbn [negb Nat.add].
        apply (sq_pair_ok m rows cols); auto; lia.
      + apply Nat.leb_gt in E2.
        destruct (Z.of_nat 0 =? Z.of_nat rows - 1)%Z eqn:Ez;
          [|apply Z.eqb_neq in Ez; lia]. cbn [negb]. f_equal. ring.
    - apply Nat.eqb_neq in E0.
      replace (S (i - 1)) with i by lia.
      apply (sq_pair_ok m rows cols); auto; lia. }
  rewrite Hfirst. cbn [bind].
  destruct (j =? 0)%nat eqn:E0; cbn [negb].
  - apply Nat.eqb_eq in E0. subst j.
    destruct (get_lt m i) as [row Hr]; [lia|]. rewrite Hr. cbn [bind].
    assert (Hrl : length row = cols).
    { rewrite Forall_forall in Hrows. apply Hrows.
      apply get_some in Hr. eapply nth_error_In; eauto. }
    rewrite Hrl.
    destruct (2 <=? cols)%nat eqn:E2.
    + apply Nat.leb_le in E2.
      destruct (Z.of_nat 0 =? Z.of_nat cols - 1)%Z eqn:Ez;
        [apply Z.eqb_eq in Ez; lia|]. cbn [negb Nat.add].
      apply (sq_pair_ok m rows cols); auto; lia.
    + apply Nat.leb_gt in E2.
      destruct (Z.of_nat 0 =? Z.of_nat cols - 1)%Z eqn:Ez;
        [|apply Z.eqb_neq in Ez; lia]. cbn [negb]. f_equal. ring.
  - apply Nat.eqb_neq in E0.
    replace (S (j - 1)) with j by lia.
    apply (sq_pair_ok m rows cols); auto; lia.
Qed.

Lemma grid_cells_from_range {A : Type} (m : list (list A)) cols :
  Forall (fun row => length row = cols) m ->
  forall k,
  grid_cells_from k m =
  flat_map (fun i => List.map (fun j => (i, j)) (seq 0 cols)) (seq k (length m)).
Proof.
  induction m as [|row m IH]; intros Hf k; simpl.
  - reflexivity.
  - inversion Hf as [|? ? Hr Hm]; subst. rewrite IH by exact Hm. reflexivity.
Qed.

Lemma grid_cells_range {A : Type} (m : list (list A)) rows cols :
  grid_shape m rows cols -> grid_cells m = range_cells rows cols.
Proof.
  intros [Hl Hf]. subst rows. apply grid_cells_from_range. exact Hf.
Qed.

Lemma for_each_sum {X : Type} (f : X -> res R) (g : X -> R) xs :
  (forall x, In x xs -> f x = Ok (g x)) ->
  forall a,
  for_each xs (fun x acc => d <- f x ;; Ok (acc + d)) a =
  Ok (a + sum_over g xs).
Proof.
  induction xs as [|x xs IH]; intros H a; simpl.
  - f_equal. ring.
  - rewrite (H x (or_introl eq_refl)). simpl.
    rewrite IH by (intros x' Hx'; apply H; right; exact Hx').
    f_equal. unfold sum_over. simpl. ring.
Qed.

(** The value of [get_map_dispertion] on a rectangular map. *)
Lemma dispersion_closed_form m rows cols :
  grid_shape m rows cols -> has_motor_coords m ->
  SOMM.get_map_dispertion m =
  Ok (forward_dispersion m rows cols + first_row_pairs m rows cols
      + first_col_pairs m rows cols).
Proof.
  intros Hs Hm. unfold SOMM.get_map_dispertion. rewrite for_grid_cells.
  rewrite (grid_cells_range m rows cols Hs).
  rewrite (for_each_sum _
             (fun p =>
                0 + line_term rows (fun i' => sq_at m (i', snd p) (S i', snd p)) (fst p)
                  + line_term cols (fun j' => sq_at m (fst p, j') (fst p, S j')) (snd p))).
  2:{ intros [i j] Hp. apply in_range_cells in Hp. simpl in Hp. simpl.
      apply (neighbor_distance_ok m rows cols); tauto. }
  f_equal. unfold range_cells, Py.range.
  rewrite sum_over_flat_map.
  rewrite (sum_over_ext _
             (fun i =>
                sum_over (fun j => line_term rows (fun i' => sq_at m (i', j) (S i', j)) i)
                  (seq 0 cols) +
                sum_over (line_term cols (fun j' => sq_at m (i, j') (i, S j')))
                  (seq 0 cols))).
  2:{ intros i _. rewrite sum_over_map. simpl. rewrite <- sum_over_plus.
      apply sum_over_ext. intros j _. ring. }
  rewrite sum_over_plus.
  (* rows *)
  rewrite (sum_over_ext _
             (line_term rows
                (fun i' => sum_over (fun j => sq_at m (i', j) (S i', j)) (seq 0 cols)))).
  2:{ intros i _. apply (line_term_sum rows (fun j i' => sq_at m (i', j) (S i', j))). }
  rewrite line_sum.
  (* columns *)
  rewrite (sum_over_ext
             (fun i => sum_over (line_term cols (fun j' => sq_at m (i, j') (i, S j')))
                         (seq 0 cols))
             (fun i =>
                sum_over (fun j => if (S j <? cols)%nat
                                   then sq_at m (i, j) (i, S j) else 0) (seq 0 cols) +
                (if (2 <=? cols)%nat then sq_at m (i, 0%nat) (i, 1%nat) else 0))).
  2:{ intros i _. apply line_sum. }
  rewrite sum_over_plus, sum_over_if.
  unfold forward_dispersion, first_row_pairs, first_col_pairs.
  rewrite (sum_over_ext
             (fun i => sum_over
                         (fun j =>
                            (if (S i <? rows)%nat then sq_at m (i, j) (S i, j) else 0) +
                            (if (S j <? cols)%nat then sq_at m (i, j) (i, S j) else 0))
                         (seq 0 cols))
             (fun i =>
                (if (S i <? rows)%nat
                 then sum_over (fun j => sq_at m (i, j) (S i, j)) (seq 0 cols) else 0) +
                sum_over (fun j => if (S j <? cols)%nat
                                   then sq_at m (i, j) (i, S j) else 0) (seq 0 cols))).
  2:{ intros i _. rewrite sum_over_plus, sum_over_if. reflexivity. }
  rewrite sum_over_plus. ring.
Qed.

(** C4 (as amended).  On a rectangular map whose prototypes have the two
    motor coordinates, a prototype contributes the squared difference
    against its neighbour in the previous row, or against the one in the
    next row when it is in row 0 and the map has a second row, and likewise
    for columns.  The total returned by [get_map_dispertion] is therefore the
    sum over all adjacent pairs, each counted once, plus once more the pairs
    between rows 0 and 1 and the pairs between columns 0 and 1. *)
Theorem dispersion_counts_first_pairs_twice (m : list (list Neuron))
  (rows cols : nat) :
  grid_shape m rows cols -> has_motor_coords m ->
  (forall i j, (i < rows)%nat -> (j < cols)%nat ->
     SOMM.get_distance_with_neighbor m i j =
     Ok (0 +
         (if (i =? 0)%nat
          then if (2 <=? rows)%nat then sq_at m (0, j)%nat (1, j)%nat else 0
          else sq_at m (i - 1, j)%nat (i, j)) +
         (if (j =? 0)%nat
          then if (2 <=? cols)%nat then sq_at m (i, 0)%nat (i, 1)%nat else 0
          else sq_at m (i, j - 1)%nat (i, j)))) /\
  SOMM.get_map_dispertion m =
  Ok (forward_dispersion m rows cols + first_row_pairs m rows cols
      + first_col_pairs m rows cols).
Proof.
  intros Hs Hm. split; [|apply dispersion_closed_form; assumption].
  intros i j Hi Hj. rewrite (neighbor_distance_ok m rows cols i j Hs Hm Hi Hj).
  unfold line_term.
  destruct (i =? 0)%nat eqn:Ei; destruct (j =? 0)%nat eqn:Ej;
    try (apply Nat.eqb_neq in Ei; replace (S (i - 1)) with i by lia);
    try (apply Nat.eqb_neq in Ej; replace (S (j - 1)) with j by lia);
    reflexivity.
Qed.

Lemma col3_shape : grid_shape col3 3 1.
Proof. split; [reflexivity | repeat constructor]. Qed.

Lemma col3_coords : has_motor_coords col3.
Proof. repeat constructor. Qed.

Lemma dispersion_counts_first_pairs_twice_example :
  grid_shape col3 3 1 /\ has_motor_coords col3 /\
  SOMM.get_map_dispertion col3 =
  Ok (forward_dispersion col3 3 1 + first_row_pairs col3 3 1
      + first_col_pairs col3 3 1).
Proof.
  split; [exact col3_shape|]. split; [exact col3_coords|].
  exact (proj2 (dispersion_counts_first_pairs_twice col3 3 1 col3_shape
                  col3_coords)).
Defined.

Lemma col3_dispersion : SOMM.get_map_dispertion col3 = Ok 6.
Proof.
  unfold SOMM.get_map_dispertion, for_grid, SOMM.get_distance_with_neighbor,
    SOMM.sq_diff.
  cbn -[Rabs pow Rplus Rminus]. rewrite !pow2_abs. f_equal. ring.
Qed.

Lemma col3_forward : forward_dispersion col3 3 1 = 5.
Proof.
  unfold forward_dispersion, sum_over, sq_at, SOMM.sq_diff.
  cbn -[Rabs pow Rplus Rminus]. rewrite !pow2_abs. ring.
Qed.

Lemma col3_wrapped : wrapped_dispersion col3 3 1 = 9.
Proof.
  unfold wrapped_dispersion, sum_over, sq_at, SOMM.sq_diff.
  cbn -[Rabs pow Rplus Rminus]. rewrite !pow2_abs. ring.
Qed.

(** C4, the claim as stated fails: on [col3] the two adjacent pairs have
    squared differences 1 and 4; counting each pair once gives 5, and
    letting the last prototype count its pair once more gives 9, but
    [get_map_dispertion] returns 6, because the pair between rows 0 and 1 is
    counted by both of its prototypes. *)
Lemma dispersion_counts_a_pair_twice :
  grid_shape col3 3 1 /\ has_motor_coords col3 /\
  SOMM.get_map_dispertion col3 = Ok 6 /\
  forward_dispersion col3 3 1 = 5 /\
  wrapped_dispersion col3 3 1 = 9 /\
  SOMM.get_map_dispertion col3 <> Ok (forward_dispersion col3 3 1) /\
  SOMM.get_map_dispertion col3 <> Ok (wrapped_dispersion col3 3 1).
Proof.
  split; [exact col3_shape|]. split; [exact col3_coords|].
  split; [exact col3_dispersion|]. split; [exact col3_forward|].
  split; [exact col3_wrapped|].
  rewrite col3_dispersion, col3_forward, col3_wrapped.
  split; intros H; inversion H; lra.
Qed.

(** * Further properties of the map *)

(** ** Grids as values *)

Lemma get_nth_error_eq {A : Type} (l l' : list A) i :
  Py.get l i = Py.get l' i -> nth_error l i = nth_error l' i.
Proof.
  unfold Py.get. destruct (nth_error l i), (nth_error l' i); intros H;
    try discriminate; congruence.
Qed.

Lemma grid_ext {A : Type} (m m' : list (list A)) rows cols :
  grid_shape m rows cols -> grid_shape m' rows cols ->
  (forall i j, (i < rows)%nat -> (j < cols)%nat ->
     Py.get2 m i j = Py.get2 m' i j) ->
  m = m'.
Proof.
  intros [Hl Hf] [Hl' Hf'] H. apply nth_error_ext. intros i.
  destruct (Nat.lt_ge_cases i rows) as [Hi|Hi].
  - destruct (nth_error m i) as [row|] eqn:E;
      [|apply nth_error_None in E; lia].
    destruct (nth_error m' i) as [row'|] eqn:E';
      [|apply nth_error_None in E'; lia].
    f_equal. rewrite Forall_forall in Hf, Hf'.
    pose proof (Hf row (nth_error_In _ _ E)) as Hr.
    pose proof (Hf' row' (nth_error_In _ _ E')) as Hr'.
    apply nth_error_ext. intros j.
    destruct (Nat.lt_ge_cases j cols) as [Hj|Hj].
    + specialize (H i j Hi Hj). unfold Py.get2 in H.
      rewrite (proj2 (get_some m i row) E), (proj2 (get_some m' i row') E') in H.
      simpl in H. apply get_nth_error_eq, H.
    + rewrite (proj2 (nth_error_None row j)) by lia.
      rewrite (proj2 (nth_error_None row' j)) by lia. reflexivity.
  - rewrite (proj2 (nth_error_None m i)) by lia.
    rewrite (proj2 (nth_error_None m' i)) by lia. reflexivity.
Qed.

Lemma grid_shape_map {A B : Type} (f : A -> B) (m : list (list A)) rows cols :
  grid_shape m rows cols -> grid_shape (List.map (List.map f) m) rows cols.
Proof.
  intros [Hl Hf]. split; [rewrite length_map; exact Hl|].
  apply Forall_map. eapply Forall_impl; [|exact Hf].
  intros row Hr. simpl. rewrite length_map. exact Hr.
Qed.

Lemma get_map {A B : Type} (f : A -> B) (l : list A) i a :
  Py.get l i = Ok a -> Py.get (List.map f l) i = Ok (f a).
Proof.
  intros H. apply get_some in H. apply get_some.
  rewrite nth_error_map, H. reflexivity.
Qed.

Lemma get2_map {A B : Type} (f : A -> B) (m : list (list A)) i j a :
  Py.get2 m i j = Ok a -> Py.get2 (List.map (List.map f) m) i j = Ok (f a).
Proof.
  unfold Py.get2. intros H. apply bind_ok in H. destruct H as [row [H1 H2]].
  rewrite (get_map (List.map f) m i row H1). simpl. apply get_map, H2.
Qed.

Lemma get2_map_inv {A B : Type} (f : A -> B) (m : list (list A)) i j b :
  Py.get2 (List.map (List.map f) m) i j = Ok b ->
  exists a, Py.get2 m i j = Ok a /\ b = f a.
Proof.
  unfold Py.get2. intros H. apply bind_ok in H. destruct H as [row' [H1 H2]].
  apply get_some in H1, H2. rewrite nth_error_map in H1.
  destruct (nth_error m i) as [row|] eqn:E; simpl in H1; [|discriminate].
  inversion H1; subst row'. rewrite nth_error_map in H2.
  destruct (nth_error row j) as [a|] eqn:E2; simpl in H2; [|discriminate].
  inversion H2; subst b. exists a. split; [|reflexivity].
  rewrite (proj2 (get_some m i row) E). simpl. apply get_some, E2.
Qed.

(** ** The results of compute and learn in closed form *)

Lemma compute_closed s x :
  wf_SOM s -> length x = input_dim s ->
  SOMM.compute s x = Ok (compute_result s x).
Proof.
  intros Hwf Hx.
  destruct (compute_ok s x Hwf Hx) as [s' [Hc (Hi & Hg & Hm & Ha & Hcells)]].
  rewrite Hc. f_equal. destruct Hwf as (Hm0 & Ha0 & _).
  destruct s' as [is' gs' m' am']. simpl in *. unfold compute_result.
  subst is' gs'. f_equal.
  - apply (grid_ext _ _ _ _ Hm (grid_shape_map _ _ _ _ Hm0)).
    intros i j Hlt1 Hlt2.
    destruct (grid_shape_get2 _ _ _ i j Hm0 Hlt1 Hlt2) as [n Hn].
    destruct (grid_shape_get2 _ _ _ i j Ha0 Hlt1 Hlt2) as [a Ha1].
    destruct (Hcells i j n a Hn Ha1) as [Hd _].
    rewrite (get2_map _ _ _ _ _ Hn).
    apply Hd. apply in_range_cells. simpl. auto.
  - apply (grid_ext _ _ _ _ Ha (grid_shape_map _ _ _ _ Hm0)).
    intros i j Hlt1 Hlt2.
    destruct (grid_shape_get2 _ _ _ i j Hm0 Hlt1 Hlt2) as [n Hn].
    destruct (grid_shape_get2 _ _ _ i j Ha0 Hlt1 Hlt2) as [a Ha1].
    destruct (Hcells i j n a Hn Ha1) as [Hd _].
    rewrite (get2_map _ _ _ _ _ Hn).
    apply Hd. apply in_range_cells. simpl. auto.
Qed.

Lemma learn_closed s eta sigma x bx by_ :
  wf_SOM s -> length x = input_dim s -> 0 < sigma ->
  SOMM.bmu s = Ok (bx, by_) ->
  SOMM.learn s eta sigma x = Ok (learn_result s eta sigma bx by_ x).
Proof.
  intros Hwf Hx Hs Hb. pose proof Hwf as (Hm0 & Ha0 & _).
  destruct (learn_ok s eta sigma x bx by_ Hm0 Ha0) as
    [s' [Hl (Hi & Hg & Hm & Ha & Hcells)]]; [|exact Hs|exact Hb|].
  { intros i j n Hn. rewrite (wf_weights s i j n Hwf Hn). exact Hx. }
  rewrite Hl. f_equal.
  destruct s' as [is' gs' m' am']. simpl in *. unfold learn_result.
  subst is' gs'. f_equal.
  - apply (grid_ext _ _ _ _ Hm (grid_shape_map _ _ _ _ Hm0)).
    intros i j Hlt1 Hlt2.
    destruct (grid_shape_get2 _ _ _ i j Hm0 Hlt1 Hlt2) as [n Hn].
    destruct (grid_shape_get2 _ _ _ i j Ha0 Hlt1 Hlt2) as [a Ha1].
    destruct (Hcells i j n a Hn Ha1) as [Hd _].
    rewrite (get2_map _ _ _ _ _ Hn).
    apply Hd. apply in_range_cells. simpl. auto.
  - apply (grid_ext _ _ _ _ Ha Ha0).
    intros i j Hlt1 Hlt2.
    destruct (grid_shape_get2 _ _ _ i j Hm0 Hlt1 Hlt2) as [n Hn].
    destruct (grid_shape_get2 _ _ _ i j Ha0 Hlt1 Hlt2) as [a Ha1].
    destruct (Hcells i j n a Hn Ha1) as [Hd _].
    rewrite Ha1. apply Hd. apply in_range_cells. simpl. auto.
Qed.

Lemma forall2_grid_map {A B : Type} (P : A -> Prop) (Q : B -> Prop)
  (f : A -> B) (m : list (list A)) :
  (forall a, P a -> Q (f a)) ->
  Forall (Forall P) m -> Forall (Forall Q) (List.map (List.map f) m).
Proof.
  intros H Hm. apply Forall_map. eapply Forall_impl; [|exact Hm].
  intros row Hr. simpl. apply Forall_map. eapply Forall_impl; [|exact Hr].
  exact H.
Qed.

Lemma wf_compute_result s x : wf_SOM s -> wf_SOM (compute_result s x).
Proof.
  intros (Hm & Ha & Hw & Hp). unfold wf_SOM, compute_result. simpl.
  split; [apply grid_shape_map, Hm|].
  split; [apply grid_shape_map, Hm|].
  split.
  - eapply forall2_grid_map; [|exact Hw]. intros n Hn. exact Hn.
  - intros i j n' Hn'. apply get2_map_inv in Hn'. destruct Hn' as [n [Hn E]].
    subst n'. simpl. apply (Hp i j n Hn).
Qed.

Lemma wf_learn_result s eta sigma bx by_ x :
  wf_SOM s -> length x = input_dim s ->
  wf_SOM (learn_result s eta sigma bx by_ x).
Proof.
  intros (Hm & Ha & Hw & Hp) Hx. unfold wf_SOM, learn_result. simpl.
  split; [apply grid_shape_map, Hm|].
  split; [exact Ha|].
  split.
  - eapply forall2_grid_map; [|exact Hw]. intros n Hn. simpl.
    unfold input_dim in *. simpl. rewrite zip_with_length; [exact Hn|].
    rewrite Hn. symmetry. exact Hx.
  - intros i j n' Hn'. apply get2_map_inv in Hn'. destruct Hn' as [n [Hn E]].
    subst n'. simpl. apply (Hp i j n Hn).
Qed.

Lemma map_map_grid {A B C : Type} (f : A -> B) (g : B -> C) (m : list (list A)) :
  List.map (List.map g) (List.map (List.map f) m) =
  List.map (List.map (fun a => g (f a))) m.
Proof.
  rewrite map_map. apply map_ext. intros row. apply map_map.
Qed.

(** X1.  [SOM.compute] keeps a well-formed map well-formed: it changes
    neither [inputsize], [gridsize], nor any weight vector or grid position,
    and afterwards the activity map holds, cell by cell, the [y] of the
    neurons. *)
Theorem compute_keeps_map (s : SOM) (x : list R) :
  wf_SOM s -> length x = input_dim s ->
  exists s',
    SOMM.compute s x = Ok s' /\ wf_SOM s' /\
    inputsize s' = inputsize s /\ gridsize s' = gridsize s /\
    List.map (List.map weights) (map s') = List.map (List.map weights) (map s) /\
    List.map (List.map posx) (map s') = List.map (List.map posx) (map s) /\
    List.map (List.map posy) (map s') = List.map (List.map posy) (map s) /\
    activitymap s' = List.map (List.map y) (map s').
Proof.
  intros Hwf Hx. exists (compute_result s x).
  split; [apply compute_closed; assumption|].
  split; [apply wf_compute_result, Hwf|].
  unfold compute_result. simpl. rewrite !map_map_grid. simpl.
  repeat split; reflexivity.
Qed.

Lemma compute_keeps_map_example :
  wf_SOM one_cell /\ length [0] = input_dim one_cell /\
  exists s', SOMM.compute one_cell [0] = Ok s' /\ wf_SOM s'.
Proof.
  split; [exact one_cell_wf|]. split; [reflexivity|].
  destruct (compute_keeps_map one_cell [0] one_cell_wf eq_refl)
    as (s' & H1 & H2 & _).
  exists s'. split; assumption.
Defined.

(** X2.  A call of [SOM.compute] overrides what an earlier call stored:
    computing the activations for [x] and then for [x'] gives the same map as
    computing them for [x'] alone. *)
Theorem compute_overrides (s : SOM) (x x' : list R) :
  wf_SOM s -> length x = input_dim s -> length x' = input_dim s ->
  (s1 <- SOMM.compute s x ;; SOMM.compute s1 x') = SOMM.compute s x'.
Proof.
  intros Hwf Hx Hx'. rewrite (compute_closed s x Hwf Hx). simpl.
  rewrite (compute_closed (compute_result s x) x' (wf_compute_result s x Hwf))
    by exact Hx'.
  rewrite (compute_closed s x' Hwf Hx'). f_equal.
  unfold compute_result. simpl. rewrite !map_map_grid. reflexivity.
Qed.

Lemma compute_overrides_example :
  wf_SOM one_cell /\ length [1] = input_dim one_cell /\
  length [0] = input_dim one_cell /\
  (s1 <- SOMM.compute one_cell [1] ;; SOMM.compute s1 [0]) =
  SOMM.compute one_cell [0].
Proof.
  split; [exact one_cell_wf|]. split; [reflexivity|]. split; [reflexivity|].
  exact (compute_overrides one_cell [1] [0] one_cell_wf eq_refl eq_refl).
Defined.

(** ** SOM.learn, further *)

Lemma gaussian_kernel_bounds sigma d :
  0 < sigma -> 0 < gaussian_kernel sigma d <= 1.
Proof.
  intros Hs. unfold gaussian_kernel. split; [apply exp_pos|].
  assert (Hq : - IZR d ^ 2 / (2 * sigma ^ 2) <= 0).
  { pose proof (pow2_ge_0 (IZR d)) as H1.
    assert (H2 : 0 < / (2 * sigma ^ 2)).
    { apply Rinv_0_lt_compat. simpl. nra. }
    unfold Rdiv. set (p := IZR d ^ 2) in *. set (i := / (2 * sigma ^ 2)) in *.
    nra. }
  destruct Hq as [Hq|Hq].
  - left. rewrite <- exp_0. apply exp_increasing. exact Hq.
  - rewrite Hq, exp_0. lra.
Qed.

Lemma gaussian_kernel_antitone sigma d1 d2 :
  0 < sigma -> (0 <= d1 <= d2)%Z ->
  gaussian_kernel sigma d2 <= gaussian_kernel sigma d1.
Proof.
  intros Hs [H1 H2]. unfold gaussian_kernel.
  assert (Hle : - IZR d2 ^ 2 / (2 * sigma ^ 2) <= - IZR d1 ^ 2 / (2 * sigma ^ 2)).
  { assert (Hd : 0 < / (2 * sigma ^ 2)).
    { apply Rinv_0_lt_compat. simpl. nra. }
    assert (Ha : 0 <= IZR d1) by (apply IZR_le; exact H1).
    assert (Hb : IZR d1 <= IZR d2) by (apply IZR_le; exact H2).
    assert (Hsq : IZR d1 ^ 2 <= IZR d2 ^ 2) by (simpl; nra).
    unfold Rdiv. set (p1 := IZR d1 ^ 2) in *. set (p2 := IZR d2 ^ 2) in *.
    set (i := / (2 * sigma ^ 2)) in *. nra. }
  destruct Hle as [Hlt|Heq].
  - left. apply exp_increasing. exact Hlt.
  - rewrite Heq. lra.
Qed.

Lemma zip_with_ext f g a b :
  (forall u v, f u v = g u v) -> Py.zip_with f a b = Py.zip_with g a b.
Proof.
  intros H. revert b; induction a as [|u a IH]; intros [|v b]; simpl;
    try reflexivity.
  rewrite H, IH. reflexivity.
Qed.

Lemma euclidean_after_kernel_update eta k w x :
  eta * k <= 1 -> length x = length w ->
  euclidean_distance x (Py.zip_with (kohonen_update eta k) w x) =
  (1 - eta * k) * euclidean_distance x w.
Proof.
  intros Hk Hl.
  rewrite (zip_with_ext _ (kohonen_update (eta * k) 1)).
  - apply euclidean_after_update; assumption.
  - intros u v. unfold kohonen_update. ring.
Qed.

(** X3.  On a well-formed map with at least one prototype and for
    [sigma > 0], [SOM.learn] succeeds and keeps the map well-formed; it
    changes neither [inputsize], [gridsize], any grid position, nor any
    activation: the activity map and every neuron's [y] are the ones stored
    before the call, although the weights have moved. *)
Theorem learn_keeps_map (s : SOM) (eta sigma : R) (x : list R) :
  wf_SOM s -> length x = input_dim s -> 0 < sigma ->
  (0 < fst (gridsize s) * snd (gridsize s))%nat ->
  exists s',
    SOMM.learn s eta sigma x = Ok s' /\ wf_SOM s' /\
    inputsize s' = inputsize s /\ gridsize s' = gridsize s /\
    activitymap s' = activitymap s /\
    List.map (List.map y) (map s') = List.map (List.map y) (map s) /\
    List.map (List.map posx) (map s') = List.map (List.map posx) (map s) /\
    List.map (List.map posy) (map s') = List.map (List.map posy) (map s).
Proof.
  intros Hwf Hx Hs Hpos. pose proof Hwf as (_ & Ha & _).
  destruct (bmu_spec s Ha Hpos) as (bx & by_ & ab & Hb & _).
  exists (learn_result s eta sigma bx by_ x).
  split; [apply learn_closed; assumption|].
  split; [apply wf_learn_result; assumption|].
  unfold learn_result. simpl. rewrite !map_map_grid. simpl.
  repeat split; reflexivity.
Qed.

Lemma learn_keeps_map_example :
  wf_SOM one_cell /\ length [0] = input_dim one_cell /\ 0 < 1 /\
  (0 < fst (gridsize one_cell) * snd (gridsize one_cell))%nat /\
  exists s', SOMM.learn one_cell (1 / 2) 1 [0] = Ok s' /\ wf_SOM s'.
Proof.
  assert (Hs : 0 < 1) by lra.
  split; [exact one_cell_wf|]. split; [reflexivity|]. split; [exact Hs|].
  split; [exact Nat.lt_0_1|].
  destruct (learn_keeps_map one_cell (1 / 2) 1 [0] one_cell_wf eq_refl Hs
              Nat.lt_0_1) as (s' & H1 & H2 & _).
  exists s'. split; assumption.
Defined.

(** X4.  With [0 <= eta <= 1] and [sigma > 0], [SOM.learn] moves no
    prototype away from the input: the Euclidean distance of the prototype
    at [(i, j)] to [x] is multiplied by [1 - eta * kappa], where [kappa],
    the Gaussian kernel at the Manhattan distance from [(i, j)] to the
    winner, lies in (0, 1]. *)
Theorem learn_moves_no_prototype_away (s : SOM) (eta sigma : R) (x : list R) :
  wf_SOM s -> length x = input_dim s ->
  0 <= eta <= 1 -> 0 < sigma ->
  (0 < fst (gridsize s) * snd (gridsize s))%nat ->
  exists s' bx by_,
    SOMM.bmu s = Ok (bx, by_) /\
    SOMM.learn s eta sigma x = Ok s' /\
    forall i j n, Py.get2 (map s) i j = Ok n ->
      exists n' kappa,
        Py.get2 (map s') i j = Ok n' /\
        kappa = exp (- (IZR (Z.abs (Z.of_nat i - Z.of_nat bx) +
                             Z.abs (Z.of_nat j - Z.of_nat by_))) ^ 2
                     / (2 * sigma ^ 2)) /\
        0 < kappa <= 1 /\
        euclidean_distance x (weights n') =
          (1 - eta * kappa) * euclidean_distance x (weights n) /\
        euclidean_distance x (weights n') <= euclidean_distance x (weights n).
Proof.
  intros Hwf Hx [He0 He1] Hs Hpos. pose proof Hwf as (_ & Ha & _ & Hp).
  destruct (bmu_spec s Ha Hpos) as (bx & by_ & ab & Hb & _).
  exists (learn_result s eta sigma bx by_ x), bx, by_.
  split; [exact Hb|]. split; [apply learn_closed; assumption|].
  intros i j n Hn. destruct (Hp i j n Hn) as [Hpx Hpy].
  exists (learned eta sigma bx by_ x n),
    (gaussian_kernel sigma
       (manhattan (Z.of_nat i) (Z.of_nat j) (Z.of_nat bx) (Z.of_nat by_))).
  pose proof (gaussian_kernel_bounds sigma
                (manhattan (Z.of_nat i) (Z.of_nat j) (Z.of_nat bx) (Z.of_nat by_))
                Hs) as Hk.
  split; [unfold learn_result; simpl; apply get2_map, Hn|].
  split; [reflexivity|]. split; [exact Hk|].
  assert (E : euclidean_distance x (weights (learned eta sigma bx by_ x n)) =
              (1 - eta * gaussian_kernel sigma
                          (manhattan (Z.of_nat i) (Z.of_nat j)
                             (Z.of_nat bx) (Z.of_nat by_))) *
              euclidean_distance x (weights n)).
  { simpl. rewrite Hpx, Hpy. apply euclidean_after_kernel_update.
    - nra.
    - rewrite (wf_weights s i j n Hwf Hn). exact Hx. }
  split; [exact E|]. rewrite E.
  pose proof (euclidean_nonneg x (weights n)) as Hd.
  set (kappa := gaussian_kernel sigma
                  (manhattan (Z.of_nat i) (Z.of_nat j) (Z.of_nat bx)
                     (Z.of_nat by_))) in *.
  set (D := euclidean_distance x (weights n)) in *.
  assert (Hek : 0 <= eta * kappa) by (apply Rmult_le_pos; lra).
  nra.
Qed.

Lemma learn_moves_no_prototype_away_example :
  wf_SOM plane_row /\ length [0; 0] = input_dim plane_row /\
  0 <= 1 / 2 <= 1 /\ 0 < 1 /\
  (0 < fst (gridsize plane_row) * snd (gridsize plane_row))%nat /\
  exists s' n0 n1,
    SOMM.learn plane_row (1 / 2) 1 [0; 0] = Ok s' /\
    Py.get2 (map s') 0 0 = Ok n0 /\
    5 / 2 <= euclidean_distance [0; 0] (weights n0) < 5 /\
    Py.get2 (map s') 0 1 = Ok n1 /\
    1 / 2 <= euclidean_distance [0; 0] (weights n1) < 1.
Proof.
  assert (He : 0 <= 1 / 2 <= 1) by lra.
  assert (Hs : 0 < 1) by lra.
  assert (Hp : (0 < fst (gridsize plane_row) * snd (gridsize plane_row))%nat)
    by (simpl; lia).
  split; [exact plane_row_wf|]. split; [reflexivity|]. split; [exact He|].
  split; [exact Hs|]. split; [exact Hp|].
  destruct (learn_moves_no_prototype_away plane_row (1 / 2) 1 [0; 0]
              plane_row_wf eq_refl He Hs Hp) as (s' & bx & by_ & _ & Hl & Hall).
  destruct (Hall 0%nat 0%nat (mkNeuron [3; 4] 0 0 0) eq_refl)
    as (n0 & k0 & Hn0 & _ & Hk0 & Hd0 & _).
  destruct (Hall 0%nat 1%nat (mkNeuron [0; 1] 0 1 0) eq_refl)
    as (n1 & k1 & Hn1 & _ & Hk1 & Hd1 & _).
  cbn [weights] in Hd0, Hd1.
  rewrite euclidean_origin_3_4 in Hd0. rewrite euclidean_origin_0_1 in Hd1.
  exists s', n0, n1.
  split; [exact Hl|]. split; [exact Hn0|]. split; [rewrite Hd0; lra|].
  split; [exact Hn1|]. rewrite Hd1. lra.
Defined.

(** X5.  On a map without prototypes [SOM.learn] does not return: the
    search for the winner raises [ValueError] ([numpy.argmin] of an empty
    array). *)
Theorem learn_empty_map_raises (s : SOM) (eta sigma : R) (x : list R)
  (rows cols : nat) :
  grid_shape (activitymap s) rows cols -> (rows * cols = 0)%nat ->
  SOMM.learn s eta sigma x = Raise ValueError.
Proof.
  intros Hs H0. pose proof (length_concat_grid _ _ _ Hs) as Hl.
  unfold SOMM.learn, SOMM.bmu, Np.argmin.
  destruct (concat (activitymap s)) as [|v l]; [reflexivity|].
  simpl in Hl. lia.
Qed.

Lemma learn_empty_map_raises_example :
  grid_shape (activitymap empty_som) 0 0 /\ (0 * 0 = 0)%nat /\
  SOMM.learn empty_som (1 / 2) 1 [0] = Raise ValueError.
Proof.
  assert (Hs : grid_shape (activitymap empty_som) 0 0)
    by (split; [reflexivity | constructor]).
  split; [exact Hs|]. split; [reflexivity|].
  exact (learn_empty_map_raises empty_som (1 / 2) 1 [0] 0 0 Hs eq_refl).
Defined.

Lemma zip_with_left f a b :
  (forall u v, f u v = u) -> length b = length a -> Py.zip_with f a b = a.
Proof.
  intros H. revert b; induction a as [|u a IH]; intros [|v b] Hl; simpl in *;
    try reflexivity; try discriminate.
  rewrite H, IH by lia. reflexivity.
Qed.

Lemma zip_with_right f a b :
  (forall u v, f u v = v) -> length b = length a -> Py.zip_with f a b = b.
Proof.
  intros H. revert b; induction a as [|u a IH]; intros [|v b] Hl; simpl in *;
    try reflexivity; try discriminate.
  rewrite H, IH by lia. reflexivity.
Qed.

Lemma grid_map_id {A : Type} (f : A -> A) (m : list (list A)) :
  Forall (Forall (fun a => f a = a)) m -> List.map (List.map f) m = m.
Proof.
  intros H. induction H as [|row m Hr _ IH]; simpl; [reflexivity|].
  rewrite IH. f_equal. induction Hr as [|a row Ha _ IHr]; simpl; [reflexivity|].
  rewrite Ha, IHr. reflexivity.
Qed.

(** X6.  With a learning rate of 0, [SOM.learn] returns the map it was
    given: no weight changes. *)
Theorem learn_rate_zero_is_identity (s : SOM) (sigma : R) (x : list R) :
  wf_SOM s -> length x = input_dim s -> 0 < sigma ->
  (0 < fst (gridsize s) * snd (gridsize s))%nat ->
  SOMM.learn s 0 sigma x = Ok s.
Proof.
  intros Hwf Hx Hs Hpos. pose proof Hwf as (_ & Ha & Hw & _).
  destruct (bmu_spec s Ha Hpos) as (bx & by_ & ab & Hb & _).
  rewrite (learn_closed s 0 sigma x bx by_ Hwf Hx Hs Hb). f_equal.
  unfold learn_result. destruct s as [isz gs m am]. simpl in *. f_equal.
  apply grid_map_id.
  eapply Forall_impl; [|exact Hw]. intros row Hr.
  eapply Forall_impl; [|exact Hr]. intros n Hn. simpl in Hn.
  unfold learned. destruct n as [w px py yn]. simpl in *. f_equal.
  apply zip_with_left.
  - intros u v. unfold kohonen_update. ring.
  - rewrite Hn. exact Hx.
Qed.

Lemma learn_rate_zero_is_identity_example :
  wf_SOM one_cell /\ length [1] = input_dim one_cell /\ 0 < 1 /\
  (0 < fst (gridsize one_cell) * snd (gridsize one_cell))%nat /\
  SOMM.learn one_cell 0 1 [1] = Ok one_cell.
Proof.
  assert (Hs : 0 < 1) by lra.
  split; [exact one_cell_wf|]. split; [reflexivity|]. split; [exact Hs|].
  split; [exact Nat.lt_0_1|].
  exact (learn_rate_zero_is_identity one_cell 1 [1] one_cell_wf eq_refl Hs
           Nat.lt_0_1).
Defined.

(** X7.  With a learning rate of 1, one training step ([SOM.compute] then
    [SOM.learn]) makes the weight vector of the winner equal to the input. *)
Theorem learn_rate_one_winner_takes_input (s : SOM) (x : list R) (sigma : R) :
  wf_SOM s -> length x = input_dim s -> 0 < sigma ->
  (0 < fst (gridsize s) * snd (gridsize s))%nat ->
  exists s1 s2 bx by_ nb,
    SOMM.compute s x = Ok s1 /\
    SOMM.bmu s1 = Ok (bx, by_) /\
    SOMM.learn s1 1 sigma x = Ok s2 /\
    Py.get2 (map s2) bx by_ = Ok nb /\
    weights nb = x.
Proof.
  intros Hwf Hx Hs Hpos.
  destruct (train_step_cells s x 1 sigma Hwf Hx Hs Hpos)
    as (s1 & s2 & bx & by_ & ab & Hc & Hb & Hl & _ & Hbx & Hby & _ & _ & Hcell).
  pose proof Hwf as (Hm & _ & _ & Hp).
  destruct (grid_shape_get2 _ _ _ _ _ Hm Hbx Hby) as [n Hn].
  destruct (Hcell bx by_ n Hn) as (_ & _ & Hn2).
  destruct (Hp bx by_ n Hn) as [Hpx Hpy].
  exists s1, s2, bx, by_, (learned 1 sigma bx by_ x (activated x n)).
  split; [exact Hc|]. split; [exact Hb|]. split; [exact Hl|].
  split; [exact Hn2|].
  simpl. rewrite Hpx, Hpy, manhattan_self, gaussian_kernel_0.
  apply zip_with_right.
  - intros u v. unfold kohonen_update. ring.
  - rewrite (wf_weights s bx by_ n Hwf Hn). exact Hx.
Qed.

Lemma learn_rate_one_winner_takes_input_example :
  wf_SOM one_cell /\ length [1] = input_dim one_cell /\ 0 < 1 /\
  (0 < fst (gridsize one_cell) * snd (gridsize one_cell))%nat /\
  exists s1 s2 nb,
    SOMM.compute one_cell [1] = Ok s1 /\
    SOMM.learn s1 1 1 [1] = Ok s2 /\
    Py.get2 (map s2) 0 0 = Ok nb /\ weights nb = [1].
Proof.
  assert (Hs : 0 < 1) by lra.
  split; [exact one_cell_wf|]. split; [reflexivity|]. split; [exact Hs|].
  split; [exact Nat.lt_0_1|].
  destruct (learn_rate_one_winner_takes_input one_cell [1] 1 one_cell_wf
              eq_refl Hs Nat.lt_0_1)
    as (s1 & s2 & bx & by_ & nb & H1 & Hb & H2 & H3 & H4).
  assert (Hg : gridsize s1 = (1%nat, 1%nat)).
  { destruct (compute_ok one_cell [1] one_cell_wf eq_refl)
      as [s1' [Hc (_ & Hg & _)]].
    rewrite H1 in Hc. inversion Hc. exact Hg. }
  assert (E : (bx, by_) = (0%nat, 0%nat)).
  { unfold SOMM.bmu in Hb. apply bind_ok in Hb. destruct Hb as [idx [_ Hu]].
    unfold Np.unravel_index in Hu. rewrite Hg in Hu.
    destruct (idx <? 1 * 1)%nat eqn:El; [|discriminate].
    apply Nat.ltb_lt in El. inversion Hu.
    assert (idx = 0%nat) by lia. subst idx. reflexivity. }
  inversion E; subst bx by_.
  exists s1, s2, nb. auto.
Defined.

(** ** Neurons *)

(** X8.  Of two neurons with the same weights, the one nearer to the winner
    on the grid (in Manhattan distance) is pulled at least as near to the
    input by [Neuron.learn], for [0 <= eta <= 1] and [sigma > 0]. *)
Theorem nearer_on_grid_pulled_nearer (n1 n2 : Neuron) (eta sigma : R)
  (bx by_ : Z) (x : list R) :
  0 < sigma -> 0 <= eta <= 1 ->
  weights n1 = weights n2 -> length x = length (weights n1) ->
  (Z.abs (posx n1 - bx) + Z.abs (posy n1 - by_) <=
   Z.abs (posx n2 - bx) + Z.abs (posy n2 - by_))%Z ->
  exists n1' n2',
    NeuronM.learn n1 eta sigma bx by_ x = Ok n1' /\
    NeuronM.learn n2 eta sigma bx by_ x = Ok n2' /\
    euclidean_distance x (weights n1') <= euclidean_distance x (weights n2').
Proof.
  intros Hs [He0 He1] Hw Hl Hd.
  assert (Hl2 : length x = length (weights n2)) by (rewrite <- Hw; exact Hl).
  eexists. eexists.
  split; [apply neuron_learn_ok; assumption|].
  split; [apply neuron_learn_ok; assumption|].
  cbn [weights].
  set (d1 := manhattan (posx n1) (posy n1) bx by_).
  set (d2 := manhattan (posx n2) (posy n2) bx by_).
  assert (Hd' : (0 <= d1 <= d2)%Z) by (unfold d1, d2, manhattan; lia).
  pose proof (gaussian_kernel_bounds sigma d1 Hs) as Hk1.
  pose proof (gaussian_kernel_bounds sigma d2 Hs) as Hk2.
  pose proof (gaussian_kernel_antitone sigma d1 d2 Hs Hd') as Hk.
  rewrite !euclidean_after_kernel_update; try assumption; try nra.
  rewrite <- Hw. pose proof (euclidean_nonneg x (weights n1)) as HD.
  set (D := euclidean_distance x (weights n1)) in *.
  set (k1 := gaussian_kernel sigma d1) in *.
  set (k2 := gaussian_kernel sigma d2) in *.
  assert (H1 : eta * k2 <= eta * k1) by (apply Rmult_le_compat_l; lra).
  nra.
Qed.

Lemma nearer_on_grid_pulled_nearer_example :
  0 < 1 /\ 0 <= 1 / 2 <= 1 /\
  exists n1' n2',
    NeuronM.learn (mkNeuron [0; 1] 1 1 0) (1 / 2) 1 1 1 [1; 3] = Ok n1' /\
    NeuronM.learn (mkNeuron [0; 1] 3 2 0) (1 / 2) 1 1 1 [1; 3] = Ok n2' /\
    euclidean_distance [1; 3] (weights n1') <=
    euclidean_distance [1; 3] (weights n2').
Proof.
  assert (Hs : 0 < 1) by lra. assert (He : 0 <= 1 / 2 <= 1) by lra.
  split; [exact Hs|]. split; [exact He|].
  apply (nearer_on_grid_pulled_nearer (mkNeuron [0; 1] 1 1 0)
           (mkNeuron [0; 1] 3 2 0) (1 / 2) 1 1 1 [1; 3] Hs He eq_refl eq_refl).
  simpl. lia.
Defined.

Lemma broadcast_mismatch f a b :
  length a <> length b -> length a <> 1%nat -> length b <> 1%nat ->
  Py.broadcast f a b = Raise ValueError.
Proof.
  intros H Ha Hb. unfold Py.broadcast.
  destruct (length a =? length b)%nat eqn:E; [apply Nat.eqb_eq in E; contradiction|].
  destruct a as [|u [|u' a]]; destruct b as [|v [|v' b]]; simpl in *;
    try reflexivity; try contradiction; exfalso; auto.
Qed.

(** X9.  [SOM.compute] checks the length of its input only through the
    array subtraction: on a non-empty well-formed map whose declared
    dimensionality is not 1, an input whose length is neither that
    dimensionality nor 1 makes it raise [ValueError]. *)
Theorem compute_wrong_dimension_raises (s : SOM) (x : list R) :
  wf_SOM s -> (0 < fst (gridsize s) * snd (gridsize s))%nat ->
  length x <> input_dim s -> length x <> 1%nat -> input_dim s <> 1%nat ->
  SOMM.compute s x = Raise ValueError.
Proof.
  intros Hwf Hpos Hx Hx1 Hd1. pose proof Hwf as (Hm & _).
  unfold SOMM.compute, for_range2.
  destruct (fst (gridsize s)) as [|rows] eqn:Er; [simpl in Hpos; lia|].
  destruct (snd (gridsize s)) as [|cols] eqn:Ec; [lia|].
  destruct (grid_shape_get2 _ _ _ 0 0 Hm) as [n Hn]; try lia.
  pose proof (wf_weights s 0 0 n Hwf Hn) as Hw.
  assert (Hb : SOMM.compute_body x 0 0 s = Raise ValueError).
  { unfold SOMM.compute_body. rewrite Hn. simpl. unfold NeuronM.compute.
    rewrite broadcast_mismatch by (rewrite ?Hw; assumption). reflexivity. }
  unfold Py.range. simpl. rewrite Hb. reflexivity.
Qed.

Lemma compute_wrong_dimension_raises_example :
  wf_SOM plane_cell /\
  (0 < fst (gridsize plane_cell) * snd (gridsize plane_cell))%nat /\
  length [0; 0; 0] <> input_dim plane_cell /\ length [0; 0; 0] <> 1%nat /\
  input_dim plane_cell <> 1%nat /\
  SOMM.compute plane_cell [0; 0; 0] = Raise ValueError.
Proof.
  assert (Hwf : wf_SOM plane_cell).
  { split; [split; [reflexivity | repeat constructor]|].
    split; [split; [reflexivity | repeat constructor]|].
    split; [repeat constructor|].
    intros [|i] [|j] n H; try discriminate H.
    - inversion H; subst n. split; reflexivity.
    - destruct j; discriminate H.
    - destruct i; discriminate H.
    - destruct i; discriminate H. }
  assert (Hp : (0 < fst (gridsize plane_cell) * snd (gridsize plane_cell))%nat)
    by (simpl; lia).
  assert (H1 : length [0; 0; 0] <> input_dim plane_cell) by (simpl; discriminate).
  assert (H2 : length [0; 0; 0] <> 1%nat) by (simpl; discriminate).
  assert (H3 : input_dim plane_cell <> 1%nat) by (simpl; discriminate).
  repeat (split; [assumption|]).
  exact (compute_wrong_dimension_raises plane_cell [0; 0; 0] Hwf Hp H1 H2 H3).
Defined.

(** ** The learning loop *)

Lemma forall_zip_with (P : R -> Prop) f a b :
  (forall u v, P u -> P v -> P (f u v)) ->
  Forall P a -> Forall P b -> Forall P (Py.zip_with f a b).
Proof.
  intros H Ha. revert b. induction Ha as [|u a Hu _ IH]; intros b Hb; simpl.
  - constructor.
  - destruct Hb as [|v b Hv Hb]; constructor; [apply H; assumption | apply IH, Hb].
Qed.

Lemma kohonen_update_between lo hi eta k w xi :
  0 <= eta * k <= 1 -> lo <= w <= hi -> lo <= xi <= hi ->
  lo <= kohonen_update eta k w xi <= hi.
Proof.
  intros Hc Hw Hx. unfold kohonen_update.
  replace (w + eta * k * (xi - w)) with ((1 - eta * k) * w + eta * k * xi) by ring.
  set (c := eta * k) in *. nra.
Qed.

Lemma train_step_closed s eta sigma x :
  wf_SOM s -> length x = input_dim s -> 0 < sigma ->
  (0 < fst (gridsize s) * snd (gridsize s))%nat ->
  exists bx by_,
    (s1 <- SOMM.compute s x ;; SOMM.learn s1 eta sigma x) =
    Ok (learn_result (compute_result s x) eta sigma bx by_ x).
Proof.
  intros Hwf Hx Hs Hpos. rewrite (compute_closed s x Hwf Hx). simpl.
  pose proof (wf_compute_result s x Hwf) as Hwf1.
  pose proof Hwf1 as (_ & Ha1 & _).
  destruct (bmu_spec (compute_result s x) Ha1 Hpos) as (bx & by_ & ab & Hb & _).
  exists bx, by_. apply learn_closed; assumption.
Qed.

(** X10.  The learning loop keeps the map in shape and the weights in the
    range of the data: starting from a well-formed map with at least one
    prototype, with [0 <= eta <= 1] and [sigma > 0], and for samples of the
    declared dimensionality, the loop runs to its end; the map it leaves is
    well-formed with the same [inputsize], [gridsize] and grid positions;
    and when all samples and all initial weights lie in [[lo, hi]], so do
    all final weights. *)
Theorem training_loop_keeps_map (eta sigma lo hi : R) (xs : list (list R))
  (s : SOM) :
  wf_SOM s -> (0 < fst (gridsize s) * snd (gridsize s))%nat ->
  0 <= eta <= 1 -> 0 < sigma ->
  Forall (fun x => length x = input_dim s /\
                   Forall (fun v => lo <= v <= hi) x) xs ->
  weights_within lo hi (map s) ->
  exists s',
    SOMM.training_loop eta sigma xs s = Ok s' /\ wf_SOM s' /\
    inputsize s' = inputsize s /\ gridsize s' = gridsize s /\
    List.map (List.map posx) (map s') = List.map (List.map posx) (map s) /\
    List.map (List.map posy) (map s') = List.map (List.map posy) (map s) /\
    weights_within lo hi (map s').
Proof.
  intros Hwf Hpos He Hs Hxs. revert s Hwf Hpos Hxs.
  induction xs as [|x xs IH]; intros s Hwf Hpos Hxs Hbox.
  - exists s. split; [reflexivity|]. split; [exact Hwf|].
    split; [reflexivity|]. split; [reflexivity|]. split; [reflexivity|].
    split; [reflexivity | exact Hbox].
  - inversion Hxs as [|? ? [Hx Hxb] Hrest]; subst.
    destruct (train_step_closed s eta sigma x Hwf Hx Hs Hpos) as (bx & by_ & Hstep).
    set (s2 := learn_result (compute_result s x) eta sigma bx by_ x) in *.
    assert (Hwf2 : wf_SOM s2).
    { apply wf_learn_result; [apply wf_compute_result, Hwf | exact Hx]. }
    assert (Hbox2 : weights_within lo hi (map s2)).
    { unfold s2, learn_result, compute_result. simpl. rewrite map_map_grid.
      eapply forall2_grid_map; [|exact Hbox]. intros n Hn. simpl.
      apply forall_zip_with; [|exact Hn|exact Hxb].
      intros u v Hu Hv. apply kohonen_update_between; [|exact Hu|exact Hv].
      pose proof (gaussian_kernel_bounds sigma
                    (manhattan (posx n) (posy n) (Z.of_nat bx) (Z.of_nat by_)) Hs)
        as Hk.
      set (k := gaussian_kernel sigma _) in *.
      split; [apply Rmult_le_pos; lra | nra]. }
    destruct (IH s2 Hwf2 Hpos Hrest Hbox2)
      as (s' & Hrun & Hwf' & Hi & Hg & Hpx & Hpy & Hbox').
    exists s'. split.
    { unfold SOMM.training_loop in *. simpl. rewrite Hstep. simpl. exact Hrun. }
    split; [exact Hwf'|]. split; [exact Hi|]. split; [exact Hg|].
    split; [rewrite Hpx|split; [rewrite Hpy | exact Hbox']];
      unfold s2, learn_result, compute_result; simpl;
      rewrite !map_map_grid; reflexivity.
Qed.

Lemma training_loop_keeps_map_example :
  wf_SOM one_cell /\
  (0 < fst (gridsize one_cell) * snd (gridsize one_cell))%nat /\
  0 <= 1 / 2 <= 1 /\ 0 < 1 /\
  exists s',
    SOMM.training_loop (1 / 2) 1 [[1]; [0]] one_cell = Ok s' /\
    weights_within 0 1 (map s').
Proof.
  assert (He : 0 <= 1 / 2 <= 1) by lra. assert (Hs : 0 < 1) by lra.
  assert (Hxs : Forall (fun x => length x = input_dim one_cell /\
                                 Forall (fun v => 0 <= v <= 1) x) [[1]; [0]]).
  { repeat constructor; lra. }
  assert (Hb : weights_within 0 1 (map one_cell)).
  { repeat constructor; simpl; lra. }
  split; [exact one_cell_wf|]. split; [exact Nat.lt_0_1|].
  split; [exact He|]. split; [exact Hs|].
  destruct (training_loop_keeps_map (1 / 2) 1 0 1 [[1]; [0]] one_cell
              one_cell_wf Nat.lt_0_1 He Hs Hxs Hb)
    as (s' & H1 & _ & _ & _ & _ & _ & H2).
  exists s'. split; assumption.
Defined.

(** ** The constructor *)

Lemma fold_left_append2 {X A B : Type} (f : X -> A) (g : X -> B) xs :
  forall a b,
  fold_left (fun '(l1, l2) x => (l1 ++ [f x], l2 ++ [g x])) xs (a, b) =
  (a ++ List.map f xs, b ++ List.map g xs).
Proof.
  induction xs as [|x xs IH]; intros a b; simpl.
  - rewrite !app_nil_r. reflexivity.
  - rewrite IH, <- !app_assoc. reflexivity.
Qed.

Lemma fold_left_same {A B : Type} (f g : A -> B -> A) (l : list B) :
  (forall a b, f a b = g a b) ->
  forall a, fold_left f l a = fold_left g l a.
Proof.
  intros H. induction l as [|b l IH]; intros a; simpl; [reflexivity|].
  rewrite H. apply IH.
Qed.

Lemma init_row_closed random posx cols :
  SOMM.init_row random posx cols =
  (List.map (initial_neuron random posx) (seq 0 cols),
   List.map (fun _ => 0) (seq 0 cols)).
Proof.
  unfold SOMM.init_row, Py.range.
  rewrite (fold_left_append2 (initial_neuron random posx) (fun _ => 0)).
  reflexivity.
Qed.

Lemma init_closed inputsize rows cols random :
  SOMM.init inputsize (rows, cols) random =
  mkSOM inputsize (rows, cols)
    (List.map (fun i => List.map (initial_neuron random i) (seq 0 cols))
       (seq 0 rows))
    (List.map (fun _ => List.map (fun _ => 0) (seq 0 cols)) (seq 0 rows)).
Proof.
  unfold SOMM.init, Py.range. simpl snd. simpl fst.
  rewrite (fold_left_same _
             (fun '(l1, l2) i =>
                (l1 ++ [List.map (initial_neuron random i) (seq 0 cols)],
                 l2 ++ [List.map (fun _ : nat => 0) (seq 0 cols)]))).
  - rewrite (fold_left_append2
               (fun i => List.map (initial_neuron random i) (seq 0 cols))
               (fun _ => List.map (fun _ : nat => 0) (seq 0 cols))).
    reflexivity.
  - intros [l1 l2] i. rewrite init_row_closed. reflexivity.
Qed.

Lemma get_map_seq {B : Type} (f : nat -> B) n i b :
  Py.get (List.map f (seq 0 n)) i = Ok b <-> (i < n)%nat /\ b = f i.
Proof.
  unfold Py.get. rewrite nth_error_map, nth_error_seq.
  destruct (i <? n)%nat eqn:E; simpl.
  - apply Nat.ltb_lt in E. split.
    + intros H. inversion H. auto.
    + intros [_ H]. subst b. reflexivity.
  - apply Nat.ltb_ge in E. split; [discriminate | intros [H _]; lia].
Qed.

Lemma get2_map_seq {B : Type} (f : nat -> nat -> B) rows cols i j b :
  Py.get2 (List.map (fun i => List.map (f i) (seq 0 cols)) (seq 0 rows)) i j
  = Ok b <-> (i < rows)%nat /\ (j < cols)%nat /\ b = f i j.
Proof.
  unfold Py.get2. split.
  - intros H. apply bind_ok in H. destruct H as [row [H1 H2]].
    apply get_map_seq in H1. destruct H1 as [Hi E]. subst row.
    apply get_map_seq in H2. tauto.
  - intros (Hi & Hj & E).
    rewrite (proj2 (get_map_seq (fun i => List.map (f i) (seq 0 cols)) rows i _)
               (conj Hi eq_refl)).
    simpl. apply get_map_seq. auto.
Qed.

Lemma grid_shape_map_seq {B : Type} (f : nat -> nat -> B) rows cols :
  grid_shape (List.map (fun i => List.map (f i) (seq 0 cols)) (seq 0 rows))
    rows cols.
Proof.
  split; [rewrite length_map, length_seq; reflexivity|].
  apply Forall_map. apply Forall_forall. intros i _.
  rewrite length_map, length_seq. reflexivity.
Qed.

Lemma init_wf inputsize rows cols random :
  (forall i j, (i < rows)%nat -> (j < cols)%nat ->
     length (random i j) = fold_right Nat.mul 1%nat inputsize) ->
  wf_SOM (SOMM.init inputsize (rows, cols) random).
Proof.
  intros Hr. rewrite init_closed.
  split; [apply grid_shape_map_seq|]. split; [apply grid_shape_map_seq|].
  split.
  - simpl. apply Forall_map. apply Forall_forall. intros i Hi.
    apply Forall_map. apply Forall_forall. intros j Hj.
    apply in_seq in Hi, Hj. simpl. unfold input_dim. simpl.
    apply Hr; lia.
  - simpl. intros i j n H. apply get2_map_seq in H.
    destruct H as (_ & _ & E). subst n. split; reflexivity.
Qed.

(** X11.  The constructor builds a well-formed map: when every random draw
    has as many entries as [inputsize] declares, [SOM.__init__] yields a
    grid of [rows] by [cols] neurons in which the neuron of the cell
    [(i, j)] holds the draw of that cell, the position [(i, j)] and the
    activation 0, and an activity map of zeros of the same shape. *)
Theorem init_builds_well_formed_map (inputsize : list nat) (rows cols : nat)
  (random : nat -> nat -> list R) :
  (forall i j, (i < rows)%nat -> (j < cols)%nat ->
     length (random i j) = fold_right Nat.mul 1%nat inputsize) ->
  wf_SOM (SOMM.init inputsize (rows, cols) random) /\
  (forall i j, (i < rows)%nat -> (j < cols)%nat ->
     Py.get2 (map (SOMM.init inputsize (rows, cols) random)) i j =
       Ok (mkNeuron (random i j) (Z.of_nat i) (Z.of_nat j) 0) /\
     Py.get2 (activitymap (SOMM.init inputsize (rows, cols) random)) i j =
       Ok 0) /\
  activitymap (SOMM.init inputsize (rows, cols) random) =
  List.map (List.map y) (map (SOMM.init inputsize (rows, cols) random)).
Proof.
  intros Hr. split; [exact (init_wf inputsize rows cols random Hr)|].
  rewrite init_closed. split.
  - intros i j Hi Hj. simpl. split.
    + apply get2_map_seq. auto.
    + apply (get2_map_seq (fun _ _ => 0)). auto.
  - simpl. rewrite map_map. apply map_ext. intros i.
    rewrite map_map. reflexivity.
Qed.

Lemma init_builds_well_formed_map_example :
  (forall i j, (i < 2)%nat -> (j < 3)%nat ->
     length ((fun _ _ => [0; 0; 0; 0]) i j) =
     fold_right Nat.mul 1%nat [2%nat; 2%nat]) /\
  wf_SOM (SOMM.init [2%nat; 2%nat] (2%nat, 3%nat) (fun _ _ => [0; 0; 0; 0])).
Proof.
  assert (H : forall i j : nat, (i < 2)%nat -> (j < 3)%nat ->
            length ((fun _ _ : nat => [0; 0; 0; 0]) i j) =
            fold_right Nat.mul 1%nat [2%nat; 2%nat])
    by (intros; reflexivity).
  split; [exact H|].
  exact (proj1 (init_builds_well_formed_map [2%nat; 2%nat] 2 3
                  (fun _ _ => [0; 0; 0; 0]) H)).
Defined.

(** ** The quantization error *)

Lemma fold_min_spec l : forall v,
  (fold_left Rmin l v = v \/ In (fold_left Rmin l v) l) /\
  fold_left Rmin l v <= v /\
  forall a, In a l -> fold_left Rmin l v <= a.
Proof.
  induction l as [|b l IH]; intros v; simpl.
  - split; [left; reflexivity|]. split; [lra | intros a []].
  - destruct (IH (Rmin v b)) as (H1 & H2 & H3).
    pose proof (Rmin_l v b) as Hl. pose proof (Rmin_r v b) as Hr.
    split; [|split].
    + destruct H1 as [H1|H1]; [|right; right; exact H1].
      rewrite H1. unfold Rmin. destruct (Rle_dec v b); [left | right; left];
        reflexivity.
    + lra.
    + intros a [E|Ha]; [subst a; lra | apply H3, Ha].
Qed.

Lemma amin_spec (a : list (list R)) :
  concat a <> [] ->
  exists v, Np.amin a = Ok v /\ In v (concat a) /\
            forall u, In u (concat a) -> v <= u.
Proof.
  unfold Np.amin. destruct (concat a) as [|v0 l]; [intros H; contradiction H; reflexivity|].
  intros _. destruct (fold_min_spec l v0) as (H1 & H2 & H3).
  exists (fold_left Rmin l v0). split; [reflexivity|]. split.
  - destruct H1 as [H1|H1]; [left; symmetry; exact H1 | right; exact H1].
  - intros u [E|Hu]; [subst u; exact H2 | apply H3, Hu].
Qed.

Lemma in_concat_get2 {A : Type} (m : list (list A)) a :
  In a (concat m) <-> exists i j, Py.get2 m i j = Ok a.
Proof.
  rewrite in_concat. split.
  - intros [row [Hr Ha]]. apply In_nth_error in Hr, Ha.
    destruct Hr as [i Hi]. destruct Ha as [j Hj]. exists i, j.
    unfold Py.get2. rewrite (proj2 (get_some m i row) Hi). simpl.
    apply get_some, Hj.
  - intros (i & j & H). destruct (get2_in _ _ _ _ H) as [row [H1 H2]].
    exists row. auto.
Qed.

Lemma nearest_distance_spec m x rows cols :
  grid_shape m rows cols -> (0 < rows * cols)%nat ->
  Np.amin (List.map (List.map (fun n => euclidean_distance x (weights n))) m)
    = Ok (nearest_distance m x) /\
  (exists i j n, Py.get2 m i j = Ok n /\
     nearest_distance m x = euclidean_distance x (weights n)) /\
  (forall i j n, Py.get2 m i j = Ok n ->
     nearest_distance m x <= euclidean_distance x (weights n)).
Proof.
  intros Hs Hpos.
  set (g := List.map (List.map (fun n => euclidean_distance x (weights n))) m).
  assert (Hne : concat g <> []).
  { intros E. pose proof (length_concat_grid g rows cols
                            (grid_shape_map _ _ _ _ Hs)) as Hl.
    rewrite E in Hl. simpl in Hl. lia. }
  destruct (amin_spec g Hne) as (v & Hv & Hin & Hmin).
  assert (E : nearest_distance m x = v).
  { unfold nearest_distance. fold g. rewrite Hv. reflexivity. }
  rewrite E. split; [exact Hv|]. split.
  - apply in_concat_get2 in Hin. destruct Hin as (i & j & H).
    apply get2_map_inv in H. destruct H as [n [Hn Ev]]. exists i, j, n. auto.
  - intros i j n Hn. apply Hmin. apply in_concat_get2. exists i, j.
    unfold g. apply (get2_map (fun n0 => euclidean_distance x (weights n0))).
    exact Hn.
Qed.

Lemma nearest_distance_after_compute s x x' :
  nearest_distance (map (compute_result s x)) x' = nearest_distance (map s) x'.
Proof.
  unfold nearest_distance, compute_result. simpl. rewrite map_map_grid.
  reflexivity.
Qed.

Lemma mse_loop X : forall s acc,
  wf_SOM s -> (0 < fst (gridsize s) * snd (gridsize s))%nat ->
  Forall (fun x => length x = input_dim s) X ->
  for_each X
    (fun x '(s0, self1) =>
       self2 <- SOMM.compute self1 x ;;
       mn <- Np.amin (activitymap self2) ;;
       Ok (s0 + mn ^ 2, self2))
    (acc, s) =
  Ok (acc + sum_over (fun x => nearest_distance (map s) x ^ 2) X,
      fold_left compute_result X s).
Proof.
  induction X as [|x X IH]; intros s acc Hwf Hpos HX.
  - cbn [for_each fold_left sum_over fold_right]. f_equal. f_equal. ring.
  - inversion HX as [|? ? Hx Hrest]; subst.
    cbn [for_each fold_left]. rewrite (compute_closed s x Hwf Hx).
    cbn [bind]. pose proof Hwf as (Hm & _).
    destruct (nearest_distance_spec (map s) x _ _ Hm Hpos) as (Hmin & _).
    change (activitymap (compute_result s x))
      with (List.map (List.map (fun n => euclidean_distance x (weights n))) (map s)).
    rewrite Hmin. cbn [bind].
    rewrite (IH (compute_result s x)); [| apply wf_compute_result, Hwf
                                        | exact Hpos | exact Hrest].
    f_equal. f_equal. unfold sum_over at 2. cbn [fold_right].
    fold (sum_over (fun x0 => nearest_distance (map s) x0 ^ 2) X).
    rewrite (sum_over_ext _ (fun x0 => nearest_distance (map s) x0 ^ 2)).
    + ring.
    + intros x0 _. rewrite nearest_distance_after_compute. reflexivity.
Qed.

Lemma sum_over_nonneg {X : Type} (f : X -> R) xs :
  (forall x, 0 <= f x) -> 0 <= sum_over f xs.
Proof.
  intros H. unfold sum_over. induction xs as [|x xs IH]; simpl; [lra|].
  specialize (H x). lra.
Qed.

Lemma fold_compute_weights X : forall s,
  List.map (List.map weights) (map (fold_left compute_result X s)) =
  List.map (List.map weights) (map s).
Proof.
  induction X as [|x X IH]; intros s; simpl; [reflexivity|].
  rewrite IH. unfold compute_result. simpl. rewrite map_map_grid. reflexivity.
Qed.

(** X12.  On a well-formed map with at least one prototype and a non-empty
    dataset of samples of the declared dimensionality, [SOM.MSE] returns the
    mean, over the samples, of the squared distance from the sample to its
    nearest prototype; the result is not negative, and the call leaves
    every weight vector as it was. *)
Theorem mse_is_mean_squared_nearest_distance (s : SOM) (X : list (list R)) :
  wf_SOM s -> (0 < fst (gridsize s) * snd (gridsize s))%nat ->
  X <> [] -> Forall (fun x => length x = input_dim s) X ->
  exists r s',
    SOMM.MSE s X = Ok (r, s') /\
    r = sum_over (fun x => nearest_distance (map s) x ^ 2) X / INR (length X) /\
    0 <= r /\
    List.map (List.map weights) (map s') = List.map (List.map weights) (map s) /\
    forall x,
      (exists i j n, Py.get2 (map s) i j = Ok n /\
         nearest_distance (map s) x = euclidean_distance x (weights n)) /\
      (forall i j n, Py.get2 (map s) i j = Ok n ->
         nearest_distance (map s) x <= euclidean_distance x (weights n)).
Proof.
  intros Hwf Hpos Hne HX. unfold SOMM.MSE.
  rewrite (mse_loop X s 0 Hwf Hpos HX). cbn [bind].
  assert (Hn : 0 < INR (length X)).
  { apply lt_0_INR. destruct X; [contradiction Hne; reflexivity | simpl; lia]. }
  unfold Py.div. destruct (Req_dec_T (INR (length X)) 0) as [E|_]; [lra|].
  cbn [bind]. eexists. eexists. split; [reflexivity|].
  split; [f_equal; ring|]. split.
  - apply Rmult_le_pos; [|left; apply Rinv_0_lt_compat; exact Hn].
    assert (H0 : 0 <= sum_over (fun x => nearest_distance (map s) x ^ 2) X).
    { apply sum_over_nonneg. intros x. apply pow2_ge_0. }
    lra.
  - split; [apply fold_compute_weights|].
    intros x. pose proof Hwf as (Hm & _).
    destruct (nearest_distance_spec (map s) x _ _ Hm Hpos) as (_ & H1 & H2).
    split; assumption.
Qed.

Lemma mse_is_mean_squared_nearest_distance_example :
  wf_SOM one_cell /\
  (0 < fst (gridsize one_cell) * snd (gridsize one_cell))%nat /\
  [[1]; [0]] <> [] /\
  Forall (fun x => length x = input_dim one_cell) [[1]; [0]] /\
  exists r s', SOMM.MSE one_cell [[1]; [0]] = Ok (r, s') /\ 0 <= r.
Proof.
  assert (Hne : [[1]; [0]] <> []) by discriminate.
  assert (HX : Forall (fun x => length x = input_dim one_cell) [[1]; [0]])
    by (repeat constructor).
  split; [exact one_cell_wf|]. split; [exact Nat.lt_0_1|].
  split; [exact Hne|]. split; [exact HX|].
  destruct (mse_is_mean_squared_nearest_distance one_cell [[1]; [0]]
              one_cell_wf Nat.lt_0_1 Hne HX) as (r & s' & H1 & _ & H2 & _).
  exists r, s'. split; assumption.
Defined.

(** X13.  For a dataset of one sample, [SOM.MSE] returns exactly the squared
    Euclidean distance from the sample to one of the prototypes, and no
    prototype is nearer to the sample; the map it leaves is the one
    [SOM.compute] leaves for that sample. *)
Theorem mse_of_one_sample (s : SOM) (x : list R) :
  wf_SOM s -> (0 < fst (gridsize s) * snd (gridsize s))%nat ->
  length x = input_dim s ->
  exists i j n s',
    Py.get2 (map s) i j = Ok n /\
    SOMM.compute s x = Ok s' /\
    SOMM.MSE s [x] = Ok (euclidean_distance x (weights n) ^ 2, s') /\
    forall i' j' n', Py.get2 (map s) i' j' = Ok n' ->
      euclidean_distance x (weights n) <= euclidean_distance x (weights n').
Proof.
  intros Hwf Hpos Hx. pose proof Hwf as (Hm & _).
  destruct (nearest_distance_spec (map s) x _ _ Hm Hpos)
    as (_ & (i & j & n & Hn & E) & Hmin).
  exists i, j, n, (compute_result s x).
  split; [exact Hn|]. split; [apply compute_closed; assumption|].
  split; [|intros i' j' n' Hn'; rewrite <- E; apply (Hmin i' j' n' Hn')].
  unfold SOMM.MSE.
  rewrite (mse_loop [x] s 0 Hwf Hpos (Forall_cons _ Hx (Forall_nil _))).
  cbn [bind length fold_left sum_over fold_right]. unfold Py.div.
  destruct (Req_dec_T (INR 1) 0) as [E1|_]; [simpl in E1; lra|].
  cbn [bind]. rewrite E. f_equal. f_equal. simpl. field.
Qed.

Lemma mse_of_one_sample_example :
  wf_SOM one_cell /\
  (0 < fst (gridsize one_cell) * snd (gridsize one_cell))%nat /\
  length [1] = input_dim one_cell /\
  exists r s', SOMM.MSE one_cell [[1]] = Ok (r, s').
Proof.
  split; [exact one_cell_wf|]. split; [exact Nat.lt_0_1|].
  split; [reflexivity|].
  destruct (mse_of_one_sample one_cell [1] one_cell_wf Nat.lt_0_1 eq_refl)
    as (i & j & n & s' & _ & _ & H & _).
  eexists. eexists. exact H.
Defined.

(** X14.  On an empty dataset [SOM.MSE] raises [ZeroDivisionError],
    whatever the map: the sum 0 is divided by the number of samples 0. *)
Theorem mse_empty_dataset_raises (s : SOM) :
  SOMM.MSE s [] = Raise ZeroDivisionError.
Proof.
  unfold SOMM.MSE, Py.div. cbn [for_each bind length INR].
  destruct (Req_dec_T 0 0) as [_|E]; [reflexivity | contradiction E; reflexivity].
Qed.

Lemma for_range2_no_cell {S : Type} rows cols (body : nat -> nat -> S -> res S) s :
  (rows * cols = 0)%nat -> for_range2 rows cols body s = Ok s.
Proof.
  intros H. rewrite for_range2_cells.
  assert (E : range_cells rows cols = []).
  { destruct (range_cells rows cols) as [|p l] eqn:Ec; [reflexivity|].
    assert (Hin : In p (range_cells rows cols)) by (rewrite Ec; left; reflexivity).
    apply in_range_cells in Hin. nia. }
  rewrite E. reflexivity.
Qed.

(** X15.  On a map without prototypes and a non-empty dataset, [SOM.MSE]
    raises [ValueError]: [SOM.compute] has no neuron to visit, whatever the
    sample, and the minimum of the empty activity map does not exist. *)
Theorem mse_empty_map_raises (s : SOM) (x : list R) (X : list (list R)) :
  grid_shape (activitymap s) (fst (gridsize s)) (snd (gridsize s)) ->
  (fst (gridsize s) * snd (gridsize s) = 0)%nat ->
  SOMM.compute s x = Ok s /\
  SOMM.MSE s (x :: X) = Raise ValueError.
Proof.
  intros Ha H0.
  assert (Hc : SOMM.compute s x = Ok s)
    by (unfold SOMM.compute; apply for_range2_no_cell; exact H0).
  split; [exact Hc|].
  unfold SOMM.MSE. cbn [for_each]. rewrite Hc. cbn [bind].
  unfold Np.amin. pose proof (length_concat_grid _ _ _ Ha) as Hl.
  destruct (concat (activitymap s)) as [|v l]; [reflexivity|].
  simpl in Hl. lia.
Qed.

Lemma mse_empty_map_raises_example :
  grid_shape (activitymap empty_som) (fst (gridsize empty_som))
    (snd (gridsize empty_som)) /\
  (fst (gridsize empty_som) * snd (gridsize empty_som) = 0)%nat /\
  SOMM.MSE empty_som [[0]] = Raise ValueError.
Proof.
  assert (Ha : grid_shape (activitymap empty_som) (fst (gridsize empty_som))
                 (snd (gridsize empty_som)))
    by (split; [reflexivity | constructor]).
  split; [exact Ha|]. split; [reflexivity|].
  exact (proj2 (mse_empty_map_raises empty_som [0] [] Ha eq_refl)).
Defined.

(** ** Dispersion, further *)

Lemma sq_diff_value a b a0 a1 b0 b1 :
  Py.get (weights a) 0 = Ok a0 -> Py.get (weights a) 1 = Ok a1 ->
  Py.get (weights b) 0 = Ok b0 -> Py.get (weights b) 1 = Ok b1 ->
  SOMM.sq_diff a b = Ok (Rabs (a0 - b0) ^ 2 + Rabs (a1 - b1) ^ 2).
Proof.
  intros H0 H1 H2 H3. unfold SOMM.sq_diff. rewrite H0, H2, H1, H3. reflexivity.
Qed.

Lemma sq_at_nonneg m p p' : 0 <= sq_at m p p'.
Proof.
  unfold sq_at.
  destruct (Py.get2 m (fst p) (snd p)) as [a|]; simpl; [|lra].
  destruct (Py.get2 m (fst p') (snd p')) as [b|]; simpl; [|lra].
  unfold SOMM.sq_diff.
  destruct (Py.get (weights a) 0) as [a0|]; simpl; [|lra].
  destruct (Py.get (weights b) 0) as [b0|]; simpl; [|lra].
  destruct (Py.get (weights a) 1) as [a1|]; simpl; [|lra].
  destruct (Py.get (weights b) 1) as [b1|]; simpl; [|lra].
  pose proof (pow2_ge_0 (Rabs (a0 - b0))). pose proof (pow2_ge_0 (Rabs (a1 - b1))).
  simpl in *. lra.
Qed.

Lemma sq_at_zero_iff m i j i' j' a b :
  has_motor_coords m ->
  Py.get2 m i j = Ok a -> Py.get2 m i' j' = Ok b ->
  sq_at m (i, j) (i', j') = 0 <-> same_motor a b.
Proof.
  intros Hm Ha Hb.
  pose proof (coords_at _ _ _ _ Hm Ha) as Hla.
  pose proof (coords_at _ _ _ _ Hm Hb) as Hlb.
  destruct (get_lt (weights a) 0) as [a0 H0]; [lia|].
  destruct (get_lt (weights a) 1) as [a1 H1]; [lia|].
  destruct (get_lt (weights b) 0) as [b0 H2]; [lia|].
  destruct (get_lt (weights b) 1) as [b1 H3]; [lia|].
  unfold sq_at, same_motor. simpl. rewrite Ha, Hb. simpl.
  rewrite (sq_diff_value a b a0 a1 b0 b1 H0 H1 H2 H3), H0, H1, H2, H3.
  rewrite !pow2_abs. split.
  - intros H. pose proof (pow2_ge_0 (a0 - b0)) as P0.
    pose proof (pow2_ge_0 (a1 - b1)) as P1.
    assert (E0 : (a0 - b0) ^ 2 = 0) by lra.
    assert (E1 : (a1 - b1) ^ 2 = 0) by lra.
    assert (Z0 : a0 - b0 = 0).
    { destruct (Req_dec (a0 - b0) 0) as [E|E]; [exact E|].
      exfalso. exact (pow_nonzero _ 2 E E0). }
    assert (Z1 : a1 - b1 = 0).
    { destruct (Req_dec (a1 - b1) 0) as [E|E]; [exact E|].
      exfalso. exact (pow_nonzero _ 2 E E1). }
    split; f_equal; lra.
  - intros [E0 E1]. inversion E0. inversion E1. subst. ring.
Qed.

Lemma sum_over_zero_inv {X : Type} (f : X -> R) xs :
  (forall x, 0 <= f x) -> sum_over f xs = 0 -> forall x, In x xs -> f x = 0.
Proof.
  intros Hf. unfold sum_over. induction xs as [|a xs IH]; simpl; intros H x Hx.
  - contradiction.
  - pose proof (Hf a) as Ha.
    pose proof (sum_over_nonneg f xs Hf) as Hs. unfold sum_over in Hs.
    destruct Hx as [E|Hx]; [subst x; lra | apply IH; [lra | exact Hx]].
Qed.

Lemma sum_over_all_zero {X : Type} (f : X -> R) xs :
  (forall x, In x xs -> f x = 0) -> sum_over f xs = 0.
Proof.
  intros H. rewrite (sum_over_ext f (fun _ => 0)); [apply sum_over_zero | exact H].
Qed.

Lemma forward_term_nonneg m rows cols i j :
  0 <= (if (S i <? rows)%nat then sq_at m (i, j) (S i, j) else 0) +
       (if (S j <? cols)%nat then sq_at m (i, j) (i, S j) else 0).
Proof.
  pose proof (sq_at_nonneg m (i, j) (S i, j)).
  pose proof (sq_at_nonneg m (i, j) (i, S j)).
  destruct (S i <? rows)%nat, (S j <? cols)%nat; lra.
Qed.

Lemma forward_dispersion_nonneg m rows cols : 0 <= forward_dispersion m rows cols.
Proof.
  unfold forward_dispersion. apply sum_over_nonneg. intros i.
  apply sum_over_nonneg. intros j.
  pose proof (sq_at_nonneg m (i, j) (S i, j)).
  pose proof (sq_at_nonneg m (i, j) (i, S j)).
  destruct (S i <? rows)%nat, (S j <? cols)%nat; lra.
Qed.

Lemma first_row_pairs_nonneg m rows cols : 0 <= first_row_pairs m rows cols.
Proof.
  unfold first_row_pairs. destruct (2 <=? rows)%nat; [|lra].
  apply sum_over_nonneg. intros j. apply sq_at_nonneg.
Qed.

Lemma first_col_pairs_nonneg m rows cols : 0 <= first_col_pairs m rows cols.
Proof.
  unfold first_col_pairs. destruct (2 <=? cols)%nat; [|lra].
  apply sum_over_nonneg. intros i. apply sq_at_nonneg.
Qed.

Lemma same_motor_refl a : same_motor a a.
Proof. split; reflexivity. Qed.

Lemma same_motor_sym a b : same_motor a b -> same_motor b a.
Proof. intros [H1 H2]. split; symmetry; assumption. Qed.

Lemma same_motor_trans a b c : same_motor a b -> same_motor b c -> same_motor a c.
Proof. intros [H1 H2] [H3 H4]. split; congruence. Qed.

(** X16.  On a rectangular map whose prototypes have the two motor
    coordinates, [get_map_dispertion] returns a number that is not negative,
    and it returns 0 exactly when all prototypes have the same first two
    weights. *)
Theorem dispersion_zero_iff_collapsed (m : list (list Neuron)) (rows cols : nat) :
  grid_shape m rows cols -> has_motor_coords m ->
  exists d,
    SOMM.get_map_dispertion m = Ok d /\ 0 <= d /\
    (d = 0 <->
     forall i j i' j' a b,
       Py.get2 m i j = Ok a -> Py.get2 m i' j' = Ok b -> same_motor a b).
Proof.
  intros Hs Hm. eexists. split; [apply (dispersion_closed_form m rows cols Hs Hm)|].
  pose proof (forward_dispersion_nonneg m rows cols) as HF.
  pose proof (first_row_pairs_nonneg m rows cols) as HA.
  pose proof (first_col_pairs_nonneg m rows cols) as HB.
  split; [lra|]. split.
  - intros Hd. assert (F0 : forward_dispersion m rows cols = 0) by lra.
    unfold forward_dispersion in F0.
    assert (Hterm : forall i j, (i < rows)%nat -> (j < cols)%nat ->
              (if (S i <? rows)%nat then sq_at m (i, j) (S i, j) else 0) = 0 /\
              (if (S j <? cols)%nat then sq_at m (i, j) (i, S j) else 0) = 0).
    { intros i j Hi Hj.
      assert (Hin_i : In i (seq 0 rows)) by (apply in_seq; lia).
      assert (Hin_j : In j (seq 0 cols)) by (apply in_seq; lia).
      pose proof (sum_over_zero_inv _ _
                    (fun i0 => sum_over_nonneg _ (seq 0 cols)
                                 (forward_term_nonneg m rows cols i0))
                    F0 i Hin_i) as Hrow.
      cbv beta in Hrow.
      pose proof (sum_over_zero_inv _ _ (forward_term_nonneg m rows cols i)
                    Hrow j Hin_j) as Hc.
      cbv beta in Hc.
      pose proof (sq_at_nonneg m (i, j) (S i, j)).
      pose proof (sq_at_nonneg m (i, j) (i, S j)).
      destruct (S i <? rows)%nat, (S j <? cols)%nat; split; lra. }
    assert (Hdown : forall i j a b, (S i < rows)%nat -> (j < cols)%nat ->
              Py.get2 m i j = Ok a -> Py.get2 m (S i) j = Ok b -> same_motor a b).
    { intros i j a b Hi Hj Ha Hb.
      destruct (Hterm i j) as [Hv _]; [lia | exact Hj |].
      rewrite (proj2 (Nat.ltb_lt _ _) Hi) in Hv.
      apply (sq_at_zero_iff m i j (S i) j a b Hm Ha Hb), Hv. }
    assert (Hright : forall i j a b, (i < rows)%nat -> (S j < cols)%nat ->
              Py.get2 m i j = Ok a -> Py.get2 m i (S j) = Ok b -> same_motor a b).
    { intros i j a b Hi Hj Ha Hb.
      destruct (Hterm i j) as [_ Hh]; [exact Hi | lia |].
      rewrite (proj2 (Nat.ltb_lt _ _) Hj) in Hh.
      apply (sq_at_zero_iff m i j i (S j) a b Hm Ha Hb), Hh. }
    assert (Hrow0 : forall j a0 b, Py.get2 m 0 0 = Ok a0 ->
              Py.get2 m 0 j = Ok b -> same_motor a0 b).
    { induction j as [|j IHj]; intros a0 b Ha0 Hb.
      - rewrite Ha0 in Hb. inversion Hb. apply same_motor_refl.
      - destruct (grid_shape_get2_lt _ _ _ _ _ _ Hs Hb) as [Hi Hj].
        destruct (grid_shape_get2 m rows cols 0 j Hs Hi) as [c Hc]; [lia|].
        apply same_motor_trans with c; [apply IHj; assumption|].
        apply (Hright 0%nat j c b Hi Hj Hc Hb). }
    assert (Hall : forall i j a0 b, Py.get2 m 0 0 = Ok a0 ->
              Py.get2 m i j = Ok b -> same_motor a0 b).
    { induction i as [|i IHi]; intros j a0 b Ha0 Hb.
      - apply (Hrow0 j a0 b Ha0 Hb).
      - destruct (grid_shape_get2_lt _ _ _ _ _ _ Hs Hb) as [Hi Hj].
        destruct (grid_shape_get2 m rows cols i j Hs) as [c Hc]; [lia|exact Hj|].
        apply same_motor_trans with c; [apply (IHi j); assumption|].
        apply (Hdown i j c b Hi Hj Hc Hb). }
    intros i j i' j' a b Ha Hb.
    destruct (grid_shape_get2_lt _ _ _ _ _ _ Hs Ha) as [Hi Hj].
    destruct (grid_shape_get2 m rows cols 0 0 Hs) as [a0 Ha0]; [lia|lia|].
    apply same_motor_trans with a0.
    + apply same_motor_sym. apply (Hall i j a0 a Ha0 Ha).
    + apply (Hall i' j' a0 b Ha0 Hb).
  - intros Hsame.
    assert (Hz : forall i j i' j', (i < rows)%nat -> (j < cols)%nat ->
              (i' < rows)%nat -> (j' < cols)%nat ->
              sq_at m (i, j) (i', j') = 0).
    { intros i j i' j' Hi Hj Hi' Hj'.
      destruct (grid_shape_get2 m rows cols i j Hs Hi Hj) as [a Ha].
      destruct (grid_shape_get2 m rows cols i' j' Hs Hi' Hj') as [b Hb].
      apply (sq_at_zero_iff m i j i' j' a b Hm Ha Hb).
      apply (Hsame i j i' j' a b Ha Hb). }
    assert (F0 : forward_dispersion m rows cols = 0).
    { unfold forward_dispersion. apply sum_over_all_zero. intros i Hi.
      apply sum_over_all_zero. intros j Hj. apply in_seq in Hi, Hj.
      destruct (S i <? rows)%nat eqn:E1; destruct (S j <? cols)%nat eqn:E2;
        try apply Nat.ltb_lt in E1; try apply Nat.ltb_lt in E2;
        rewrite ?Hz by lia; ring. }
    assert (A0 : first_row_pairs m rows cols = 0).
    { unfold first_row_pairs. destruct (2 <=? rows)%nat eqn:E; [|reflexivity].
      apply Nat.leb_le in E. apply sum_over_all_zero. intros j Hj.
      apply in_seq in Hj. apply Hz; lia. }
    assert (B0 : first_col_pairs m rows cols = 0).
    { unfold first_col_pairs. destruct (2 <=? cols)%nat eqn:E; [|reflexivity].
      apply Nat.leb_le in E. apply sum_over_all_zero. intros i Hi.
      apply in_seq in Hi. apply Hz; lia. }
    rewrite F0, A0, B0. ring.
Qed.

Lemma dispersion_zero_iff_collapsed_example :
  grid_shape two_cells 1 2 /\ has_motor_coords two_cells /\
  exists d, SOMM.get_map_dispertion two_cells = Ok d /\ 0 <= d.
Proof.
  assert (Hs : grid_shape two_cells 1 2)
    by (split; [reflexivity | repeat constructor]).
  pose proof (has_output_motor _ two_cells_coords) as Hm.
  split; [exact Hs|]. split; [exact Hm|].
  destruct (dispersion_zero_iff_collapsed two_cells 1 2 Hs Hm)
    as (d & Hd & Hpos & _).
  exists d. split; assumption.
Defined.

(** * Further properties of the searches *)

(** X17.  [find_hand_position_v1] returns the weights of a nearest
    prototype: on a map whose prototypes have four coordinates and whose
    cell [(0, 0)] exists, the four numbers returned are the weights of the
    prototype at some position [p], no prototype is nearer to the query
    point in the first two coordinates, and every prototype at the same
    distance comes after [p] in row-major order. *)
Theorem v1_returns_a_nearest_prototype (m : list (list Neuron)) (q : point) :
  has_output_coords m -> (exists n0, Py.get2 m 0 0 = Ok n0) ->
  exists p n d w0 w1 w2 w3,
    Py.get2 m (fst p) (snd p) = Ok n /\
    SOMM.motor_dist n q = Ok d /\
    Py.get (weights n) 0 = Ok w0 /\ Py.get (weights n) 1 = Ok w1 /\
    Py.get (weights n) 2 = Ok w2 /\ Py.get (weights n) 3 = Ok w3 /\
    SOMM.find_hand_position_v1 m q = Ok ((w0, w1), (w2, w3)) /\
    forall i j n' d',
      Py.get2 m i j = Ok n' -> SOMM.motor_dist n' q = Ok d' ->
      d <= d' /\ (d = d' -> (i, j) = p \/ pos_lt p (i, j)).
Proof.
  intros Hm Ho. pose proof (has_output_motor m Hm) as Hc.
  destruct (v1_scan_inv m q Hc Ho) as [[d p] [Hscan (Hd & Hin & Hmin)]].
  simpl in Hd, Hin, Hmin.
  assert (Hp : In p (grid_cells m)).
  { destruct Hin as [E|Hin]; [|exact Hin]. subst p.
    destruct Ho as [n0 Hn0]. apply in_grid_cells. exists n0. exact Hn0. }
  destruct (v1_of_scan m q d p Hm Hscan Hp)
    as (n & w0 & w1 & w2 & w3 & Hn & G0 & G1 & G2 & G3 & Hv1).
  exists p, n, d, w0, w1, w2, w3.
  split; [exact Hn|]. split.
  { rewrite Hd. destruct p as [pi pj]. apply dist_at_ok; assumption. }
  split; [exact G0|]. split; [exact G1|]. split; [exact G2|].
  split; [exact G3|]. split; [exact Hv1|].
  intros i j n' d' Hn' Hd'.
  assert (Hcell : In (i, j) (grid_cells m))
    by (apply in_grid_cells; exists n'; exact Hn').
  pose proof (dist_at_ok m q i j n' Hc Hn') as Hd''.
  assert (E : d' = dist_at m q (i, j)) by congruence.
  destruct (Hmin (i, j) Hcell) as [Ep|Hprec].
  - subst p. split; [rewrite E, Hd; lra | intros _; left; reflexivity].
  - rewrite <- E in Hprec. split; [apply (prec_le _ _ Hprec)|].
    intros Ed. right. destruct Hprec as [H|[_ H]]; [simpl in H; lra | exact H].
Qed.

Lemma v1_returns_a_nearest_prototype_example :
  has_output_coords four_cells /\ (exists n0, Py.get2 four_cells 0 0 = Ok n0) /\
  exists r, SOMM.find_hand_position_v1 four_cells (1, 0) = Ok r.
Proof.
  split; [exact four_cells_coords|]. split; [eexists; reflexivity|].
  destruct (v1_returns_a_nearest_prototype four_cells (1, 0) four_cells_coords
              (ex_intro _ _ eq_refl))
    as (p & n & d & w0 & w1 & w2 & w3 & _ & _ & _ & _ & _ & _ & H & _).
  eexists. exact H.
Defined.

(** X18.  When the map has no cell [(0, 0)] (no row, or an empty first
    row), [find_hand_position_v1] raises [IndexError]. *)
Theorem v1_without_first_cell_raises (m : list (list Neuron)) (q : point) :
  (forall n, Py.get2 m 0 0 <> Ok n) ->
  SOMM.find_hand_position_v1 m q = Raise IndexError.
Proof.
  intros H. unfold SOMM.find_hand_position_v1, SOMM.v1_scan.
  destruct (Py.get2 m 0 0) as [n|e] eqn:E.
  - exfalso. exact (H n eq_refl).
  - simpl. rewrite (oie_get2 m 0 0 e E). reflexivity.
Qed.

Lemma v1_without_first_cell_raises_example :
  (forall n, Py.get2 ([[]; [mkNeuron [0; 0; 1; 2] 1 0 0]]) 0 0 <> Ok n) /\
  SOMM.find_hand_position_v1 [[]; [mkNeuron [0; 0; 1; 2] 1 0 0]] (0, 0) =
  Raise IndexError.
Proof.
  assert (H : forall n, Py.get2 ([[]; [mkNeuron [0; 0; 1; 2] 1 0 0]]) 0 0 <> Ok n)
    by (intros n; discriminate).
  split; [exact H|].
  exact (v1_without_first_cell_raises _ (0, 0) H).
Defined.

(** X19.  The nearest-one and the k-nearest searches agree on the nearest
    prototype for every admitted [k]: for [1 <= k <= number of prototypes],
    the first pair kept by the scan of [find_hand_position_v2] and
    [find_hand_position_v3] is the position and distance kept by
    [find_hand_position_v1], and it is the first position
    [find_hand_position_v2] returns. *)
Theorem knn_first_is_nearest (m : list (list Neuron)) (q : point) (k : Z) :
  has_output_coords m -> (exists n0, Py.get2 m 0 0 = Ok n0) ->
  (1 <= k <= Z.of_nat (length (concat m)))%Z ->
  exists p d rest r,
    SOMM.v1_scan m q = Ok (d, p) /\
    SOMM.knn_scan m q k = Ok ((p, d) :: rest) /\
    SOMM.find_hand_position_v2 m q k = Ok (p :: List.map fst rest, r).
Proof.
  intros Hm Ho [Hk1 Hk2]. pose proof (has_output_motor m Hm) as Hc.
  destruct (v1_scan_inv m q Hc Ho) as [[d p] [Hscan (Hd & Hin & Hmin)]].
  simpl in Hd, Hin, Hmin.
  destruct (knn_scan_inv m q k Hk1 Hc)
    as [cv [Hk (Hlen & Hsort & Hsrc & _ & Hout)]].
  assert (Hp : In p (grid_cells m)).
  { destruct Hin as [E|Hin]; [|exact Hin]. subst p.
    destruct Ho as [n0 Hn0]. apply in_grid_cells. exists n0. exact Hn0. }
  assert (Hcount : length (grid_cells m) = length (concat m))
    by (unfold grid_cells; apply length_grid_cells_from).
  destruct cv as [|e rest]; [simpl in Hlen; lia|].
  assert (He : e = (p, d)).
  { destruct (Hsrc e (or_introl eq_refl)) as [He1 He2].
    destruct e as [pe de]. simpl in He1, He2.
    apply StronglySorted_inv in Hsort as [_ Hf]. rewrite Forall_forall in Hf.
    assert (Hle : (pe, de) = (p, dist_at m q p) \/
                  prec (pe, de) (p, dist_at m q p)).
    { destruct (Hout p Hp) as [[E|Hr]|Hprec].
      - left. exact E.
      - right. apply Hf, Hr.
      - right. apply Hprec. left. reflexivity. }
    destruct Hle as [E|Hprec]; [rewrite E, Hd; reflexivity|].
    destruct (Hmin pe He1) as [E|Hprec'].
    - subst pe. f_equal. congruence.
    - exfalso. rewrite <- He2, <- Hd in *.
      exact (prec_irrefl _ (prec_trans _ _ _ Hprec Hprec')). }
  subst e. exists p, d, rest. eexists.
  split; [exact Hscan|]. split; [exact Hk|].
  rewrite (v2_of_scan m q k ((p, d) :: rest) Hm Hk1 Hk).
  - reflexivity.
  - unfold entry, pos in *. lia.
  - intros e He. apply Hsrc, He.
Qed.

Lemma knn_first_is_nearest_example :
  has_output_coords four_cells /\ (exists n0, Py.get2 four_cells 0 0 = Ok n0) /\
  (1 <= 3 <= Z.of_nat (length (concat four_cells)))%Z /\
  exists p ps r,
    SOMM.find_hand_position_v2 four_cells (1, 0) 3 = Ok (p :: ps, r).
Proof.
  assert (Hk : (1 <= 3 <= Z.of_nat (length (concat four_cells)))%Z)
    by (simpl; lia).
  split; [exact four_cells_coords|]. split; [eexists; reflexivity|].
  split; [exact Hk|].
  destruct (knn_first_is_nearest four_cells (1, 0) 3 four_cells_coords
              (ex_intro _ _ eq_refl) Hk) as (p & d & rest & r & _ & _ & H).
  exists p, (List.map fst rest), r. exact H.
Defined.

(** ** The estimates are averages of output coordinates *)

Lemma coord_at_ok m p c :
  has_output_coords m -> In p (grid_cells m) -> (c < 4)%nat ->
  exists n, Py.get2 m (fst p) (snd p) = Ok n /\
            Py.get (weights n) c = Ok (coord_at m c p).
Proof.
  intros Hm Hp Hc. pose proof (weight_at_ok m p c Hm Hp Hc) as H.
  unfold SOMM.weight_at in H.
  destruct (Py.get2 m (fst p) (snd p)) as [n|e]; [|discriminate].
  exists n. split; [reflexivity | exact H].
Qed.

Lemma fold_left_sum_over {X : Type} (f : X -> R) xs : forall a,
  fold_left (fun acc x => acc + f x) xs a = a + sum_over f xs.
Proof.
  unfold sum_over. induction xs as [|x xs IH]; intros a; simpl; [ring|].
  rewrite IH. ring.
Qed.

Lemma sum_over_const_bounds {X : Type} (f : X -> R) lo hi xs :
  (forall x, In x xs -> lo <= f x <= hi) ->
  INR (length xs) * lo <= sum_over f xs <= INR (length xs) * hi.
Proof.
  unfold sum_over. induction xs as [|x xs IH]; intros H.
  - simpl. lra.
  - cbn [fold_right length]. rewrite S_INR.
    pose proof (H x (or_introl eq_refl)) as Hx.
    specialize (IH (fun x' Hx' => H x' (or_intror Hx'))). lra.
Qed.

Lemma sum_over_convex {X : Type} (c w : X -> R) lo hi xs :
  (forall x, In x xs -> lo <= c x <= hi /\ 0 <= w x) ->
  lo * sum_over w xs <= sum_over (fun x => c x * w x) xs <= hi * sum_over w xs.
Proof.
  unfold sum_over. induction xs as [|x xs IH]; intros H.
  - simpl. lra.
  - cbn [fold_right].
    destruct (H x (or_introl eq_refl)) as [Hc Hw].
    specialize (IH (fun x' Hx' => H x' (or_intror Hx'))).
    assert (0 <= (c x - lo) * w x) by (apply Rmult_le_pos; lra).
    assert (0 <= (hi - c x) * w x) by (apply Rmult_le_pos; lra).
    lra.
Qed.

Lemma sum_over_member_le {X : Type} (f : X -> R) xs x :
  (forall x', In x' xs -> 0 <= f x') -> In x xs -> f x <= sum_over f xs.
Proof.
  unfold sum_over. induction xs as [|a xs IH]; intros H Hx.
  - contradiction.
  - cbn [fold_right].
    assert (Hs : 0 <= fold_right (fun x0 acc => f x0 + acc) 0 xs).
    { clear IH Hx. induction xs as [|b xs IHs]; simpl; [lra|].
      pose proof (H b (or_intror (or_introl eq_refl))) as Hb.
      assert (0 <= fold_right (fun x0 acc => f x0 + acc) 0 xs).
      { apply IHs. intros x' [E|Hx']; apply H; [left | right; right]; assumption. }
      lra. }
    pose proof (H a (or_introl eq_refl)) as Ha.
    destruct Hx as [E|Hx].
    + subst a. lra.
    + specialize (IH (fun x' Hx' => H x' (or_intror Hx')) Hx). lra.
Qed.

Lemma sum_over_inverse_distance {X : Type} (f : X -> R) (T K : R) xs :
  sum_over (fun x => (1 - f x / T) / K) xs =
  (INR (length xs) - sum_over f xs / T) / K.
Proof.
  unfold sum_over. induction xs as [|x xs IH].
  - simpl. unfold Rdiv. ring.
  - cbn [fold_right length]. rewrite S_INR, IH. unfold Rdiv. ring.
Qed.

Lemma INR_to_nat k : (0 <= k)%Z -> INR (Z.to_nat k) = IZR k.
Proof. intros H. rewrite INR_IZR_INZ, Z2Nat.id by exact H. reflexivity. Qed.

Lemma div_between (s K lo hi : R) :
  0 < K -> K * lo <= s <= K * hi -> lo <= s / K <= hi.
Proof.
  intros HK [H1 H2]. unfold Rdiv.
  assert (Hi : 0 < / K) by (apply Rinv_0_lt_compat; exact HK).
  assert (E : K * / K = 1) by (apply Rinv_r; lra).
  assert (0 <= (s - K * lo) * / K) by (apply Rmult_le_pos; lra).
  assert (0 <= (K * hi - s) * / K) by (apply Rmult_le_pos; lra).
  assert (K * / K * lo = lo) by (rewrite E; ring).
  assert (K * / K * hi = hi) by (rewrite E; ring).
  lra.
Qed.

(** X20.  The estimate of [find_hand_position_v2] stays within the range
    of the prototypes' output coordinates: for
    [1 <= k <= number of prototypes], when every prototype has its third
    weight in [[lo, hi]] and its fourth in [[lo', hi']], the call returns
    [k] positions and an estimate whose first coordinate is in [[lo, hi]]
    and whose second is in [[lo', hi']]. *)
Theorem v2_estimate_between (m : list (list Neuron)) (q : point) (k : Z)
  (lo hi lo' hi' : R) :
  has_output_coords m -> (1 <= k <= Z.of_nat (length (concat m)))%Z ->
  (forall i j n w2 w3,
     Py.get2 m i j = Ok n ->
     Py.get (weights n) 2 = Ok w2 -> Py.get (weights n) 3 = Ok w3 ->
     lo <= w2 <= hi /\ lo' <= w3 <= hi') ->
  exists ps rx ry,
    SOMM.find_hand_position_v2 m q k = Ok (ps, (rx, ry)) /\
    length ps = Z.to_nat k /\
    lo <= rx <= hi /\ lo' <= ry <= hi'.
Proof.
  intros Hm [Hk1 Hk2] Hb.
  destruct (knn_scan_inv m q k Hk1 (has_output_motor m Hm))
    as [cv [Hscan (Hlen & _ & Hsrc & _)]].
  assert (Hlen' : Z.to_nat k = length cv).
  { rewrite Hlen. unfold grid_cells. rewrite length_grid_cells_from. lia. }
  assert (Hcells : forall e, In e cv -> In (fst e) (grid_cells m))
    by (intros e He; apply Hsrc, He).
  assert (Hc : forall e, In e cv ->
             lo <= coord_at m 2 (fst e) <= hi /\
             lo' <= coord_at m 3 (fst e) <= hi').
  { intros e He.
    destruct (coord_at_ok m (fst e) 2 Hm (Hcells e He)) as [n [Hn G2]]; [lia|].
    destruct (coord_at_ok m (fst e) 3 Hm (Hcells e He)) as [n' [Hn' G3]]; [lia|].
    assert (n' = n) by congruence. subst n'.
    exact (Hb _ _ n _ _ Hn G2 G3). }
  assert (HK : 0 < IZR k) by (apply IZR_lt; lia).
  assert (HN : INR (length cv) = IZR k)
    by (rewrite <- Hlen'; apply INR_to_nat; lia).
  exists (List.map fst cv), (sum_coord m 2 cv 0 / IZR k),
    (sum_coord m 3 cv 0 / IZR k).
  split; [exact (v2_of_scan m q k cv Hm Hk1 Hscan Hlen' Hcells)|].
  split; [rewrite length_map; symmetry; exact Hlen'|].
  unfold sum_coord. rewrite !fold_left_sum_over, !Rplus_0_l, <- HN.
  split; apply div_between; try (rewrite HN; exact HK);
    apply sum_over_const_bounds; intros e He; apply (Hc e He).
Qed.

Lemma v2_estimate_between_example :
  has_output_coords four_cells /\
  (1 <= 3 <= Z.of_nat (length (concat four_cells)))%Z /\
  exists ps rx ry,
    SOMM.find_hand_position_v2 four_cells (1, 0) 3 = Ok (ps, (rx, ry)) /\
    length ps = 3%nat /\ 1 <= rx <= 7 /\ 2 <= ry <= 8.
Proof.
  assert (Hk : (1 <= 3 <= Z.of_nat (length (concat four_cells)))%Z)
    by (simpl; lia).
  split; [exact four_cells_coords|]. split; [exact Hk|].
  assert (Hb : forall i j n w2 w3,
             Py.get2 four_cells i j = Ok n ->
             Py.get (weights n) 2 = Ok w2 -> Py.get (weights n) 3 = Ok w3 ->
             1 <= w2 <= 7 /\ 2 <= w3 <= 8).
  { intros i j n w2 w3 Hn G2 G3.
    destruct i as [|[|i]]; [| |destruct i; discriminate Hn];
      (destruct j as [|[|j]]; [| |destruct j; discriminate Hn]);
      injection Hn as <-; injection G2 as <-; injection G3 as <-; lra. }
  exact (v2_estimate_between four_cells (1, 0) 3 1 7 2 8
           four_cells_coords Hk Hb).
Defined.

(** X21.  The weights of [find_hand_position_v3] form a convex
    combination: for [2 <= k <= number of prototypes] and a query point
    at which no prototype lies, the total distance [T] of the [k] kept
    entries is positive, every weight [(1 - d / T) / (k - 1)] is between 0
    and 1, the weights sum to 1, and the estimate stays within the range
    of the prototypes' output coordinates. *)
Theorem v3_weights_convex (m : list (list Neuron)) (q : point) (k : Z)
  (lo hi lo' hi' : R) :
  has_output_coords m -> (2 <= k <= Z.of_nat (length (concat m)))%Z ->
  (forall i j n d,
     Py.get2 m i j = Ok n -> SOMM.motor_dist n q = Ok d -> d <> 0) ->
  (forall i j n w2 w3,
     Py.get2 m i j = Ok n ->
     Py.get (weights n) 2 = Ok w2 -> Py.get (weights n) 3 = Ok w3 ->
     lo <= w2 <= hi /\ lo' <= w3 <= hi') ->
  exists cv T ps rx ry,
    SOMM.knn_scan m q k = Ok cv /\
    SOMM.total_of cv k = Ok T /\ 0 < T /\
    (forall e, In e cv -> 0 <= (1 - snd e / T) / IZR (k - 1) <= 1) /\
    sum_over (fun e => (1 - snd e / T) / IZR (k - 1)) cv = 1 /\
    SOMM.find_hand_position_v3 m q k = Ok (ps, (rx, ry)) /\
    lo <= rx <= hi /\ lo' <= ry <= hi'.
Proof.
  intros Hm [Hk1 Hk2] Hnz Hb.
  assert (Hk : (1 <= k)%Z) by lia.
  pose proof (has_output_motor m Hm) as Hmot.
  destruct (knn_scan_inv m q k Hk Hmot) as [cv [Hscan (Hlen & _ & Hsrc & _)]].
  assert (Hlen' : Z.to_nat k = length cv).
  { rewrite Hlen. unfold grid_cells. rewrite length_grid_cells_from. lia. }
  assert (Hcells : forall e, In e cv -> In (fst e) (grid_cells m))
    by (intros e He; apply Hsrc, He).
  assert (Hpos : forall e, In e cv -> 0 < snd e).
  { intros e He. destruct (Hsrc e He) as [H1 H2].
    pose proof (dist_at_nonneg m q (fst e)) as Hge.
    destruct (fst e) as [i j] eqn:Ep. apply in_grid_cells in H1.
    destruct H1 as [n Hn].
    pose proof (Hnz i j n _ Hn (dist_at_ok m q i j n Hmot Hn)) as Hne.
    rewrite H2. lra. }
  assert (Hne : cv <> []).
  { intros E. subst cv. simpl in Hlen'. lia. }
  set (T := total_dist cv 0).
  assert (HT : T = sum_over snd cv).
  { unfold T, total_dist. rewrite fold_left_sum_over. ring. }
  assert (HTpos : 0 < T).
  { destruct (total_dist_pos cv Hpos 0) as [_ H]. exact (H Hne). }
  assert (HK : 1 <= IZR (k - 1)) by (apply IZR_le; lia).
  assert (HiK : 0 < / IZR (k - 1) <= 1).
  { split; [apply Rinv_0_lt_compat; lra|].
    rewrite <- Rinv_1. apply Rinv_le_contravar; lra. }
  assert (Hw : forall e, In e cv -> 0 <= (1 - snd e / T) / IZR (k - 1) <= 1).
  { intros e He.
    assert (Hle : snd e <= T).
    { rewrite HT. apply (sum_over_member_le snd cv e); [|exact He].
      intros e' He'. apply Rlt_le, Hpos, He'. }
    assert (Hq : 0 <= snd e / T <= 1).
    { apply div_between; [exact HTpos|]. pose proof (Hpos e He). lra. }
    unfold Rdiv at 1 3. split.
    - apply Rmult_le_pos; lra.
    - assert (0 <= (1 - snd e / T) * (1 - / IZR (k - 1)))
        by (apply Rmult_le_pos; lra).
      lra. }
  assert (Hsum : sum_over (fun e => (1 - snd e / T) / IZR (k - 1)) cv = 1).
  { assert (HN : INR (length cv) = IZR k)
      by (rewrite <- Hlen'; apply INR_to_nat; lia).
    pose proof (sum_over_inverse_distance snd T (IZR (k - 1)) cv) as Hs.
    unfold entry, pos in *. rewrite Hs, <- HT, HN.
    rewrite minus_IZR. rewrite minus_IZR in HK. field. split; lra. }
  assert (Hc : forall e, In e cv ->
             lo <= coord_at m 2 (fst e) <= hi /\
             lo' <= coord_at m 3 (fst e) <= hi').
  { intros e He.
    destruct (coord_at_ok m (fst e) 2 Hm (Hcells e He)) as [n [Hn G2]]; [lia|].
    destruct (coord_at_ok m (fst e) 3 Hm (Hcells e He)) as [n' [Hn' G3]]; [lia|].
    assert (n' = n) by congruence. subst n'.
    exact (Hb _ _ n _ _ Hn G2 G3). }
  exists cv, T, (List.map fst cv), (sum_weighted m 2 T k cv 0),
    (sum_weighted m 3 T k cv 0).
  split; [exact Hscan|]. split; [exact (total_loop cv k Hlen')|].
  split; [exact HTpos|]. split; [exact Hw|]. split; [exact Hsum|].
  split.
  { apply (v3_of_scan m q k cv Hm Hk1 Hscan Hlen' Hcells). fold T. lra. }
  unfold sum_weighted. rewrite !fold_left_sum_over, !Rplus_0_l.
  pose proof (sum_over_convex (fun e => coord_at m 2 (fst e))
                (fun e => (1 - snd e / T) / IZR (k - 1)) lo hi cv) as H2.
  pose proof (sum_over_convex (fun e => coord_at m 3 (fst e))
                (fun e => (1 - snd e / T) / IZR (k - 1)) lo' hi' cv) as H3.
  rewrite Hsum in H2, H3. cbv beta in H2, H3.
  split.
  - rewrite <- (Rmult_1_r lo), <- (Rmult_1_r hi). apply H2.
    intros e He. split; [apply (Hc e He) | apply (Hw e He)].
  - rewrite <- (Rmult_1_r lo'), <- (Rmult_1_r hi'). apply H3.
    intros e He. split; [apply (Hc e He) | apply (Hw e He)].
Qed.

Lemma v3_weights_convex_example :
  has_output_coords four_cells /\
  (2 <= 3 <= Z.of_nat (length (concat four_cells)))%Z /\
  exists ps rx ry,
    SOMM.find_hand_position_v3 four_cells (1, 0) 3 = Ok (ps, (rx, ry)) /\
    1 <= rx <= 7 /\ 2 <= ry <= 8.
Proof.
  assert (Hk : (2 <= 3 <= Z.of_nat (length (concat four_cells)))%Z)
    by (simpl; lia).
  split; [exact four_cells_coords|]. split; [exact Hk|].
  assert (Hnz : forall i j n d,
             Py.get2 four_cells i j = Ok n ->
             SOMM.motor_dist n (1, 0) = Ok d -> d <> 0).
  { intros i j n d Hn Hd.
    pose proof (dist_at_ok four_cells (1, 0) i j n
                  (has_output_motor _ four_cells_coords) Hn) as Hd'.
    assert (E : d = dist_at four_cells (1, 0) (i, j)) by congruence.
    rewrite E. apply four_cells_far; [simpl; lra|].
    apply in_grid_cells. exists n. exact Hn. }
  assert (Hb : forall i j n w2 w3,
             Py.get2 four_cells i j = Ok n ->
             Py.get (weights n) 2 = Ok w2 -> Py.get (weights n) 3 = Ok w3 ->
             1 <= w2 <= 7 /\ 2 <= w3 <= 8).
  { intros i j n w2 w3 Hn G2 G3.
    destruct i as [|[|i]]; [| |destruct i; discriminate Hn];
      (destruct j as [|[|j]]; [| |destruct j; discriminate Hn]);
      injection Hn as <-; injection G2 as <-; injection G3 as <-; lra. }
  destruct (v3_weights_convex four_cells (1, 0) 3 1 7 2 8
              four_cells_coords Hk Hnz Hb)
    as (cv & T & ps & rx & ry & _ & _ & _ & _ & _ & H & Hx & Hy).
  exists ps, rx, ry. split; [exact H|]. split; assumption.
Defined.

(** ** Trajectories *)

(** X23.  With [nb_steps <= 1] the loop of the three trajectory functions
    is not entered: each returns exactly one estimate, the one at [to_pos]
    (with [k = 3] for [mouvement_v2] and [mouvement_v3]), and no division
    by [nb_steps - 1] takes place. *)
Theorem mouvement_without_intermediate_step (m : list (list Neuron))
  (from_pos to_pos : point) (nb_steps : Z) :
  (nb_steps <= 1)%Z ->
  SOMM.mouvement_v1 m from_pos to_pos nb_steps =
    (r <- SOMM.find_hand_position_v1 m to_pos ;; Ok [r]) /\
  SOMM.mouvement_v2 m from_pos to_pos nb_steps =
    (r <- SOMM.find_hand_position_v2 m to_pos 3 ;; Ok [r]) /\
  SOMM.mouvement_v3 m from_pos to_pos nb_steps =
    (r <- SOMM.find_hand_position_v3 m to_pos 3 ;; Ok [r]).
Proof.
  intros H.
  assert (E : Py.rangeZ (nb_steps - 1) = []).
  { unfold Py.rangeZ. replace (Z.to_nat (nb_steps - 1)) with 0%nat by lia.
    reflexivity. }
  unfold SOMM.mouvement_v1, SOMM.mouvement_v2, SOMM.mouvement_v3, SOMM.mouvement.
  rewrite E. destruct to_pos as [tx ty]. cbn [for_each bind fst snd app].
  split; [reflexivity|]. split; reflexivity.
Qed.

Lemma mouvement_without_intermediate_step_example :
  (1 <= 1)%Z /\
  exists r, SOMM.mouvement_v1 four_cells (1, 0) (2, 0) 1 = Ok [r].
Proof.
  split; [lia|].
  destruct (mouvement_without_intermediate_step four_cells (1, 0) (2, 0) 1
              (Z.le_refl 1)) as [H _].
  rewrite H.
  destruct (v1_total four_cells (2, 0) four_cells_coords
              (ex_intro _ _ eq_refl)) as [r Hr].
  exists r. rewrite Hr. reflexivity.
Defined.

(** X24.  [mouvement_v2] and [mouvement_v3] need four prototypes as soon
    as there is an intermediate step: on a map with fewer than four
    prototypes and [nb_steps >= 2], the first call in the loop asks for
    four neighbours and both functions raise [IndexError]. *)
Theorem mouvement_knn_needs_four_prototypes (m : list (list Neuron))
  (from_pos to_pos : point) (nb_steps : Z) :
  (length (concat m) < 4)%nat -> (2 <= nb_steps)%Z ->
  SOMM.mouvement_v2 m from_pos to_pos nb_steps = Raise IndexError /\
  SOMM.mouvement_v3 m from_pos to_pos nb_steps = Raise IndexError.
Proof.
  intros Hc Hn.
  assert (E : exists n, Py.rangeZ (nb_steps - 1) = 0%nat :: seq 1 n).
  { unfold Py.rangeZ. destruct (Z.to_nat (nb_steps - 1)) as [|n] eqn:En; [lia|].
    exists n. reflexivity. }
  destruct E as [n E].
  unfold SOMM.mouvement_v2, SOMM.mouvement_v3. rewrite !mouvement_unfold, E.
  cbn [map_res]. rewrite interpolate_ok by exact Hn. cbn [bind].
  rewrite v2_k_too_large, v3_k_too_large by lia.
  split; reflexivity.
Qed.

Lemma mouvement_knn_needs_four_prototypes_example :
  (length (concat col3) < 4)%nat /\ (2 <= 3)%Z /\
  SOMM.mouvement_v2 col3 (1, 0) (2, 0) 3 = Raise IndexError.
Proof.
  assert (Hc : (length (concat col3) < 4)%nat) by (simpl; lia).
  assert (Hn : (2 <= 3)%Z) by lia.
  split; [exact Hc|]. split; [exact Hn|].
  exact (proj1 (mouvement_knn_needs_four_prototypes col3 (1, 0) (2, 0) 3 Hc Hn)).
Defined.

(** * Further properties of a neuron and of the winner *)

Lemma euclidean_self x : euclidean_distance x x = 0.
Proof.
  unfold euclidean_distance.
  replace (fold_right Rplus 0 (Py.zip_with (fun p q => (p - q) ^ 2) x x))
    with 0; [apply sqrt_0|].
  induction x as [|a x IH]; cbn [Py.zip_with fold_right]; [reflexivity|].
  rewrite <- IH. ring.
Qed.

(** X25.  The activation set by [Neuron.compute] is a distance: for an
    input of the length of the weights the call succeeds, leaves the
    weights and the position of the neuron unchanged, and sets an
    activation that is never negative and is 0 exactly when the weights
    equal the input. *)
Theorem neuron_activity_zero_iff (n : Neuron) (x : list R) :
  length x = length (weights n) ->
  exists n',
    NeuronM.compute n x = Ok n' /\
    weights n' = weights n /\ posx n' = posx n /\ posy n' = posy n /\
    0 <= y n' /\ (y n' = 0 <-> weights n = x).
Proof.
  intros H. exists (activated x n).
  split; [exact (neuron_compute_ok n x H)|].
  unfold activated. cbn [weights posx posy y].
  split; [reflexivity|]. split; [reflexivity|]. split; [reflexivity|].
  split; [apply euclidean_nonneg|]. split.
  - intros E. exact (euclidean_zero_eq x (weights n) H E).
  - intros E. rewrite E. apply euclidean_self.
Qed.

Lemma neuron_activity_zero_iff_example :
  length [1; 2] = length (weights (mkNeuron [1; 2] 0 0 5)) /\
  exists n', NeuronM.compute (mkNeuron [1; 2] 0 0 5) [1; 2] = Ok n' /\ y n' = 0.
Proof.
  split; [reflexivity|].
  destruct (neuron_activity_zero_iff (mkNeuron [1; 2] 0 0 5) [1; 2] eq_refl)
    as (n' & H & _ & _ & _ & _ & Hz).
  exists n'. split; [exact H | apply Hz; reflexivity].
Defined.

Lemma map_minus_repeat c b :
  List.map (fun v => c - v) b = Py.zip_with Rminus (repeat c (length b)) b.
Proof.
  induction b as [|v b IH]; cbn [List.map length repeat Py.zip_with];
    [reflexivity|].
  rewrite IH. reflexivity.
Qed.

(** X26.  [Neuron.compute] accepts an input of one number whatever the
    length of the weights: through the broadcasting of the array
    subtraction, the input [[c]] gives the same result as the input that
    repeats [c] once per weight. *)
Theorem neuron_compute_broadcasts_scalar (n : Neuron) (c : R) :
  exists n',
    NeuronM.compute n [c] = Ok n' /\
    NeuronM.compute n (repeat c (length (weights n))) = Ok n' /\
    y n' = euclidean_distance (repeat c (length (weights n))) (weights n).
Proof.
  assert (Hl : length (repeat c (length (weights n))) = length (weights n))
    by apply repeat_length.
  exists (activated (repeat c (length (weights n))) n).
  split; [|split; [exact (neuron_compute_ok n _ Hl) | reflexivity]].
  rewrite <- (neuron_compute_ok n _ Hl).
  unfold NeuronM.compute, Py.broadcast. rewrite repeat_length, Nat.eqb_refl.
  destruct (weights n) as [|w [|w' ws]] eqn:E.
  - reflexivity.
  - reflexivity.
  - cbn [length Nat.eqb]. rewrite map_minus_repeat. reflexivity.
Qed.

(** X27.  [SOM.learn] reads the winner off the stored activity map, not
    off its argument [x]: on a well-formed non-empty map whose activity
    map is constant, as it is just after construction, the winner is the
    cell [(0, 0)] whatever [x] is, and every prototype is updated with the
    kernel of its Manhattan distance to that cell. *)
Theorem learn_on_constant_activity (s : SOM) (eta sigma c : R) (x : list R) :
  wf_SOM s -> (0 < fst (gridsize s) * snd (gridsize s))%nat ->
  length x = input_dim s -> 0 < sigma ->
  (forall i j a, Py.get2 (activitymap s) i j = Ok a -> a = c) ->
  SOMM.bmu s = Ok (0%nat, 0%nat) /\
  SOMM.learn s eta sigma x = Ok (learn_result s eta sigma 0 0 x).
Proof.
  intros Hwf Hpos Hx Hs Hc. pose proof Hwf as (_ & Ha & _).
  destruct (bmu_spec s Ha Hpos)
    as (bx & by_ & ab & Hb & Hbx & Hby & Hab & Hmin).
  destruct (grid_shape_get2 _ _ _ 0 0 Ha) as [a0 Ha0]; try nia.
  assert (E : bx = 0%nat /\ by_ = 0%nat).
  { destruct (Hmin 0%nat 0%nat a0 Ha0) as [_ Hlt].
    pose proof (Hc _ _ _ Ha0) as E0. pose proof (Hc _ _ _ Hab) as E1.
    destruct bx as [|bx].
    - destruct by_ as [|by_]; [split; reflexivity|].
      exfalso. assert (ab < a0) by (apply Hlt; right; simpl; split; lia). lra.
    - exfalso. assert (ab < a0) by (apply Hlt; left; simpl; lia). lra. }
  destruct E as [-> ->]. split; [exact Hb|].
  exact (learn_closed s eta sigma x 0 0 Hwf Hx Hs Hb).
Qed.

Lemma learn_on_constant_activity_example :
  wf_SOM (SOMM.init [1%nat] (2%nat, 2%nat) (fun i _ => [INR i])) /\
  SOMM.bmu (SOMM.init [1%nat] (2%nat, 2%nat) (fun i _ => [INR i])) =
  Ok (0%nat, 0%nat).
Proof.
  assert (Hwf : wf_SOM
                  (SOMM.init [1%nat] (2%nat, 2%nat) (fun i _ => [INR i])))
    by (apply init_wf; intros; reflexivity).
  split; [exact Hwf|].
  assert (Hpos : (0 < fst (gridsize (SOMM.init [1%nat] (2%nat, 2%nat)
                                        (fun i _ => [INR i]))) *
                      snd (gridsize (SOMM.init [1%nat] (2%nat, 2%nat)
                                        (fun i _ => [INR i]))))%nat)
    by (simpl; lia).
  assert (Hx : length [2] =
               input_dim (SOMM.init [1%nat] (2%nat, 2%nat)
                            (fun i _ => [INR i])))
    by reflexivity.
  assert (Hs : 0 < 1) by lra.
  assert (Hc : forall i j a,
             Py.get2 (activitymap (SOMM.init [1%nat] (2%nat, 2%nat)
                                     (fun i _ => [INR i]))) i j = Ok a ->
             a = 0).
  { intros i j a H.
    destruct i as [|[|i]]; [| |destruct i; discriminate H];
      (destruct j as [|[|j]]; [| |destruct j; discriminate H]);
      injection H as <-; reflexivity. }
  exact (proj1 (learn_on_constant_activity _ 1 1 0 [2] Hwf Hpos Hx Hs Hc)).
Defined.
